(** * Citebase research agent: the ingestion-and-retrieval pipeline

    A shallow embedding of the pipeline tools ([tools/*.py]), of the two
    pipelines ([pipelines/qa.py], [pipelines/ingest.py]), of the agent
    ([agent/agent_react.py]) and of the helpers they use
    ([utils/common.py], the validation of [config/settings.py]), with the
    properties the specification states about them and further properties
    of the code.

    Conventions.
    - A Python [str] is a [string]; each character stands for one code point
      (the Latin-1 range).
    - A Python [int] is a [Z]; list positions are [nat].
    - A Python [float] is a binary64 [spec_float].
    - A Python [dict] used as a map is a [gmap], a [set] is a [gset].
    - A call that may raise returns an [outcome]; [try]/[except] is a match
      on it.
    - Collaborators outside the repository (HTTP transport, URL library,
      search provider, HTML parser, text splitter, SHA-1, Unicode
      normalization, embedding and chat backends, the nearest-neighbour
      query of the vector store, the clock, the file system) are members of
      type classes: the theorems hold for every behaviour they may have.

    Part I is the model, Part II the vocabulary of the properties, Part III
    reference collaborators and data to run the model on, Part IV the
    properties. *)

From Stdlib Require Import ZArith Ascii String List Bool Lia.
From Stdlib Require Import Floats.SpecFloat.
From stdpp Require Import gmap strings list fin_maps pretty sorting.

Local Open Scope string_scope.
Local Open Scope list_scope.
Local Open Scope Z_scope.

(** ** Python primitives *)

Module Py.

(** Exceptions the modelled code can raise or catch. *)
Inductive exn : Type :=
| ValueError (msg : string)
| RuntimeError (msg : string)
| RequestException
| RateLimitError
| APITimeoutError
| APIError
| NotFoundError.

(** Result of running a piece of code: a value, a raised exception, or the
    loop bound of the model was reached. *)
Inductive outcome (A : Type) : Type :=
| Return (a : A)
| Raise (e : exn)
| OutOfFuel.
Arguments Return {A} a.
Arguments Raise {A} e.
Arguments OutOfFuel {A}.

(** [str.isspace] on one code point (Latin-1 range). *)
Definition is_space (c : ascii) : bool :=
  let n := nat_of_ascii c in
  ((9 <=? n) && (n <=? 13) || (28 <=? n) && (n <=? 32)
   || (n =? 133) || (n =? 160))%nat.

Fixpoint lstrip (s : string) : string :=
  match s with
  | String c r => if is_space c then lstrip r else s
  | EmptyString => EmptyString
  end.

Fixpoint rstrip (s : string) : string :=
  match s with
  | EmptyString => EmptyString
  | String c r =>
      match rstrip r with
      | EmptyString => if is_space c then EmptyString else String c EmptyString
      | r' => String c r'
      end
  end.

(** [s.strip()] *)
Definition strip (s : string) : string := rstrip (lstrip s).

Definition lower_char (c : ascii) : ascii :=
  let n := nat_of_ascii c in
  if ((65 <=? n) && (n <=? 90)
      || (192 <=? n) && (n <=? 222) && negb (n =? 215))%nat
  then ascii_of_nat (n + 32) else c.

(** [s.lower()] *)
Fixpoint lower (s : string) : string :=
  match s with
  | EmptyString => EmptyString
  | String c r => String (lower_char c) (lower r)
  end.

(** [sub in s] *)
Fixpoint contains (sub s : string) : bool :=
  String.prefix sub s
  || match s with
     | EmptyString => false
     | String _ r => contains sub r
     end.

(** Truthiness of a [str]: [bool(s)]. *)
Definition truthy (s : string) : bool :=
  match s with EmptyString => false | _ => true end.

(** [o or ...] on an optional [str]: [None] and the empty string are falsy. *)
Definition opt_truthy (o : option string) : option string :=
  match o with
  | Some s => if truthy s then Some s else None
  | None => None
  end.

(** [s[:n]] *)
Fixpoint take_str (n : nat) (s : string) : string :=
  match n, s with
  | S n', String c r => String c (take_str n' r)
  | _, _ => EmptyString
  end.

(** [s.replace(a, b)] for single characters. *)
Fixpoint replace_char (a b : ascii) (s : string) : string :=
  match s with
  | EmptyString => EmptyString
  | String c r =>
      String (if Ascii.eqb c a then b else c) (replace_char a b r)
  end.

(** [x or default] on an optional integer: [None] and [0] are falsy. *)
Definition or_default (x : option Z) (d : Z) : Z :=
  match x with
  | Some v => if v =? 0 then d else v
  | None => d
  end.

(** [list.sort(key=...)]: a stable sort that only compares keys with [<].
    [insert_by] puts an element behind every element that is not greater. *)
Section Sort.
Context {A K : Type} (key : A → K) (ltb : K → K → bool).

Fixpoint insert_by (x : A) (l : list A) : list A :=
  match l with
  | [] => [x]
  | y :: r => if ltb (key x) (key y) then x :: y :: r
              else y :: insert_by x r
  end.

Definition sort_by (l : list A) : list A :=
  fold_left (λ acc x, insert_by x acc) l [].

(** [list.sort(key=..., reverse=True)]: reverse, sort stably, reverse. *)
Definition sort_by_reverse (l : list A) : list A :=
  rev (sort_by (rev l)).
(** Ascending: a later element is never less than an earlier one. *)
Definition ascending (a b : A) : Prop := ltb (key b) (key a) = false.

End Sort.

End Py.
Import Py.

(** ** Configuration ([config/settings.py]) *)

Record Settings : Type := {
  LLM_PROVIDER : string;
  LLM_MODEL : string;
  EMBEDDINGS_PROVIDER : string;
  EMBEDDING_MODEL : string;
  MAX_SEARCH_RESULTS : Z;
  REQUEST_TIMEOUT_SECONDS : Z;
  MAX_RETRIES : Z;
  USER_AGENT : string;
  CHROMA_COLLECTION_PREFIX : string;
  CHUNK_SIZE_TOKENS : Z;
  CHUNK_OVERLAP_TOKENS : Z;
  RETRIEVAL_TOP_K : Z;
  OPENAI_API_KEY : string;
  SERPAPI_API_KEY : string;
  GROQ_API_KEY : string
}.

(** The defaults of [_Settings] (keys filled with a placeholder). *)
Definition default_settings : Settings := {|
  LLM_PROVIDER := "openai";
  LLM_MODEL := "gpt-4o-mini";
  EMBEDDINGS_PROVIDER := "openai";
  EMBEDDING_MODEL := "text-embedding-3-small";
  MAX_SEARCH_RESULTS := 20;
  REQUEST_TIMEOUT_SECONDS := 15;
  MAX_RETRIES := 2;
  USER_AGENT := "ResearchAgent/1.0 (+https://example.com/contact)";
  CHROMA_COLLECTION_PREFIX := "research_";
  CHUNK_SIZE_TOKENS := 800;
  CHUNK_OVERLAP_TOKENS := 120;
  RETRIEVAL_TOP_K := 6;
  OPENAI_API_KEY := "sk-test";
  SERPAPI_API_KEY := "serp-test";
  GROQ_API_KEY := ""
|}.

(** ** The URL library ([urllib.parse]) as an interface *)

Record ParseResult : Type := {
  scheme : string;
  netloc : string;
  path : string;
  params : string;
  query : string;
  fragment : string
}.

Class UrlLib : Type := {
  (** [urlparse(u)]; raises [ValueError] on some inputs. *)
  urlparse : string → outcome ParseResult;
  (** [parse_qsl(q, keep_blank_values=True)] *)
  parse_qsl : string → outcome (list (string * string));
  (** [urlencode(pairs, doseq=True)] *)
  urlencode : list (string * string) → string;
  urlunparse : ParseResult → string
}.

(** ** Collaborators outside the repository *)

Class Config : Type := { SETTINGS : Settings }.

(** What [requests.get] hands back under the contract of the library: a
    response, or a raised [requests.RequestException] (connection error,
    timeout, invalid URL, ...), the class every exception of a request
    derives from. The contract is for a usable, that is positive, timeout. *)
Record Response : Type := {
  status_code : Z;
  content_type : option string;
  resp_text : string
}.

Inductive get_result : Type :=
| GotResponse (r : Response)
| GotRequestException.

(** The network: the result of the [n]-th GET of a URL with a timeout. *)
Class Requests : Type := {
  requests_get : string → Z → nat → get_result
}.

(** Observable effects, in the order they happen. *)
Inductive event : Type :=
| EvHttpGet (url : string) (timeout : Z)
| EvSleep (seconds : Z)
| EvEmbed (texts : list string)
| EvChat (provider : string) (system_prompt user_prompt : string).

(** * Part I: the model *)

(** ** [tools/fetch_page.py] *)

Module FetchPage.

Record FetchedPage : Type := {
  url : string;
  html : string;
  status : Z
}.

Section Model.
Context `{UrlLib} `{Config} `{Requests}.

Definition _is_http_url (u : string) : bool :=
  match urlparse u with
  | Return p =>
      let s := lower (scheme p) in
      String.eqb s "http" || String.eqb s "https"
  | _ => false
  end.

Definition retryable_status (status : Z) : bool :=
  existsb (Z.eqb status) [408; 409; 425; 429; 500; 502; 503; 504].

Definition is_html_ctype (ctype : string) : bool :=
  contains "text/html" ctype || contains "application/xhtml+xml" ctype.

(** The [while attempt < max_attempts] loop. [fuel] bounds the number of
    iterations of the model. *)
Fixpoint fetch_loop (u : string) (timeout max_attempts : Z) (fuel : nat)
    (attempt backoff : Z) (log : list event)
    : outcome FetchedPage * list event :=
  if attempt <? max_attempts then
    match fuel with
    | O => (OutOfFuel, log)
    | S fuel' =>
        let attempt := attempt + 1 in
        let log := log ++ [EvHttpGet u timeout] in
        match requests_get u timeout (Z.to_nat attempt) with
        | GotResponse resp =>
            let status := status_code resp in
            if negb (status =? 200) then
              if retryable_status status && (attempt <? max_attempts) then
                fetch_loop u timeout max_attempts fuel' attempt (backoff * 2)
                  (log ++ [EvSleep backoff])
              else
                (Return {| url := u; html := ""; status := status |}, log)
            else
              let ctype :=
                lower (match content_type resp with
                       | Some c => c
                       | None => ""
                       end) in
              if negb (is_html_ctype ctype) then
                (Return {| url := u; html := ""; status := status |}, log)
              else
                (Return {| url := u; html := resp_text resp;
                           status := status |}, log)
        | GotRequestException =>
            if attempt <? max_attempts then
              fetch_loop u timeout max_attempts fuel' attempt (backoff * 2)
                (log ++ [EvSleep backoff])
            else
              (Return {| url := u; html := ""; status := 0 |}, log)
        end
    end
  else
    (Return {| url := u; html := ""; status := 0 |}, log).

Definition fetch_page (u : string) (timeout_sec : option Z)
    : outcome FetchedPage * list event :=
  if negb (_is_http_url u) then
    (Return {| url := u; html := ""; status := 0 |}, [])
  else
    let timeout := or_default timeout_sec (REQUEST_TIMEOUT_SECONDS SETTINGS) in
    let max_attempts := MAX_RETRIES SETTINGS + 1 in
    fetch_loop u timeout max_attempts (Z.to_nat max_attempts) 0 1 [].

End Model.
End FetchPage.

(** ** [tools/split_chunks.py] *)

(** [RecursiveCharacterTextSplitter(chunk_size, chunk_overlap).split_text];
    the constructor raises [ValueError] on an overlap above the size. *)
Class TextSplitter : Type := {
  split_text : Z → Z → string → outcome (list string)
}.

(** [hashlib.sha1(s.encode("utf-8")).hexdigest()]: a function of the
    characters alone (unlike the built-in [hash], it is not salted per
    process). *)
Class Hashlib : Type := {
  sha1_hexdigest : string → string
}.

Module SplitChunks.

Record Chunk : Type := {
  chunk_id : string;
  text : string;
  url : string;
  title : string;
  order : nat
}.

Section Model.
Context `{Config} `{TextSplitter} `{Hashlib}.

Definition _hash_id (s : string) : string := sha1_hexdigest s.

(** What is hashed for the piece at position [order]:
    [f"{url}|{order}|{prefix}"]. *)
Definition id_source (u : string) (order : nat) (prefix : string) : string :=
  u +:+ "|" +:+ pretty order +:+ "|" +:+ prefix.

(** The body of [for order, text in enumerate(pieces)], from position
    [order] on. *)
Fixpoint chunk_pieces (u ttl : string) (order : nat) (pieces : list string)
    : list Chunk :=
  match pieces with
  | [] => []
  | piece :: rest =>
      let text := strip piece in
      if negb (truthy text) then chunk_pieces u ttl (S order) rest
      else
        let prefix := replace_char "010"%char " "%char (take_str 40 text) in
        let chunk_id := _hash_id (id_source u order prefix) in
        {| chunk_id := chunk_id; text := text; url := u; title := ttl;
           order := order |} :: chunk_pieces u ttl (S order) rest
  end.

Definition split_chunks (doc_text u ttl : string)
    (chunk_size_tokens overlap_tokens : option Z) : outcome (list Chunk) :=
  if negb (truthy doc_text) then Return []
  else
    let chunk_size := or_default chunk_size_tokens (CHUNK_SIZE_TOKENS SETTINGS) in
    let overlap := or_default overlap_tokens (CHUNK_OVERLAP_TOKENS SETTINGS) in
    match split_text chunk_size overlap doc_text with
    | Return pieces => Return (chunk_pieces u ttl 0 pieces)
    | Raise e => Raise e
    | OutOfFuel => OutOfFuel
    end.

End Model.
End SplitChunks.

(** ** [tools/synthesize_answer.py] *)

(** Reply of the local Ollama server to a POST. *)
Record OllamaReply : Type := {
  ollama_status : Z;
  ollama_message_content : option string;
  ollama_response : option string
}.

(** The chat backends. Each call may raise. *)
Class ChatBackend : Type := {
  (** [client.chat.completions.create(...).choices[0].message.content] *)
  openai_chat : string → string → string → spec_float → outcome string;
  groq_chat : string → string → string → spec_float → outcome string;
  (** [requests.post(endpoint, json=payload, timeout=180)] *)
  ollama_post : string → string → string → string → spec_float
                → outcome OllamaReply
}.

Module Synthesize.

Record RetrievedContext : Type := {
  text : string;
  url : string;
  title : string;
  score : spec_float
}.

Record Citation : Type := {
  cite_url : string;
  cite_title : string
}.

Record Answer : Type := {
  content : string;
  citations : list Citation
}.

Definition no_context_message : string :=
  "I don’t have any supporting context yet. Try ingesting more sources for this topic.".

Definition nl : string := "
".

Definition sys_prompt : string :=
  "You are a careful research assistant. Use ONLY the provided context blocks to answer."
  +:+ nl +:+
  "Cite sources by listing the URLs you relied on. If info is insufficient, say so explicitly."
  +:+ nl +:+ "Structure the reply as:"
  +:+ nl +:+ "• A short paragraph answer."
  +:+ nl +:+ "• 3-6 bullet points with key facts."
  +:+ nl +:+ "• A 'Sources:' section with URLs (deduplicated)."
  +:+ nl.

(** [str.join] *)
Fixpoint join (sep : string) (l : list string) : string :=
  match l with
  | [] => ""
  | [x] => x
  | x :: r => x +:+ sep +:+ join sep r
  end.

Fixpoint format_lines (i : nat) (ctxs : list RetrievedContext) : list string :=
  match ctxs with
  | [] => []
  | c :: rest =>
      let ttl := strip (title c) in
      let u := strip (url c) in
      let txt := strip (text c) in
      ("[" +:+ pretty i +:+ "] " +:+ ttl +:+ nl +:+ "URL: " +:+ u +:+ nl
       +:+ "---" +:+ nl +:+ txt +:+ nl)
      :: format_lines (S i) rest
  end.

Definition _format_contexts (ctxs : list RetrievedContext) : string :=
  join nl (format_lines 1 ctxs).

(** The loop of [_dedupe_urls] with its two accumulators. *)
Fixpoint dedupe_loop (ctxs : list RetrievedContext) (seen : gset string)
    (out : list Citation) : list Citation :=
  match ctxs with
  | [] => out
  | c :: rest =>
      let u := strip (url c) in
      let t := strip (title c) in
      if negb (truthy u) || bool_decide (u ∈ seen) then
        dedupe_loop rest seen out
      else
        dedupe_loop rest ({[u]} ∪ seen)
          (out ++ [{| cite_url := u; cite_title := t |}])
  end.

Definition _dedupe_urls (ctxs : list RetrievedContext) : list Citation :=
  dedupe_loop ctxs ∅ [].

Section Model.
Context `{Config} `{ChatBackend}.

(** The [ollama] branch: chat endpoint, [/api/generate] on a 404,
    [raise_for_status], then the reply text. *)
Definition ollama_content (model system user : string) (temperature : spec_float)
    : outcome string * list event :=
  let chat := "http://localhost:11434/api/chat" in
  let gen := "http://localhost:11434/api/generate" in
  let finish (r : OllamaReply) (log : list event) :=
    if (400 <=? ollama_status r) && (ollama_status r <? 600) then
      (Raise RequestException, log)
    else
      let c := match opt_truthy (ollama_message_content r) with
               | Some s => s
               | None => match opt_truthy (ollama_response r) with
                         | Some s => s
                         | None => ""
                         end
               end in
      (Return (strip c), log) in
  let log1 := [EvChat "ollama" system user] in
  match ollama_post chat model system user temperature with
  | Return r =>
      if ollama_status r =? 404 then
        let prompt := system +:+ nl +:+ nl +:+ user in
        let log2 := log1 ++ [EvChat "ollama" "" prompt] in
        match ollama_post gen model "" prompt temperature with
        | Return r2 => finish r2 log2
        | Raise e => (Raise e, log2)
        | OutOfFuel => (OutOfFuel, log2)
        end
      else finish r log1
  | Raise e => (Raise e, log1)
  | OutOfFuel => (OutOfFuel, log1)
  end.

Definition synthesize_answer (question : string)
    (contexts : list RetrievedContext) (style : string)
    (temperature : spec_float) : outcome Answer * list event :=
  match contexts with
  | [] =>
      (Return {| content := no_context_message; citations := [] |}, [])
  | _ =>
      let ctx_block := _format_contexts contexts in
      let ctx_block :=
        if (12000 <? Z.of_nat (String.length ctx_block))
        then take_str (Z.to_nat 12000) ctx_block else ctx_block in
      let user_prompt :=
        "Question: " +:+ question +:+ nl +:+ nl
        +:+ "Context blocks (use these as your only sources; cite their URLs):"
        +:+ nl +:+ ctx_block +:+ nl +:+ nl +:+ "Style: " +:+ style in
      let provider := strip (lower (LLM_PROVIDER SETTINGS)) in
      let model := LLM_MODEL SETTINGS in
      let finish (r : outcome string * list event) :=
        match r with
        | (Return content, log) =>
            (Return {| content := content;
                       citations := _dedupe_urls contexts |}, log)
        | (Raise e, log) => (Raise e, log)
        | (OutOfFuel, log) => (OutOfFuel, log)
        end in
      let stripped (r : outcome string) :=
        match r with
        | Return s => Return (strip s)
        | other => other
        end in
      if String.eqb provider "openai" then
        finish (stripped (openai_chat model sys_prompt user_prompt temperature),
                [EvChat "openai" sys_prompt user_prompt])
      else if String.eqb provider "ollama" then
        finish (ollama_content model sys_prompt user_prompt temperature)
      else if String.eqb provider "groq" then
        finish (stripped (groq_chat model sys_prompt user_prompt temperature),
                [EvChat "groq" sys_prompt user_prompt])
      else
        (Raise (RuntimeError ("Unsupported LLM_PROVIDER: "
                              +:+ LLM_PROVIDER SETTINGS)), [])
  end.

End Model.
End Synthesize.

(** ** The vector store (Chroma) *)

Definition vector : Type := list spec_float.

(** One persisted record: embedding, document text, metadata. *)
Record IndexedRecord : Type := {
  rec_embedding : vector;
  rec_document : string;
  rec_metadata : gmap string string
}.

Record Collection : Type := {
  col_metadata : gmap string string;
  col_items : gmap string IndexedRecord
}.

(** The persisted store: collection name to collection. *)
Abbreviation Store := (gmap string Collection).

(** [collection.query(..., include=[distances, documents, metadatas])[..][0]] *)
Record QueryResult : Type := {
  documents : list (option string);
  metadatas : list (option (gmap string string));
  distances : list spec_float
}.

(** The nearest-neighbour search of the store. *)
Class VectorIndex : Type := {
  collection_query : Collection → vector → Z → outcome QueryResult
}.

(** The embedding backends. [openai_embed model texts start attempt] is the
    answer to the [attempt]-th request for the batch starting at [start]. *)
Class EmbeddingBackend : Type := {
  st_encode : string → list string → outcome (list vector);
  openai_embed : string → list string → nat → nat → outcome (list vector)
}.

(** binary64 *)
Definition prec : Z := 53.
Definition emax : Z := 1024.
Definition float_one : spec_float := S754_finite false 4503599627370496 (-52).
Definition float_zero : spec_float := S754_zero false.
(** The literal [0.2]. *)
Definition float_0_2 : spec_float := S754_finite false 7205759403792794 (-55).
Definition float_sub (a b : spec_float) : spec_float := SFsub prec emax a b.
Definition float_ltb (a b : spec_float) : bool := SFltb a b.

(** ** [tools/retrieve_context.py] *)

Module Retrieve.
Import Synthesize.

Section Model.
Context `{Config} `{VectorIndex} `{EmbeddingBackend}.

Definition _collection_name (namespace : string) : string :=
  strip (CHROMA_COLLECTION_PREFIX SETTINGS +:+ namespace).

Definition _embed_query (text : string) : outcome vector :=
  let text := strip text in
  if negb (truthy text) then Return []
  else
    let first (r : outcome (list vector)) :=
      match r with
      | Return (v :: _) => Return v
      | Return [] => Raise (ValueError "list index out of range")
      | Raise e => Raise e
      | OutOfFuel => OutOfFuel
      end in
    if String.eqb (lower (EMBEDDINGS_PROVIDER SETTINGS)) "sentencetransformers"
    then first (st_encode (EMBEDDING_MODEL SETTINGS) [text])
    else first (openai_embed (EMBEDDING_MODEL SETTINGS) [text] 0 1).

Definition meta_get (meta : option (gmap string string)) (k : string) : string :=
  match meta with
  | Some m => default "" (m !! k)
  | None => ""
  end.

(** [zip(docs, metas, dists)] and the body of the loop over it. The
    distances are floats, so [float(dist)] is the identity and the [except]
    branch is not taken. *)
Fixpoint build_contexts (docs : list (option string))
    (metas : list (option (gmap string string)))
    (dists : list spec_float) : list RetrievedContext :=
  match docs, metas, dists with
  | doc :: docs', meta :: metas', dist :: dists' =>
      let sim := float_sub float_one dist in
      {| text := default "" doc;
         url := meta_get meta "url";
         title := meta_get meta "title";
         score := sim |} :: build_contexts docs' metas' dists'
  | _, _, _ => []
  end.

Definition retrieve_context (store : Store) (namespace question : string)
    (top_k : option Z) : outcome (list RetrievedContext) :=
  if negb (truthy namespace) || negb (truthy question) then Return []
  else
    let top_k := or_default top_k (RETRIEVAL_TOP_K SETTINGS) in
    let col_name := _collection_name namespace in
    match store !! col_name with
    | None => Return []
    | Some collection =>
        match _embed_query question with
        | Return qvec =>
            match qvec with
            | [] => Return []
            | _ =>
                match collection_query collection qvec (Z.max 1 top_k) with
                | Return res =>
                    let out := build_contexts (documents res) (metadatas res)
                                 (distances res) in
                    Return (sort_by_reverse score float_ltb out)
                | Raise e => Raise e
                | OutOfFuel => OutOfFuel
                end
            end
        | Raise e => Raise e
        | OutOfFuel => OutOfFuel
        end
    end.

End Model.
End Retrieve.

(** ** [pipelines/qa.py] *)

Module QA.
Import Synthesize.

Section Model.
Context `{Config} `{VectorIndex} `{EmbeddingBackend} `{ChatBackend}.

Definition no_relevant_context_message : string :=
  "I couldn’t find relevant context in this namespace. Try ingesting more sources or re-ingesting with --force.".

Definition answer_question (store : Store) (question namespace : string)
    (top_k : option Z) : outcome Answer * list event :=
  let k := or_default top_k (RETRIEVAL_TOP_K SETTINGS) in
  match Retrieve.retrieve_context store namespace question (Some k) with
  | Return ctxs =>
      match ctxs with
      | [] => (Return {| content := no_relevant_context_message;
                         citations := [] |}, [])
      | _ => synthesize_answer question ctxs "concise" float_0_2
      end
  | Raise e => (Raise e, [])
  | OutOfFuel => (OutOfFuel, [])
  end.

End Model.
End QA.

(** ** [tools/search_web.py] *)

(** One entry of [organic_results]; a missing key reads as the empty string. *)
Record OrganicItem : Type := {
  link : string;
  item_title : string;
  item_snippet : string
}.

(** Answer of SerpAPI to one request: status 200 with decoded JSON, another
    status, or a raised [requests.RequestException]. *)
Inductive serp_result : Type :=
| SerpOk (organic : list OrganicItem)
| SerpStatus (code : Z)
| SerpRequestException.

(** [serp_get query num attempt] *)
Class SerpApi : Type := {
  serp_get : string → Z → nat → serp_result
}.

Module SearchWeb.

Record SearchHit : Type := {
  title : string;
  url : string;
  snippet : string
}.

Definition _UTM_KEYS : list string :=
  ["utm_source"; "utm_medium"; "utm_campaign"; "utm_term"; "utm_content";
   "gclid"; "fbclid"; "igshid"; "mc_cid"; "mc_eid"; "_hsenc"; "_hsmi"].

Section Model.
Context `{UrlLib} `{Config} `{SerpApi}.

Definition _normalize_url (u : string) : string :=
  match urlparse (strip u) with
  | Return p =>
      if negb (String.eqb (scheme p) "http" || String.eqb (scheme p) "https")
      then ""
      else
        match parse_qsl (query p) with
        | Return pairs =>
            let q_pairs :=
              filter (λ kv, ¬ (kv.1 ∈ _UTM_KEYS)) pairs in
            let q := urlencode q_pairs in
            urlunparse {| scheme := scheme p; netloc := netloc p;
                          path := path p; params := params p;
                          query := q; fragment := "" |}
        | _ => ""
        end
  | _ => ""
  end.

Definition _domain (u : string) : string :=
  match urlparse u with
  | Return p => lower (netloc p)
  | _ => ""
  end.

(** The loop of [_dedupe_and_diversify] with its three accumulators. *)
Fixpoint diversify_loop (per_domain_limit : Z) (items : list SearchHit)
    (seen_urls : gset string) (domain_counts : gmap string Z)
    (out : list SearchHit) : list SearchHit :=
  match items with
  | [] => out
  | it :: rest =>
      let u := url it in
      if negb (truthy u) || bool_decide (u ∈ seen_urls) then
        diversify_loop per_domain_limit rest seen_urls domain_counts out
      else
        let d := _domain u in
        if negb (truthy d) then
          diversify_loop per_domain_limit rest seen_urls domain_counts out
        else if per_domain_limit <=? default 0 (domain_counts !! d) then
          diversify_loop per_domain_limit rest seen_urls domain_counts out
        else
          diversify_loop per_domain_limit rest ({[u]} ∪ seen_urls)
            (<[d := default 0 (domain_counts !! d) + 1]> domain_counts)
            (out ++ [it])
  end.

Definition _dedupe_and_diversify (items : list SearchHit)
    (per_domain_limit : Z) : list SearchHit :=
  diversify_loop per_domain_limit items ∅ ∅ [].

(** The loop over [organic] that builds [results]. *)
Fixpoint collect_results (organic : list OrganicItem) : list SearchHit :=
  match organic with
  | [] => []
  | item :: rest =>
      let u := _normalize_url (strip (link item)) in
      let ttl := strip (item_title item) in
      let snip := strip (item_snippet item) in
      if truthy u && truthy ttl then
        {| title := ttl; url := u; snippet := snip |} :: collect_results rest
      else collect_results rest
  end.

(** [for attempt in range(MAX_RETRIES + 1)], with [remaining] iterations
    left. *)
Fixpoint search_loop (query : string) (k : Z) (remaining attempt : nat)
    : list SearchHit :=
  match remaining with
  | O => []
  | S remaining' =>
      match serp_get query k attempt with
      | SerpOk organic =>
          let results := collect_results organic in
          let results := _dedupe_and_diversify results 2 in
          take (Z.to_nat k) results
      | SerpStatus code =>
          if existsb (Z.eqb code) [429; 500; 502; 503; 504] then
            search_loop query k remaining' (S attempt)
          else []
      | SerpRequestException =>
          search_loop query k remaining' (S attempt)
      end
  end.

Definition search_web (query : string) (k : Z) : list SearchHit :=
  if negb (truthy (SERPAPI_API_KEY SETTINGS)) then []
  else
    let k := Z.max 1 (Z.min k (MAX_SEARCH_RESULTS SETTINGS)) in
    search_loop query k (Z.to_nat (MAX_RETRIES SETTINGS + 1)) 0.

End Model.
End SearchWeb.

(** ** [tools/embed_chunks.py] *)

Module EmbedChunks.
Import SplitChunks.

Record EmbeddingRecord : Type := {
  emb_chunk_id : string;
  embedding : vector
}.

Definition _BATCH_SIZE : Z := 64.

(** [range(0, stop, step)] for a positive step: [0, step, 2*step, ...]. *)
Definition range_step (stop step : nat) : list nat :=
  (λ j, j * step)%nat <$> seq 0 ((stop + step - 1) / step)%nat.

(** The generator [_batched(seq, n)], run to the end: the pairs
    [(i, seq[i:i+n])]. [range] raises on a zero step and is empty on a
    negative one. *)
Definition _batched {A : Type} (l : list A) (n : Z)
    : outcome (list (nat * list A)) :=
  if n =? 0 then Raise (ValueError "range() arg 3 must not be zero")
  else if n <? 0 then Return []
  else
    Return ((λ i, (i, take (Z.to_nat n) (drop i l)))
              <$> range_step (length l) (Z.to_nat n)).

(** [{c["chunk_id"]: i for i, c in enumerate(chunks)}]: a later chunk with
    the same id overwrites the position of an earlier one. *)
Fixpoint order_map_from (i : Z) (chunks : list Chunk) (m : gmap string Z)
    : gmap string Z :=
  match chunks with
  | [] => m
  | c :: rest => order_map_from (i + 1) rest (<[chunk_id c := i]> m)
  end.

Definition order_map (chunks : list Chunk) : gmap string Z :=
  order_map_from 0 chunks ∅.

(** [outputs.sort(key=lambda r: order_map.get(r["chunk_id"], 1_000_000))] *)
Definition sort_outputs (chunks : list Chunk) (outputs : list EmbeddingRecord)
    : list EmbeddingRecord :=
  let om := order_map chunks in
  sort_by (λ r, default 1000000 (om !! emb_chunk_id r)) Z.ltb outputs.

(** [for cid, vec in zip(ids, vecs): outputs.append(...)] *)
Definition records_of (ids : list string) (vecs : list vector)
    : list EmbeddingRecord :=
  (λ p, {| emb_chunk_id := p.1; embedding := p.2 |}) <$> zip ids vecs.

Section Model.
Context `{Config} `{EmbeddingBackend}.

(** [items]: the (id, trimmed text) pairs with a non-empty text. *)
Definition items_of (chunks : list Chunk) : list (string * string) :=
  filter (λ it, truthy it.2 = true)
    ((λ c, (chunk_id c, strip (text c))) <$> chunks).

(** The retry loop of one batch on the OpenAI path. Returns the records of
    the batch (none when the batch is given up), or the exception that is
    not caught. *)
Fixpoint embed_batch_loop (model : string) (start_idx : nat)
    (ids texts : list string) (max_attempts : Z) (fuel : nat)
    (attempt backoff : Z) (log : list event)
    : outcome (list EmbeddingRecord) * list event :=
  if attempt <? max_attempts then
    match fuel with
    | O => (OutOfFuel, log)
    | S fuel' =>
        let attempt := attempt + 1 in
        let log := log ++ [EvEmbed texts] in
        match openai_embed model texts start_idx (Z.to_nat attempt) with
        | Return vecs => (Return (records_of ids vecs), log)
        | Raise RateLimitError | Raise APITimeoutError =>
            if attempt <? max_attempts then
              embed_batch_loop model start_idx ids texts max_attempts fuel'
                attempt (backoff * 2) (log ++ [EvSleep backoff])
            else (Return [], log)
        | Raise APIError => (Return [], log)
        | Raise e => (Raise e, log)
        | OutOfFuel => (OutOfFuel, log)
        end
    end
  else (Return [], log).

(** The loop over the batches on the OpenAI path. *)
Fixpoint openai_batches (model : string) (max_attempts : Z)
    (batches : list (nat * list (string * string)))
    (outputs : list EmbeddingRecord) (log : list event)
    : outcome (list EmbeddingRecord) * list event :=
  match batches with
  | [] => (Return outputs, log)
  | (start_idx, batch) :: rest =>
      let ids := fst <$> batch in
      let texts := snd <$> batch in
      match embed_batch_loop model start_idx ids texts max_attempts
              (Z.to_nat max_attempts) 0 1 log with
      | (Return recs, log') =>
          openai_batches model max_attempts rest (outputs ++ recs) log'
      | (Raise e, log') => (Raise e, log')
      | (OutOfFuel, log') => (OutOfFuel, log')
      end
  end.

(** The loop over the batches on the sentence-transformers path. *)
Fixpoint st_batches (model : string)
    (batches : list (nat * list (string * string)))
    (outputs : list EmbeddingRecord) (log : list event)
    : outcome (list EmbeddingRecord) * list event :=
  match batches with
  | [] => (Return outputs, log)
  | (_, batch) :: rest =>
      let ids := fst <$> batch in
      let texts := snd <$> batch in
      match st_encode model texts with
      | Return vecs =>
          st_batches model rest (outputs ++ records_of ids vecs)
            (log ++ [EvEmbed texts])
      | Raise e => (Raise e, log ++ [EvEmbed texts])
      | OutOfFuel => (OutOfFuel, log ++ [EvEmbed texts])
      end
  end.

Definition embed_chunks (chunks : list Chunk) (model : option string)
    (batch_size : Z) : outcome (list EmbeddingRecord) * list event :=
  match chunks with
  | [] => (Return [], [])
  | _ =>
      let model := match opt_truthy model with
                   | Some m => m
                   | None => EMBEDDING_MODEL SETTINGS
                   end in
      let items := items_of chunks in
      match items with
      | [] => (Return [], [])
      | _ =>
          let run loop :=
            match _batched items batch_size with
            | Return batches =>
                match loop batches with
                | (Return outputs, log) =>
                    (Return (sort_outputs chunks outputs), log)
                | other => other
                end
            | Raise e => (Raise e, [])
            | OutOfFuel => (OutOfFuel, [])
            end in
          if String.eqb (lower (EMBEDDINGS_PROVIDER SETTINGS))
               "sentencetransformers"
          then run (λ batches, st_batches model batches [] [])
          else
            let max_attempts := MAX_RETRIES SETTINGS + 1 in
            run (λ batches, openai_batches model max_attempts batches [] [])
      end
  end.

End Model.
End EmbedChunks.

(** ** [tools/upsert_vectors.py] *)

Module UpsertVectors.

(** A record as [upsert_vectors] reads it. *)
Record InputRecord : Type := {
  (** [str(r.get("id", ""))] *)
  in_id : string;
  (** [r.get("embedding")], [None] unless it is a [list] *)
  in_embedding : option vector;
  (** [r.get("document") or ""] *)
  in_document : string;
  (** [r.get("metadata") or {}] *)
  in_metadata : gmap string string
}.

(** [client.get_or_create_collection(name, metadata)] *)
Definition get_or_create_collection (store : Store) (name : string)
    (metadata : gmap string string) : Store :=
  match store !! name with
  | Some _ => store
  | None => <[name := {| col_metadata := metadata; col_items := ∅ |}]> store
  end.

(** Insert-or-overwrite by identifier, record after record. *)
Fixpoint upsert_items (ids : list string) (embeddings : list vector)
    (documents : list string) (metas : list (gmap string string))
    (items : gmap string IndexedRecord) : gmap string IndexedRecord :=
  match ids, embeddings, documents, metas with
  | i :: ids', e :: embeddings', d :: documents', m :: metas' =>
      upsert_items ids' embeddings' documents' metas'
        (<[i := {| rec_embedding := e; rec_document := d;
                   rec_metadata := m |}]> items)
  | _, _, _, _ => items
  end.

(** [collection.upsert(ids, embeddings, documents, metadatas)] on the
    collection called [name]. *)
Definition collection_upsert (store : Store) (name : string)
    (ids : list string) (embeddings : list vector) (documents : list string)
    (metas : list (gmap string string)) : Store :=
  match store !! name with
  | Some c =>
      <[name := {| col_metadata := col_metadata c;
                   col_items := upsert_items ids embeddings documents metas
                                  (col_items c) |}]> store
  | None => store
  end.

(** The four lists the validation loop fills. *)
Record Columns : Type := {
  ids : list string;
  embeddings : list vector;
  metadatas : list (gmap string string);
  documents : list string
}.

Fixpoint validate (records : list InputRecord) (acc : Columns) : Columns :=
  match records with
  | [] => acc
  | r :: rest =>
      let rid := strip (in_id r) in
      let doc := strip (in_document r) in
      let meta := in_metadata r in
      match in_embedding r with
      | Some vec =>
          if negb (truthy rid) || negb (truthy doc) then validate rest acc
          else
            validate rest
              {| ids := ids acc ++ [rid];
                 embeddings := embeddings acc ++ [vec];
                 metadatas := metadatas acc ++ [meta];
                 documents := documents acc ++ [doc] |}
      | None => validate rest acc
      end
  end.

Section Model.
Context `{Config}.

Definition _collection_name (namespace : string) : string :=
  strip (CHROMA_COLLECTION_PREFIX SETTINGS +:+ namespace).

(** Returns [count_upserted] (or the exception) and the store afterwards. *)
Definition upsert_vectors (store : Store) (namespace : string)
    (records : list InputRecord) : outcome Z * Store :=
  if negb (truthy namespace) then
    (Raise (ValueError "namespace is required"), store)
  else
    match records with
    | [] => (Return 0, store)
    | _ =>
        let col_name := _collection_name namespace in
        let store :=
          get_or_create_collection store col_name
            {["hnsw:space" := "cosine"]} in
        let cols := validate records
                      {| ids := []; embeddings := []; metadatas := [];
                         documents := [] |} in
        match ids cols with
        | [] => (Return 0, store)
        | _ =>
            (Return (Z.of_nat (length (ids cols))),
             collection_upsert store col_name (ids cols) (embeddings cols)
               (documents cols) (metadatas cols))
        end
    end.

End Model.
End UpsertVectors.

(** * Part I, continued: slugs, text clean-up, ingestion, the agent *)

(** ** [utils/common.py] *)

(** [unicodedata.normalize("NFKD", s).encode("ascii", "ignore").decode("ascii")]:
    the compatibility decomposition of the text with everything outside
    ASCII dropped; and the clock. *)
Class Unicode : Type := {
  nfkd_ascii : string → string
}.

Class Clock : Type := {
  (** [datetime.now(timezone.utc).replace(microsecond=0).isoformat()] *)
  utc_now_iso : string
}.

Module Common.

(** The class [[a-zA-Z0-9]] of the regular expression. *)
Definition is_alnum (c : ascii) : bool :=
  let n := nat_of_ascii c in
  ((48 <=? n) && (n <=? 57) || (65 <=? n) && (n <=? 90)
   || (97 <=? n) && (n <=? 122))%nat.

(** [re.sub(r"[^a-zA-Z0-9]+", "-", s)]: every maximal run of characters
    outside the class becomes one dash. A character outside the class is
    dropped unless it is the last of its run. *)
Fixpoint sub_non_alnum (s : string) : string :=
  match s with
  | EmptyString => EmptyString
  | String c r =>
      if is_alnum c then String c (sub_non_alnum r)
      else
        match r with
        | EmptyString => String "-" EmptyString
        | String c' _ =>
            if is_alnum c' then String "-" (sub_non_alnum r)
            else sub_non_alnum r
        end
  end.

Definition is_dash (c : ascii) : bool := Ascii.eqb c "-".

Fixpoint lstrip_dash (s : string) : string :=
  match s with
  | String c r => if is_dash c then lstrip_dash r else s
  | EmptyString => EmptyString
  end.

Fixpoint rstrip_dash (s : string) : string :=
  match s with
  | EmptyString => EmptyString
  | String c r =>
      match rstrip_dash r with
      | EmptyString => if is_dash c then EmptyString else String c EmptyString
      | r' => String c r'
      end
  end.

(** [s.strip("-")] *)
Definition strip_dash (s : string) : string := rstrip_dash (lstrip_dash s).

(** [s[:n]] for an integer [n]: a negative [n] counts from the end. *)
Definition slice_to (n : Z) (s : string) : string :=
  if 0 <=? n then take_str (Z.to_nat n) s
  else take_str (Z.to_nat (Z.of_nat (String.length s) + n)) s.

Section Model.
Context `{Unicode} `{Clock}.

Definition slugify (text : string) (maxlen : Z) : string :=
  let text := nfkd_ascii text in
  let text := lower (strip_dash (sub_non_alnum text)) in
  let text := slice_to maxlen text in
  if truthy text then text else "topic".

Definition now_iso : string := utc_now_iso.

End Model.
End Common.

(** ** [tools/extract_readable_text.py]: the white-space normalizer *)

Module ExtractText.

(** The class [[ \t]] of the regular expressions. *)
Definition is_blank (c : ascii) : bool :=
  Ascii.eqb c " " || Ascii.eqb c "009".

Definition is_nl (c : ascii) : bool := Ascii.eqb c "010".

(** Does [[ \t]*\n] match at the start of [s]? *)
Fixpoint blanks_then_nl (s : string) : bool :=
  match s with
  | EmptyString => false
  | String c r =>
      if is_nl c then true
      else if is_blank c then blanks_then_nl r else false
  end.

(** [re.sub(r"[ \t]+\n", "\n", s)]: a blank goes when only blanks stand
    between it and the next line break. *)
Fixpoint drop_blanks_before_nl (s : string) : string :=
  match s with
  | EmptyString => EmptyString
  | String c r =>
      if is_blank c && blanks_then_nl r then drop_blanks_before_nl r
      else String c (drop_blanks_before_nl r)
  end.

(** [re.sub(r"\n{3,}", "\n\n", s)]: a line break goes when at least two
    more follow it directly. *)
Fixpoint squeeze_nl (s : string) : string :=
  match s with
  | EmptyString => EmptyString
  | String c r =>
      match r with
      | String c1 (String c2 _) =>
          if is_nl c && is_nl c1 && is_nl c2 then squeeze_nl r
          else String c (squeeze_nl r)
      | _ => String c (squeeze_nl r)
      end
  end.

(** [re.sub(r"[ \t]{2,}", " ", s)]: a run of two or more blanks becomes one
    space; a blank on its own stays what it is. [in_run] says that the
    characters before belong to a run that has been replaced. *)
Fixpoint squeeze_blanks_from (in_run : bool) (s : string) : string :=
  match s with
  | EmptyString => EmptyString
  | String c r =>
      if is_blank c then
        if in_run then squeeze_blanks_from true r
        else
          match r with
          | EmptyString => String c EmptyString
          | String c' _ =>
              if is_blank c' then String " " (squeeze_blanks_from true r)
              else String c (squeeze_blanks_from false r)
          end
      else String c (squeeze_blanks_from false r)
  end.

Definition squeeze_blanks (s : string) : string :=
  squeeze_blanks_from false s.

Definition _collapse_ws (s : string) : string :=
  let s := replace_char "160"%char " "%char s in
  let s := drop_blanks_before_nl s in
  let s := squeeze_nl s in
  let s := squeeze_blanks s in
  strip s.

End ExtractText.

(** ** Further fields of [_Settings] and its validation
    ([config/settings.py]) *)

(** The fields the pipelines and the validation read beside those of
    [Settings]. *)
Class MoreSettings : Type := {
  SEARCH_PROVIDER : string;
  MAX_PAGES_TO_SCRAPE : Z;
  CHROMA_PERSIST_DIR : string;
  MAX_TOTAL_CHUNKS : Z
}.

(** [os.makedirs(path, exist_ok=True)]: [true] when the directory exists
    afterwards, [false] when the call raises [OSError]. *)
Class FileSystem : Type := {
  makedirs : string → bool
}.

Module SettingsInit.

(** How the construction of [SETTINGS] ends. *)
Inductive init_result : Type :=
| InitOk
| InitRuntimeError (msg : string)
| InitAttributeError (attribute : string)
| InitOSError.

Section Model.
Context `{Config} `{MoreSettings} `{FileSystem}.

(** [_Settings.__post_init__]. The class has no field [GOOGLE_API_KEY], so
    reading it raises [AttributeError]. *)
Definition __post_init__ : init_result :=
  let llm :=
    if String.eqb (LLM_PROVIDER SETTINGS) "gemini" then
      InitAttributeError "GOOGLE_API_KEY"
    else if String.eqb (LLM_PROVIDER SETTINGS) "openai" then
      if negb (truthy (OPENAI_API_KEY SETTINGS)) then
        InitRuntimeError
          "LLM_PROVIDER=openai but OPENAI_API_KEY is missing in .env"
      else InitOk
    else if String.eqb (LLM_PROVIDER SETTINGS) "ollama" then InitOk
    else if String.eqb (LLM_PROVIDER SETTINGS) "groq" then
      if negb (truthy (GROQ_API_KEY SETTINGS)) then
        InitRuntimeError
          "LLM_PROVIDER=groq but GROQ_API_KEY is missing in .env"
      else InitOk
    else
      InitRuntimeError
        "LLM_PROVIDER must be 'gemini', 'openai', 'ollama', or 'groq'" in
  match llm with
  | InitOk =>
      if String.eqb SEARCH_PROVIDER "serpapi"
         && negb (truthy (SERPAPI_API_KEY SETTINGS)) then
        InitRuntimeError
          "SEARCH_PROVIDER=serpapi but SERPAPI_API_KEY is missing in .env"
      else if makedirs CHROMA_PERSIST_DIR then InitOk
      else InitOSError
  | failure => failure
  end.

End Model.
End SettingsInit.

(** ** [tools/extract_readable_text.py]: the entry point *)

(** What the extractor computes from a non-empty HTML text with
    BeautifulSoup: the title ([title or ""]) and the main text
    ([main_text or ""]). *)
Class HtmlParser : Type := {
  soup_title : string → string;
  soup_main_text : string → string
}.

Module Extract.

Record Doc : Type := {
  url : string;
  title : string;
  text : string
}.

Section Model.
Context `{HtmlParser}.

Definition extract_readable_text (html url : string) : Doc :=
  if negb (truthy html) then {| url := url; title := ""; text := "" |}
  else {| url := url; title := soup_title html;
          text := soup_main_text html |}.

End Model.
End Extract.

(** ** [pipelines/ingest.py] *)

Module Ingest.
Import Extract.

Definition _MIN_TEXT_LEN : Z := 1200.

Definition _quality_filter (doc : Doc) : bool :=
  _MIN_TEXT_LEN <=? Z.of_nat (String.length (text doc)).

Record Source : Type := {
  src_title : string;
  src_url : string;
  text_len : Z
}.

Record Summary : Type := {
  namespace : string;
  indexed_pages : Z;
  indexed_chunks : Z;
  skipped_pages : Z;
  sources : list Source
}.

(** [l[:n]] for an integer [n]: a negative [n] counts from the end. *)
Definition slice_to {A : Type} (n : Z) (l : list A) : list A :=
  if 0 <=? n then take (Z.to_nat n) l
  else take (Z.to_nat (Z.of_nat (length l) + n)) l.

(** [{v["chunk_id"]: v["embedding"] for v in vecs}] *)
Definition by_id_of (vecs : list EmbedChunks.EmbeddingRecord)
    : gmap string vector :=
  foldl (λ m v, <[EmbedChunks.emb_chunk_id v := EmbedChunks.embedding v]> m)
    ∅ vecs.

(** The records of step 5. The position of a chunk, an integer in the
    metadata, is stored as its decimal numeral. *)
Definition records_of (chunks : list SplitChunks.Chunk)
    (by_id : gmap string vector) (ts : string)
    : list UpsertVectors.InputRecord :=
  omap (λ ch,
          match by_id !! SplitChunks.chunk_id ch with
          | Some emb =>
              Some {| UpsertVectors.in_id := SplitChunks.chunk_id ch;
                      UpsertVectors.in_embedding := Some emb;
                      UpsertVectors.in_document := SplitChunks.text ch;
                      UpsertVectors.in_metadata :=
                        {[ "url" := SplitChunks.url ch;
                           "title" := SplitChunks.title ch;
                           "order" := pretty (SplitChunks.order ch);
                           "added_at" := ts ]} |}
          | None => None
          end) chunks.

Definition source_of (d : Doc) : Source :=
  {| src_title := title d; src_url := url d;
     text_len := Z.of_nat (String.length (text d)) |}.

Section Model.
Context `{UrlLib} `{Config} `{MoreSettings} `{SerpApi} `{Requests}
  `{HtmlParser} `{TextSplitter} `{Hashlib} `{EmbeddingBackend} `{Unicode}
  `{Clock}.

(** Step 2: the loop over the hits, with the documents and the number of
    skipped pages so far. *)
Fixpoint fetch_docs (hits : list SearchWeb.SearchHit) (docs : list Doc)
    (skipped : Z) (log : list event)
    : outcome (list Doc * Z) * list event :=
  match hits with
  | [] => (Return (docs, skipped), log)
  | item :: rest =>
      match FetchPage.fetch_page (SearchWeb.url item) None with
      | (Return r, lg) =>
          if negb (FetchPage.status r =? 200)
             || negb (truthy (FetchPage.html r)) then
            fetch_docs rest docs (skipped + 1) (log ++ lg)
          else
            let doc :=
              extract_readable_text (FetchPage.html r) (FetchPage.url r) in
            if negb (_quality_filter doc) then
              fetch_docs rest docs (skipped + 1) (log ++ lg)
            else fetch_docs rest (docs ++ [doc]) skipped (log ++ lg)
      | (Raise e, lg) => (Raise e, log ++ lg)
      | (OutOfFuel, lg) => (OutOfFuel, log ++ lg)
      end
  end.

(** Step 3: the loop over the documents. *)
Fixpoint chunk_docs (docs : list Doc) (chunks : list SplitChunks.Chunk)
    : outcome (list SplitChunks.Chunk) :=
  match docs with
  | [] => Return chunks
  | d :: rest =>
      match SplitChunks.split_chunks (text d) (url d) (title d) None None with
      | Return cs => chunk_docs rest (chunks ++ cs)
      | Raise e => Raise e
      | OutOfFuel => OutOfFuel
      end
  end.

(** Returns the summary (or the exception), the store afterwards and the
    requests made. *)
Definition ingest_topic (store : Store) (query : string)
    (namespace : option string) : outcome Summary * Store * list event :=
  let ns := match opt_truthy namespace with
            | Some n => n
            | None => Common.slugify query 60
            end in
  let want := MAX_PAGES_TO_SCRAPE in
  let raw := SearchWeb.search_web query (want * 2) in
  match raw with
  | [] =>
      (Return {| namespace := ns; indexed_pages := 0; indexed_chunks := 0;
                 skipped_pages := 0; sources := [] |}, store, [])
  | _ =>
      let hits := slice_to want raw in
      match fetch_docs hits [] 0 [] with
      | (Return (docs, skipped), log) =>
          match docs with
          | [] =>
              (Return {| namespace := ns; indexed_pages := 0;
                         indexed_chunks := 0; skipped_pages := skipped;
                         sources := [] |}, store, log)
          | _ =>
              match chunk_docs docs [] with
              | Return chunks =>
                  match chunks with
                  | [] =>
                      (Return {| namespace := ns;
                                 indexed_pages := Z.of_nat (length docs);
                                 indexed_chunks := 0;
                                 skipped_pages := skipped;
                                 sources := [] |}, store, log)
                  | _ =>
                      let chunks :=
                        if MAX_TOTAL_CHUNKS <? Z.of_nat (length chunks)
                        then slice_to MAX_TOTAL_CHUNKS chunks else chunks in
                      match EmbedChunks.embed_chunks chunks
                              (Some (EMBEDDING_MODEL SETTINGS)) 64 with
                      | (Return vecs, elog) =>
                          let by_id := by_id_of vecs in
                          let ts := Common.now_iso in
                          let records := records_of chunks by_id ts in
                          match UpsertVectors.upsert_vectors store ns
                                  records with
                          | (Return count, store') =>
                              (Return
                                 {| namespace := ns;
                                    indexed_pages := Z.of_nat (length docs);
                                    indexed_chunks := count;
                                    skipped_pages := skipped;
                                    sources := source_of <$> docs |},
                               store', log ++ elog)
                          | (Raise e, store') =>
                              (Raise e, store', log ++ elog)
                          | (OutOfFuel, store') =>
                              (OutOfFuel, store', log ++ elog)
                          end
                      | (Raise e, elog) => (Raise e, store, log ++ elog)
                      | (OutOfFuel, elog) => (OutOfFuel, store, log ++ elog)
                      end
                  end
              | Raise e => (Raise e, store, log)
              | OutOfFuel => (OutOfFuel, store, log)
              end
          end
      | (Raise e, log) => (Raise e, store, log)
      | (OutOfFuel, log) => (OutOfFuel, store, log)
      end
  end.

End Model.
End Ingest.

(** ** [agent/agent_react.py] *)

Module Agent.
Import Ingest.

Record ResearchResult : Type := {
  res_namespace : string;
  did_ingest : bool;
  ingest_summary : option Summary;
  trace : list string
}.

Section Model.
Context `{UrlLib} `{Config} `{MoreSettings} `{SerpApi} `{Requests}
  `{HtmlParser} `{TextSplitter} `{Hashlib} `{EmbeddingBackend} `{Unicode}
  `{Clock}.

(** [client.get_collection(name)] raises when there is no collection of
    that name. The name is not trimmed here. *)
Definition _namespace_exists (store : Store) (ns : string) : bool :=
  bool_decide (is_Some (store !! (CHROMA_COLLECTION_PREFIX SETTINGS +:+ ns))).

(** [ResearchAgent.research] *)
Definition research (store : Store) (topic : string)
    (namespace : option string) (force : bool)
    : outcome ResearchResult * Store * list event :=
  let ns := match opt_truthy namespace with
            | Some n => n
            | None => Common.slugify topic 60
            end in
  let trace :=
    ["Thought: Need to decide whether to ingest new knowledge for topic '"
     +:+ topic +:+ "'."] in
  let need_ingest := force || negb (_namespace_exists store ns) in
  if need_ingest then
    let trace :=
      trace ++ ["Action: ingest_topic(query='" +:+ topic
                +:+ "', namespace='" +:+ ns +:+ "')"] in
    match ingest_topic store topic (Some ns) with
    | (Return obs, store', log) =>
        let trace :=
          trace ++ ["Observation: indexed_pages="
                    +:+ pretty (indexed_pages obs)
                    +:+ ", indexed_chunks=" +:+ pretty (indexed_chunks obs)
                    +:+ ", skipped_pages=" +:+ pretty (skipped_pages obs)] in
        (Return {| res_namespace := ns; did_ingest := true;
                   ingest_summary := Some obs; trace := trace |},
         store', log)
    | (Raise e, store', log) => (Raise e, store', log)
    | (OutOfFuel, store', log) => (OutOfFuel, store', log)
    end
  else
    let trace :=
      trace ++ ["Observation: Namespace '" +:+ ns
                +:+ "' already exists. Skipping ingest."] in
    (Return {| res_namespace := ns; did_ingest := false;
               ingest_summary := None; trace := trace |}, store, []).

End Model.
End Agent.

(** * Part II: the vocabulary of the properties *)

(** ** Order on binary64 numbers *)

Module FloatOrder.



End FloatOrder.

Module FetchPageSpec.
Import FetchPage.

(** The page that stands for "nothing fetched". *)
Definition empty_page (u : string) : FetchedPage :=
  {| url := u; html := ""; status := 0 |}.

End FetchPageSpec.

Module SplitChunksSpec.
Import SplitChunks.

Section Spec.
Context `{Hashlib}.

(** The identifier as a function of the URL, the position and the first 40
    characters of the trimmed text: line breaks in the prefix become spaces,
    then [url|order|prefix] is hashed. *)
Definition chunk_hash (u : string) (order : nat) (first40 : string) : string :=
  _hash_id (id_source u order (replace_char "010"%char " "%char first40)).

End Spec.
End SplitChunksSpec.

Module SynthesizeSpec.
Import Synthesize.

(** "Deduplicated by key, order of first appearance preserved": the first
    element stays, and everything behind it with the same key goes. *)
Fixpoint dedupe_first {A : Type} (key : A → string) (l : list A) : list A :=
  match l with
  | [] => []
  | x :: r => x :: filter (λ y, key y ≠ key x) (dedupe_first key r)
  end.

(** The [{url, title}] pair of a context as the specification reads it. *)
Definition pair_of (c : RetrievedContext) : Citation :=
  {| cite_url := url c; cite_title := title c |}.

(** The pair with both fields trimmed, as the code reads it. *)
Definition trimmed_pair_of (c : RetrievedContext) : Citation :=
  {| cite_url := strip (url c); cite_title := strip (title c) |}.

(** The contexts that can be cited: those with a non-blank URL. *)
Definition citable (ctxs : list RetrievedContext) : list Citation :=
  filter (λ p, cite_url p ≠ "") (trimmed_pair_of <$> ctxs).

End SynthesizeSpec.

Module RetrieveSpec.
Import Synthesize.


End RetrieveSpec.

Module UpsertVectorsSpec.
Import UpsertVectors.

(** A record the validation skips: no list-typed vector, a blank
    identifier or a blank document. *)
Definition malformed (r : InputRecord) : Prop :=
  in_embedding r = None ∨ strip (in_id r) = "" ∨ strip (in_document r) = "".

End UpsertVectorsSpec.

Module SearchWebSpec.
Import SearchWeb.

Section Spec.
Context `{UrlLib}.

(** Number of entries of [l] on the domain [d]. *)
Definition domain_count (d : string) (l : list SearchHit) : nat :=
  length (filter (λ it, _domain (url it) = d) l).

(** What the three accumulators of the loop satisfy at every iteration. *)
Record diversify_inv (limit : Z) (seen_urls : gset string)
    (domain_counts : gmap string Z) (out : list SearchHit) : Prop := {
  inv_seen : ∀ u, u ∈ seen_urls ↔ u ∈ url <$> out;
  inv_nodup : NoDup (url <$> out);
  inv_counts : ∀ d, default 0 (domain_counts !! d)
                    = Z.of_nat (domain_count d out);
  inv_cap : ∀ d, Z.of_nat (domain_count d out) ≤ Z.max 0 limit
}.

End Spec.
End SearchWebSpec.

Module EmbedChunksSpec.
Import SplitChunks EmbedChunks.

(** The sort key of a record against the index built from [chunks], with
    positions counted from [i] and [m] the index so far. *)
Definition position_key (i : Z) (chunks : list Chunk) (m : gmap string Z)
    (r : EmbeddingRecord) : Z :=
  default 1000000 (order_map_from i chunks m !! emb_chunk_id r).

Section Spec.
Context `{EmbeddingBackend}.

(** The embedding call fails with the errors of the OpenAI client only. *)
Definition api_failures_only : Prop :=
  ∀ model texts start attempt,
    match openai_embed model texts start attempt with
    | Return _ | Raise RateLimitError | Raise APITimeoutError
    | Raise APIError => True
    | _ => False
    end.

(** A failure that is retried. *)
Definition transient (r : outcome (list vector)) : Prop :=
  r = Raise RateLimitError ∨ r = Raise APITimeoutError.

(** The request of a batch is answered at attempt [a], after transient
    failures only. *)
Definition succeeds_at (model : string) (start : nat) (texts : list string)
    (first a : Z) (vecs : list vector) : Prop :=
  openai_embed model texts start (Z.to_nat a) = Return vecs
  ∧ ∀ a', first < a' < a →
          transient (openai_embed model texts start (Z.to_nat a')).

(** What a batch contributes: nothing, or the records of an answer; and
    the records of the answer whenever the batch succeeds within the
    allowed attempts. *)
Definition batch_contribution (model : string) (max_attempts : Z)
    (b : nat * list (string * string)) (recs : list EmbeddingRecord) : Prop :=
  (recs = [] ∨ ∃ vecs, recs = records_of (fst <$> b.2) vecs)
  ∧ ∀ a vecs,
      0 < a ≤ max_attempts →
      succeeds_at model b.1 (snd <$> b.2) 0 a vecs →
      recs = records_of (fst <$> b.2) vecs.

End Spec.
End EmbedChunksSpec.

(** * Part II, continued: vocabulary of further properties *)

Module FetchPageLogSpec.

(** The effects of [k] requests with exponential backoff: a request, then,
    before each further request, a sleep twice as long as the one before. *)
Fixpoint backoff_log (u : string) (timeout : Z) (k : nat) (backoff : Z)
    : list event :=
  match k with
  | O => []
  | S k' =>
      EvHttpGet u timeout
      :: match k' with
         | O => []
         | S _ => EvSleep backoff :: backoff_log u timeout k' (backoff * 2)
         end
  end.

End FetchPageLogSpec.

Module SplitChunksMoreSpec.
Import SplitChunks.

Section Spec.
Context `{Hashlib}.

(** The string that is hashed for a chunk: [url|order|prefix]. *)
Definition hashed_source (c : Chunk) : string :=
  id_source (url c) (order c)
    (replace_char "010"%char " "%char (take_str 40 (text c))).

(** The hash does not collide on the strings hashed for these chunks. *)
Definition collision_free (chunks : list Chunk) : Prop :=
  ∀ c1 c2, c1 ∈ chunks → c2 ∈ chunks →
           _hash_id (hashed_source c1) = _hash_id (hashed_source c2) →
           hashed_source c1 = hashed_source c2.

End Spec.

(** Every character is a decimal digit. *)
Fixpoint all_digits (s : string) : bool :=
  match s with
  | EmptyString => true
  | String c r =>
      let n := nat_of_ascii c in
      ((48 <=? n) && (n <=? 57))%nat && all_digits r
  end.

End SplitChunksMoreSpec.

Module SynthesizeMoreSpec.
Import Synthesize.

(** The user message of the chat request, around the context block. *)
Definition user_prompt_of (question block style : string) : string :=
  "Question: " +:+ question +:+ nl +:+ nl
  +:+ "Context blocks (use these as your only sources; cite their URLs):"
  +:+ nl +:+ block +:+ nl +:+ nl +:+ "Style: " +:+ style.

(** The two shapes a logged chat request takes: the chat request proper,
    and the single-prompt request Ollama gets after a 404. *)
Definition chat_request_of (question block style : string) (ev : event)
    : Prop :=
  (∃ provider, ev = EvChat provider sys_prompt
                      (user_prompt_of question block style))
  ∨ ev = EvChat "ollama" ""
           (sys_prompt +:+ nl +:+ nl +:+ user_prompt_of question block style).

End SynthesizeMoreSpec.

Module SearchWebMoreSpec.
Import SearchWeb.

Section Spec.
Context `{UrlLib}.

(** A hit the diversifier can keep: it has a URL, and the URL has a
    domain. *)
Definition usable (it : SearchHit) : Prop :=
  url it ≠ "" ∧ _domain (url it) ≠ "".

(** The hit the collector makes of an organic result. *)
Definition hit_of (item : OrganicItem) : SearchHit :=
  {| title := strip (item_title item);
     url := _normalize_url (strip (link item));
     snippet := strip (item_snippet item) |}.

End Spec.
End SearchWebMoreSpec.

Module EmbedChunksMoreSpec.
Import SplitChunks EmbedChunks.

(** The embedding requests of a log, in order: the texts of each. *)
Fixpoint embed_requests (log : list event) : list (list string) :=
  match log with
  | [] => []
  | EvEmbed texts :: rest => texts :: embed_requests rest
  | _ :: rest => embed_requests rest
  end.

(** A request is well formed for the chunks and the batch size: it has at
    least one text and at most [batch_size], and each text is the trimmed,
    non-blank text of a chunk. *)
Definition request_ok (chunks : list Chunk) (batch_size : Z)
    (texts : list string) : Prop :=
  texts ≠ []
  ∧ Z.of_nat (length texts) ≤ batch_size
  ∧ Forall (λ t, t ≠ "" ∧ ∃ c, c ∈ chunks ∧ t = strip (text c)) texts.

(** The record of a chunk under an encoder that works text by text. *)
Definition record_of (f : string → vector) (it : string * string)
    : EmbeddingRecord :=
  {| emb_chunk_id := it.1; embedding := f it.2 |}.

(** The effects of the embedder: requests and sleeps. *)
Definition embed_event (ev : event) : Prop :=
  (∃ texts, ev = EvEmbed texts) ∨ ∃ s, ev = EvSleep s.

End EmbedChunksMoreSpec.

Module UpsertVectorsMoreSpec.
Import UpsertVectors.

(** A record the validation lets through: a list-typed vector, and an
    identifier and a document that are not blank. *)
Definition accepted (r : InputRecord) : bool :=
  match in_embedding r with
  | Some _ => truthy (strip (in_id r)) && truthy (strip (in_document r))
  | None => false
  end.

(** What is stored for an accepted record. *)
Definition stored_of (r : InputRecord) : IndexedRecord :=
  {| rec_embedding := default [] (in_embedding r);
     rec_document := strip (in_document r);
     rec_metadata := in_metadata r |}.



(** The (identifier, stored record) pairs of the accepted records. *)
Definition rows_of (records : list InputRecord)
    : list (string * IndexedRecord) :=
  (λ r, (strip (in_id r), stored_of r))
    <$> filter (λ r, accepted r = true) records.

(** Writing rows one after the other, a later row over an earlier one. *)
Definition write_rows (rows : list (string * IndexedRecord))
    (items : gmap string IndexedRecord) : gmap string IndexedRecord :=
  foldl (λ m p, <[p.1 := p.2]> m) items rows.

End UpsertVectorsMoreSpec.

Module CommonSpec.
Import Common.

(** The characters of a slug: lower-case letters, digits and the dash. *)
Definition is_slug_char (c : ascii) : bool :=
  let n := nat_of_ascii c in
  ((48 <=? n) && (n <=? 57) || (97 <=? n) && (n <=? 122) || (n =? 45))%nat.

(** The characters left by the substitution. *)
Definition alnum_or_dash (c : ascii) : bool := is_alnum c || is_dash c.

Fixpoint all_chars (p : ascii → bool) (s : string) : bool :=
  match s with
  | EmptyString => true
  | String c r => p c && all_chars p r
  end.

Definition starts_with_dash (s : string) : bool :=
  match s with
  | String c _ => is_dash c
  | EmptyString => false
  end.

Fixpoint ends_with_dash (s : string) : bool :=
  match s with
  | EmptyString => false
  | String c EmptyString => is_dash c
  | String _ r => ends_with_dash r
  end.

(** No two dashes in a row. *)
Fixpoint no_double_dash (s : string) : bool :=
  match s with
  | EmptyString => true
  | String c r => negb (is_dash c && starts_with_dash r) && no_double_dash r
  end.

(** A slug as [slugify] makes them before it cuts: slug characters only,
    no dash at either end, no two dashes in a row. *)
Definition clean_slug (s : string) : bool :=
  all_chars is_slug_char s && negb (starts_with_dash s)
  && negb (ends_with_dash s) && no_double_dash s.

End CommonSpec.

Module ExtractTextSpec.
Import ExtractText.

Definition starts_with (p : ascii → bool) (s : string) : bool :=
  match s with
  | String c _ => p c
  | EmptyString => false
  end.

(** Every character satisfies [p]. *)
Fixpoint every (p : ascii → bool) (s : string) : bool :=
  match s with
  | EmptyString => true
  | String c r => p c && every p r
  end.

(** Nowhere does a [p] character stand directly before a [q] character. *)
Fixpoint no_pair (p q : ascii → bool) (s : string) : bool :=
  match s with
  | EmptyString => true
  | String c r => negb (p c && starts_with q r) && no_pair p q r
  end.

Definition starts_nl2 (s : string) : bool :=
  match s with
  | String c1 r => is_nl c1 && starts_with is_nl r
  | EmptyString => false
  end.

(** Nowhere do three line breaks stand in a row. *)
Fixpoint no_triple_nl (s : string) : bool :=
  match s with
  | EmptyString => true
  | String c r => negb (is_nl c && starts_nl2 r) && no_triple_nl r
  end.

Definition not_nbsp (c : ascii) : bool := negb (Ascii.eqb c "160").

(** Normalized white space: no no-break space, no blank before a line
    break, at most two line breaks in a row, no two blanks in a row, no
    white space at either end. *)
Definition normalized (s : string) : Prop :=
  every not_nbsp s = true
  ∧ no_pair is_blank is_nl s = true
  ∧ no_triple_nl s = true
  ∧ no_pair is_blank is_blank s = true
  ∧ strip s = s.

End ExtractTextSpec.

Module IngestSpec.
Import Ingest.

(** The effects of fetching the page at [u]: requests for [u], and
    sleeps. *)
Definition page_event (u : string) (ev : event) : Prop :=
  (∃ t, ev = EvHttpGet u t) ∨ ∃ s, ev = EvSleep s.

Section Spec.
Context `{Unicode}.

(** [namespace or slugify(text)] *)
Definition effective_namespace (text : string) (namespace : option string)
    : string :=
  match opt_truthy namespace with
  | Some n => n
  | None => Common.slugify text 60
  end.

End Spec.

Section Spec.
Context `{MoreSettings}.

(** What the numbers of a summary satisfy, [found] being the number of
    search hits. *)
Record summary_ok (found : nat) (s : Summary) : Prop := {
  ok_pages : 0 ≤ indexed_pages s;
  ok_skipped : 0 ≤ skipped_pages s;
  ok_found : indexed_pages s + skipped_pages s ≤ Z.of_nat found;
  ok_want : 0 ≤ MAX_PAGES_TO_SCRAPE →
            indexed_pages s + skipped_pages s ≤ MAX_PAGES_TO_SCRAPE;
  ok_chunks : 0 ≤ indexed_chunks s;
  ok_cap : 0 ≤ MAX_TOTAL_CHUNKS → indexed_chunks s ≤ MAX_TOTAL_CHUNKS;
  ok_pages_needed : 0 < indexed_chunks s → 0 < indexed_pages s;
  ok_quality : Forall (λ src, 1200 ≤ text_len src) (sources s);
  ok_sources : sources s = []
               ∨ Z.of_nat (length (sources s)) = indexed_pages s
}.

End Spec.
End IngestSpec.

(** * Part III: reference collaborators and data

    Instances of the collaborators and sample inputs, for running the model
    on concrete inputs. *)

(** ** A reference URL library

    [urllib.parse] on URLs without percent-escapes and without [;]
    parameters; used to run the model on concrete inputs. *)

Module Urllib.

(** [s.split(c, 1)] when [c] occurs in [s]. *)
Fixpoint split_first (c : ascii) (s : string) : option (string * string) :=
  match s with
  | EmptyString => None
  | String a r =>
      if Ascii.eqb a c then Some (EmptyString, r)
      else match split_first c r with
           | Some (l, r') => Some (String a l, r')
           | None => None
           end
  end.

Definition is_alpha (c : ascii) : bool :=
  let n := nat_of_ascii c in
  ((65 <=? n) && (n <=? 90) || (97 <=? n) && (n <=? 122))%nat.

Definition is_scheme_char (c : ascii) : bool :=
  let n := nat_of_ascii c in
  is_alpha c || ((48 <=? n) && (n <=? 57))%nat
  || (n =? 43)%nat || (n =? 45)%nat || (n =? 46)%nat.

Fixpoint all_chars (p : ascii → bool) (s : string) : bool :=
  match s with
  | EmptyString => true
  | String c r => p c && all_chars p r
  end.

(** Leading C0 control characters and spaces are dropped. *)
Fixpoint lstrip_c0 (s : string) : string :=
  match s with
  | String c r => if (nat_of_ascii c <=? 32)%nat then lstrip_c0 r else s
  | EmptyString => EmptyString
  end.

Fixpoint remove_unsafe (s : string) : string :=
  match s with
  | EmptyString => EmptyString
  | String c r =>
      let n := nat_of_ascii c in
      if ((n =? 9) || (n =? 10) || (n =? 13))%nat then remove_unsafe r
      else String c (remove_unsafe r)
  end.

(** The network location ends at the first of [/], [?], [#]. *)
Fixpoint split_netloc (s : string) : string * string :=
  match s with
  | EmptyString => (EmptyString, EmptyString)
  | String c r =>
      let n := nat_of_ascii c in
      if ((n =? 47) || (n =? 63) || (n =? 35))%nat then (EmptyString, s)
      else let '(a, b) := split_netloc r in (String c a, b)
  end.

Definition split_scheme (s : string) : string * string :=
  match split_first ":" s with
  | Some (String c0 pre, rest) =>
      if is_alpha c0 && all_chars is_scheme_char pre
      then (lower (String c0 pre), rest)
      else (EmptyString, s)
  | _ => (EmptyString, s)
  end.

Definition urlparse_model (u : string) : outcome ParseResult :=
  let u := remove_unsafe (lstrip_c0 u) in
  let '(sch, rest) := split_scheme u in
  let '(loc, rest) :=
    match rest with
    | String "/" (String "/" r) => split_netloc r
    | _ => (EmptyString, rest)
    end in
  if xorb (contains "[" loc) (contains "]" loc)
  then Raise (ValueError "Invalid IPv6 URL")
  else
    let '(rest, frag) :=
      match split_first "#" rest with
      | Some (a, b) => (a, b)
      | None => (rest, EmptyString)
      end in
    let '(pth, qry) :=
      match split_first "?" rest with
      | Some (a, b) => (a, b)
      | None => (rest, EmptyString)
      end in
    Return {| scheme := sch; netloc := loc; path := pth; params := "";
              query := qry; fragment := frag |}.

(** [s.split(c)] *)
Fixpoint split_all (c : ascii) (s : string) : list string :=
  match s with
  | EmptyString => [EmptyString]
  | String a r =>
      if Ascii.eqb a c then EmptyString :: split_all c r
      else match split_all c r with
           | x :: xs => String a x :: xs
           | [] => [String a EmptyString]
           end
  end.

Definition parse_qsl_model (q : string) : outcome (list (string * string)) :=
  Return
    (omap (λ nv, if truthy nv
                 then Some (match split_first "=" nv with
                            | Some (k, v) => (k, v)
                            | None => (nv, EmptyString)
                            end)
                 else None)
          (split_all "&" q)).

Definition urlencode_model (pairs : list (string * string)) : string :=
  Synthesize.join "&" ((λ kv, kv.1 +:+ "=" +:+ kv.2) <$> pairs).

Definition urlunparse_model (p : ParseResult) : string :=
  let u := path p in
  let u :=
    if truthy (netloc p) then
      "//" +:+ netloc p
      +:+ (if truthy u && negb (String.prefix "/" u) then "/" +:+ u else u)
    else if truthy (scheme p) && negb (String.prefix "//" u) then
      "//" +:+ (if truthy u && negb (String.prefix "/" u) then "/" +:+ u else u)
    else u in
  let u := if truthy (scheme p) then scheme p +:+ ":" +:+ u else u in
  let u := if truthy (query p) then u +:+ "?" +:+ query p else u in
  if truthy (fragment p) then u +:+ "#" +:+ fragment p else u.

Definition model : UrlLib := {|
  urlparse := urlparse_model;
  parse_qsl := parse_qsl_model;
  urlencode := urlencode_model;
  urlunparse := urlunparse_model
|}.

End Urllib.

(** ** Collaborators and sample data *)

Module Fixtures.

Definition config : Config := {| SETTINGS := default_settings |}.

(** A network on which every request fails. *)
Definition net_down : Requests :=
  {| requests_get := λ _ _ _, GotRequestException |}.

(** A network that answers 503 twice and then serves a page. *)
Definition net_flaky : Requests :=
  {| requests_get := λ _ _ n,
       if (n <=? 2)%nat
       then GotResponse {| status_code := 503; content_type := None;
                           resp_text := "" |}
       else GotResponse {| status_code := 200;
                           content_type := Some "text/html; charset=utf-8";
                           resp_text := "<html>ok</html>" |} |}.

(** A splitter that cuts at line breaks and refuses an overlap above the
    chunk size. *)
Definition line_splitter : TextSplitter :=
  {| split_text := λ size overlap s,
       if size <? overlap
       then Raise (ValueError "Got a larger chunk overlap than chunk size")
       else Return (Urllib.split_all "010" s) |}.

(** A readable stand-in for the digest: the input between brackets. *)
Definition toy_digest : Hashlib :=
  {| sha1_hexdigest := λ s, "<" +:+ s +:+ ">" |}.

(** Chat backends that always raise. *)
Definition chat_down : ChatBackend :=
  {| openai_chat := λ _ _ _ _, Raise APIError;
     groq_chat := λ _ _ _ _, Raise APIError;
     ollama_post := λ _ _ _ _ _, Raise RequestException |}.

(** Chat backends that answer with a fixed text. *)
Definition chat_fixed : ChatBackend :=
  {| openai_chat := λ _ _ _ _, Return " An answer. ";
     groq_chat := λ _ _ _ _, Return "An answer.";
     ollama_post := λ _ _ _ _ _,
       Return {| ollama_status := 200;
                 ollama_message_content := Some "An answer.";
                 ollama_response := None |} |}.

(** A vector index and an embedding backend that always raise. *)
Definition index_down : VectorIndex :=
  {| collection_query := λ _ _ _, Raise (RuntimeError "store unreachable") |}.

Definition embedder_down : EmbeddingBackend :=
  {| st_encode := λ _ _, Raise (RuntimeError "model not found");
     openai_embed := λ _ _ _ _, Raise APITimeoutError |}.

Definition sample_text : string :=
  "Multimodal models combine text and images." +:+ Synthesize.nl
  +:+ "   " +:+ Synthesize.nl
  +:+ "  They often use contrastive pretraining.".

(** What the chunker makes of [sample_text] with [line_splitter] and
    [toy_digest]. *)
Definition sample_chunks : list SplitChunks.Chunk :=
  [ {| SplitChunks.chunk_id :=
         "<https://example.com/demo|0|Multimodal models combine text and image>";
       SplitChunks.text := "Multimodal models combine text and images.";
       SplitChunks.url := "https://example.com/demo";
       SplitChunks.title := "Demo";
       SplitChunks.order := 0 |};
    {| SplitChunks.chunk_id :=
         "<https://example.com/demo|2|They often use contrastive pretraining.>";
       SplitChunks.text := "They often use contrastive pretraining.";
       SplitChunks.url := "https://example.com/demo";
       SplitChunks.title := "Demo";
       SplitChunks.order := 2 |} ].

Definition ctx (u ttl : string) : Synthesize.RetrievedContext :=
  {| Synthesize.text := "Some supporting text.";
     Synthesize.url := u;
     Synthesize.title := ttl;
     Synthesize.score := float_one |}.

(** Contexts whose URLs are A, B, A, C. *)
Definition ctxs_abac : list Synthesize.RetrievedContext :=
  [ ctx "https://a.org/1" "A"; ctx "https://b.org/2" "B";
    ctx "https://a.org/1" "A again"; ctx "https://c.org/3" "C" ].

Definition citations_abc : list Synthesize.Citation :=
  [ {| Synthesize.cite_url := "https://a.org/1"; Synthesize.cite_title := "A" |};
    {| Synthesize.cite_url := "https://b.org/2"; Synthesize.cite_title := "B" |};
    {| Synthesize.cite_url := "https://c.org/3"; Synthesize.cite_title := "C" |} ].

(** A single context without a URL. *)
Definition ctxs_no_url : list Synthesize.RetrievedContext :=
  [ ctx "" "Untitled note" ].

(** A record without identifier, vector or text. *)
Definition malformed_record : UpsertVectors.InputRecord :=
  {| UpsertVectors.in_id := "";
     UpsertVectors.in_embedding := None;
     UpsertVectors.in_document := "";
     UpsertVectors.in_metadata := ∅ |}.

(** The collection [get_or_create_collection] makes. *)
Definition fresh_collection : Collection :=
  {| col_metadata := {["hnsw:space" := "cosine"]}; col_items := ∅ |}.

Definition organic (l ttl : string) : OrganicItem :=
  {| link := l; item_title := ttl; item_snippet := "" |}.

(** SerpAPI answering with a single organic result. *)
Definition serp_one : SerpApi :=
  {| serp_get := λ _ _ _,
       SerpOk [ organic "https://rocq-prover.org/doc?utm_source=x#intro"
                  "Documentation" ] |}.

(** SerpAPI answering, after a 503, with ten results of which six are on
    one domain and two are the same page with different tracking. *)
Definition serp_ten : SerpApi :=
  {| serp_get := λ _ _ attempt,
       match attempt with
       | O => SerpStatus 503
       | _ =>
           SerpOk
             [ organic "https://big.example/a" "a";
               organic "https://big.example/b" "b";
               organic "https://big.example/c" "c";
               organic "https://one.example/x?utm_source=feed" "x";
               organic "https://big.example/d" "d";
               organic "https://one.example/x#top" "x again";
               organic "https://big.example/e" "e";
               organic "https://two.example/y" "y";
               organic "https://big.example/f" "f";
               organic "ftp://three.example/z" "z" ]
       end |}.

(** binary64 constants *)
Definition float_0_25 : spec_float := S754_finite false 4503599627370496 (-54).
Definition float_0_5 : spec_float := S754_finite false 4503599627370496 (-53).
Definition float_0_75 : spec_float := S754_finite false 6755399441055744 (-53).

Definition meta (u ttl : string) : option (gmap string string) :=
  Some {["url" := u; "title" := ttl]}.

(** A store that reports three neighbours at distances 0.5, 0.25, 0.75. *)
Definition three_neighbours : QueryResult :=
  {| documents := [Some "first"; Some "second"; Some "third"];
     metadatas := [meta "https://a.org/1" "A"; meta "https://b.org/2" "B";
                   meta "https://c.org/3" "C"];
     distances := [float_0_5; float_0_25; float_0_75] |}.

Definition index_three : VectorIndex :=
  {| collection_query := λ _ _ _, Return three_neighbours |}.

(** An embedding backend that maps every text to the same vector. *)
Definition embedder_const : EmbeddingBackend :=
  {| st_encode := λ _ texts, Return ((λ _, [float_one]) <$> texts);
     openai_embed := λ _ texts _ _, Return ((λ _, [float_one]) <$> texts) |}.

Definition store_demo : Store := {["research_demo" := fresh_collection]}.

Definition retrieved (txt u ttl : string) (s : spec_float)
    : Synthesize.RetrievedContext :=
  {| Synthesize.text := txt; Synthesize.url := u; Synthesize.title := ttl;
     Synthesize.score := s |}.

(** The three neighbours by descending score: 0.75, 0.5, 0.25. *)
Definition three_contexts : list Synthesize.RetrievedContext :=
  [ retrieved "second" "https://b.org/2" "B" float_0_75;
    retrieved "first" "https://a.org/1" "A" float_0_5;
    retrieved "third" "https://c.org/3" "C" float_0_25 ].

Definition chunk (id txt : string) : SplitChunks.Chunk :=
  {| SplitChunks.chunk_id := id; SplitChunks.text := txt;
     SplitChunks.url := "https://example.com/demo";
     SplitChunks.title := "Demo"; SplitChunks.order := 0 |}.

Definition text_vector (t : string) : vector :=
  if String.eqb t "alpha" then [float_one]
  else if String.eqb t "beta" then [float_0_5]
  else if String.eqb t "gamma" then [float_0_25]
  else [float_zero].

(** An embedding backend that is rate-limited, at every attempt, for the
    batch that starts at position 3, and answers for the others. *)
Definition embedder_batch_3_down : EmbeddingBackend :=
  {| st_encode := λ _ texts, Return (text_vector <$> texts);
     openai_embed := λ _ texts start _,
       if (start =? 3)%nat then Raise RateLimitError
       else Return (text_vector <$> texts) |}.

Definition record (id : string) (v : vector) : EmbedChunks.EmbeddingRecord :=
  {| EmbedChunks.emb_chunk_id := id; EmbedChunks.embedding := v |}.

(** Four chunks with distinct identifiers. *)
Definition chunks_distinct : list SplitChunks.Chunk :=
  [ chunk "id-x" "alpha"; chunk "id-y" "beta"; chunk "id-w" "gamma";
    chunk "id-z" "delta" ].

(** Four chunks of which the first and the third share an identifier. *)
Definition chunks_shared_id : list SplitChunks.Chunk :=
  [ chunk "id-x" "alpha"; chunk "id-y" "beta"; chunk "id-x" "gamma";
    chunk "id-z" "delta" ].

End Fixtures.

(** ** Further collaborators and sample data *)

Module Fixtures2.

(** A network that answers 503 to every request. *)
Definition net_unavailable : Requests :=
  {| requests_get := λ _ _ _,
       GotResponse {| status_code := 503; content_type := None;
                      resp_text := "" |} |}.

(** A record the upsert accepts, with white space around its fields. *)
Definition good_record : UpsertVectors.InputRecord :=
  {| UpsertVectors.in_id := " id-1 ";
     UpsertVectors.in_embedding := Some [float_one];
     UpsertVectors.in_document := " hello ";
     UpsertVectors.in_metadata := ∅ |}.

(** A stand-in for the ASCII folding that drops every character outside
    ASCII, without decomposing it first. *)
Fixpoint drop_non_ascii (s : string) : string :=
  match s with
  | EmptyString => EmptyString
  | String c r =>
      if (nat_of_ascii c <? 128)%nat then String c (drop_non_ascii r)
      else drop_non_ascii r
  end.

Definition ascii_filter : Unicode := {| nfkd_ascii := drop_non_ascii |}.

(** A clock that has stopped. *)
Definition clock_fixed : Clock :=
  {| utc_now_iso := "2025-01-01T00:00:00+00:00" |}.

(** The further settings at their defaults. *)
Definition more_settings : MoreSettings :=
  {| SEARCH_PROVIDER := "serpapi"; MAX_PAGES_TO_SCRAPE := 20;
     CHROMA_PERSIST_DIR := "./vectorstore"; MAX_TOTAL_CHUNKS := 200 |}.

(** A file system on which directories can be made. *)
Definition fs_ok : FileSystem := {| makedirs := λ _, true |}.

(** A network that serves the same HTML page at every URL. *)
Definition net_page : Requests :=
  {| requests_get := λ _ _ _,
       GotResponse {| status_code := 200;
                      content_type := Some "text/html; charset=utf-8";
                      resp_text := "<html><body>words</body></html>" |} |}.

Fixpoint repeat_str (n : nat) (s : string) : string :=
  match n with
  | O => EmptyString
  | S n' => s +:+ repeat_str n' s
  end.

(** A text of 1500 characters on one line. *)
Definition long_text : string := repeat_str 250 "words ".

(** A parser that finds the same title and text in every page. *)
Definition parser_long : HtmlParser :=
  {| soup_title := λ _, "Documentation"; soup_main_text := λ _, long_text |}.

(** What ingesting the one page of [serp_one] reports. *)
Definition demo_summary : Ingest.Summary :=
  {| Ingest.namespace := "demo"; Ingest.indexed_pages := 1;
     Ingest.indexed_chunks := 1; Ingest.skipped_pages := 0;
     Ingest.sources :=
       [ {| Ingest.src_title := "Documentation";
            Ingest.src_url := "https://rocq-prover.org/doc";
            Ingest.text_len := 1500 |} ] |}.

End Fixtures2.

(** * Part IV: properties *)

Example urlparse_model_example :
  Urllib.urlparse_model "HTTPS://Example.com/a/b?x=1&utm_source=y#top"
  = Return {| scheme := "https"; netloc := "Example.com"; path := "/a/b";
              params := ""; query := "x=1&utm_source=y"; fragment := "top" |}.
Proof. reflexivity. Qed.

(** ** Python primitives *)

Module PyProps.

Lemma rstrip_idem (s : string) : rstrip (rstrip s) = rstrip s.
Proof.
  induction s as [|c r IH]; simpl; [reflexivity|].
  destruct (rstrip r) as [|c' r'] eqn:Hr.
  - destruct (is_space c) eqn:Hc; simpl; [reflexivity|]. rewrite Hc. reflexivity.
  - simpl in *. rewrite IH. reflexivity.
Qed.

Lemma lstrip_head (s : string) :
  lstrip s = "" ∨ ∃ c r, lstrip s = String c r ∧ is_space c = false.
Proof.
  induction s as [|c r IH]; simpl; [left; reflexivity|].
  destruct (is_space c) eqn:Hc; [exact IH|]. right. eauto.
Qed.

Lemma rstrip_head (c : ascii) (r : string) :
  is_space c = false → ∃ r', rstrip (String c r) = String c r'.
Proof.
  intros Hc. simpl. destruct (rstrip r); [rewrite Hc|]; eauto.
Qed.

(** Trimming a trimmed string changes nothing. *)
Lemma strip_idem (s : string) : strip (strip s) = strip s.
Proof.
  unfold strip.
  destruct (lstrip_head s) as [->|(c & r & -> & Hc)]; [reflexivity|].
  destruct (rstrip_head c r Hc) as [r' Hr'].
  rewrite Hr'. simpl. rewrite Hc. rewrite <- Hr'. apply rstrip_idem.
Qed.

Lemma truthy_true (s : string) : truthy s = true ↔ s ≠ "".
Proof. destruct s; simpl; split; congruence. Qed.

Lemma truthy_false (s : string) : truthy s = false ↔ s = "".
Proof. destruct s; simpl; split; congruence. Qed.

(** *** The stable sort *)

Section SortProps.
Context {A K : Type} (key : A → K) (ltb : K → K → bool).

Lemma insert_by_perm (x : A) (l : list A) : insert_by key ltb x l ≡ₚ x :: l.
Proof.
  induction l as [|y r IH]; simpl; [reflexivity|].
  destruct (ltb (key x) (key y)); [reflexivity|].
  rewrite IH. apply Permutation_swap.
Qed.

Lemma sort_by_snoc (l : list A) (x : A) :
  sort_by key ltb (l ++ [x]) = insert_by key ltb x (sort_by key ltb l).
Proof. unfold sort_by. rewrite fold_left_app. reflexivity. Qed.

Lemma sort_by_perm (l : list A) : sort_by key ltb l ≡ₚ l.
Proof.
  induction l as [|x l IH] using rev_ind; [reflexivity|].
  rewrite sort_by_snoc, insert_by_perm, IH.
  apply Permutation_cons_append.
Qed.

Lemma sort_by_reverse_perm (l : list A) : sort_by_reverse key ltb l ≡ₚ l.
Proof.
  unfold sort_by_reverse.
  rewrite <- Permutation_rev, sort_by_perm, <- Permutation_rev. reflexivity.
Qed.

(** An element that is less than none of a list goes behind it. *)
Lemma insert_by_last (x : A) (l : list A) :
  Forall (λ y, ltb (key x) (key y) = false) l →
  insert_by key ltb x l = l ++ [x].
Proof.
  induction 1 as [|y r Hy _ IH]; simpl; [reflexivity|].
  rewrite Hy, IH. reflexivity.
Qed.

(** Sorting a list that is in ascending order changes nothing. *)
Lemma sort_by_sorted_id (l : list A) :
  StronglySorted (ascending key ltb) l → sort_by key ltb l = l.
Proof.
  induction l as [|x l IH] using rev_ind; intros Hsorted; [reflexivity|].
  apply StronglySorted_app in Hsorted as (Hlast & Hl & _).
  rewrite sort_by_snoc, (IH Hl). apply insert_by_last.
  apply Forall_forall. intros y Hy. apply (Hlast y x Hy).
  apply list_elem_of_singleton. reflexivity.
Qed.



(** On keys where [<] is asymmetric and "not less" is transitive, the sort
    sorts. [ok] singles out those keys (for floats: the numbers). *)
Section Sorts.
Variable ok : K → Prop.
Hypothesis ltb_asym :
  ∀ x y, ok x → ok y → ltb x y = true → ltb y x = false.
Hypothesis nlt_trans :
  ∀ x y z, ok x → ok y → ok z →
           ltb y x = false → ltb z y = false → ltb z x = false.




End Sorts.
End SortProps.

End PyProps.

(** ** binary64 comparison and subtraction *)

Module FloatProps.
Import FloatOrder.













End FloatProps.

(** ** The page fetcher *)

Module FetchPageProps.
Import FetchPage FetchPageSpec.

Section Props.
Context `{UrlLib} `{Config} `{Requests}.

(** With at least [max_attempts - attempt] iterations allowed, the loop
    returns a page for the requested URL; its body is empty unless the
    status is 200; it is the empty page when every request raises. *)
Lemma fetch_loop_returns (u : string) (timeout max_attempts : Z) (fuel : nat) :
  ∀ (attempt backoff : Z) (log : list event),
    (Z.to_nat (max_attempts - attempt) ≤ fuel)%nat →
    ∃ page log',
      fetch_loop u timeout max_attempts fuel attempt backoff log
      = (Return page, log')
      ∧ url page = u
      ∧ (html page = "" ∨ status page = 200)
      ∧ ((∀ n, requests_get u timeout n = GotRequestException) →
         page = empty_page u).
Proof.
  induction fuel as [|fuel IH]; intros attempt backoff log Hfuel; simpl.
  - destruct (attempt <? max_attempts) eqn:Hlt.
    + apply Z.ltb_lt in Hlt. lia.
    + eexists _, _. repeat split. left. reflexivity.
  - destruct (attempt <? max_attempts) eqn:Hlt;
      [|eexists _, _; repeat split; left; reflexivity].
    apply Z.ltb_lt in Hlt.
    assert (Hnext : (Z.to_nat (max_attempts - (attempt + 1)) ≤ fuel)%nat) by lia.
    destruct (requests_get u timeout (Z.to_nat (attempt + 1))) as [resp|] eqn:Hget.
    + destruct (status_code resp =? 200) eqn:Hok; simpl.
      * apply Z.eqb_eq in Hok.
        destruct (negb (is_html_ctype _));
          (eexists _, _; split; [reflexivity|]; split; [reflexivity|];
           split; [right; exact Hok|];
           intros Hall; rewrite Hall in Hget; discriminate).
      * destruct (retryable_status (status_code resp)
                  && (attempt + 1 <? max_attempts)).
        -- apply IH; exact Hnext.
        -- eexists _, _. split; [reflexivity|]. split; [reflexivity|].
           split; [left; reflexivity|].
           intros Hall. rewrite Hall in Hget. discriminate.
    + destruct (attempt + 1 <? max_attempts).
      * apply IH; exact Hnext.
      * eexists _, _. repeat split. left. reflexivity.
Qed.


End Props.


Example fetch_page_unreachable :
  @fetch_page Urllib.model Fixtures.config Fixtures.net_down
    "https://example.com/" None
  = (Return (empty_page "https://example.com/"),
     [EvHttpGet "https://example.com/" 15; EvSleep 1;
      EvHttpGet "https://example.com/" 15; EvSleep 2;
      EvHttpGet "https://example.com/" 15]).
Proof. reflexivity. Qed.

Example fetch_page_retries_then_serves :
  fst (@fetch_page Urllib.model Fixtures.config Fixtures.net_flaky
         "https://example.com/" None)
  = Return {| url := "https://example.com/"; html := "<html>ok</html>";
              status := 200 |}.
Proof. reflexivity. Qed.

Example fetch_page_malformed :
  @fetch_page Urllib.model Fixtures.config Fixtures.net_flaky
    "http://[::1/" None
  = (Return (empty_page "http://[::1/"), []).
Proof. reflexivity. Qed.

End FetchPageProps.

(** ** The chunker *)

Module SplitChunksProps.
Import SplitChunks SplitChunksSpec.

Section Props.
Context `{Config} `{TextSplitter} `{Hashlib}.

(** Each chunk built from position [start] on comes from the piece at its
    own position, trimmed, and carries the hash of that position and text. *)
Lemma chunk_pieces_spec (u ttl : string) (pieces : list string) :
  ∀ (start : nat) (c : Chunk),
    c ∈ chunk_pieces u ttl start pieces →
    (start ≤ order c)%nat
    ∧ (∃ piece, pieces !! (order c - start)%nat = Some piece
                ∧ text c = strip piece)
    ∧ text c ≠ ""
    ∧ url c = u
    ∧ chunk_id c = chunk_hash u (order c) (take_str 40 (text c)).
Proof.
  induction pieces as [|piece rest IH]; intros start c Hin; simpl in Hin.
  - inversion Hin.
  - assert (Hrest : c ∈ chunk_pieces u ttl (S start) rest →
              (start ≤ order c)%nat
              ∧ (∃ p, (piece :: rest) !! (order c - start)%nat = Some p
                      ∧ text c = strip p)
              ∧ text c ≠ "" ∧ url c = u
              ∧ chunk_id c = chunk_hash u (order c) (take_str 40 (text c))).
    { intros Hc. destruct (IH _ _ Hc) as (Hle & (p & Hp & Ht) & Hne & Hu & Hid).
      split; [lia|]. split; [|auto].
      exists p. split; [|exact Ht].
      replace (order c - start)%nat with (S (order c - S start)) by lia.
      exact Hp. }
    destruct (truthy (strip piece)) eqn:Htruthy; simpl in Hin.
    + apply elem_of_cons in Hin as [->|Hin]; [|auto].
      simpl. split; [lia|]. split.
      * exists piece. rewrite Nat.sub_diag. auto.
      * split; [|auto]. intros Hempty. rewrite Hempty in Htruthy. discriminate.
    + auto.
Qed.

(** The identifiers do not depend on the title. *)
Lemma chunk_pieces_ids_title (u ttl ttl' : string) (pieces : list string) :
  ∀ start,
    chunk_id <$> chunk_pieces u ttl start pieces
    = chunk_id <$> chunk_pieces u ttl' start pieces.
Proof.
  induction pieces as [|piece rest IH]; intros start; simpl; [reflexivity|].
  destruct (truthy (strip piece)); simpl; [f_equal|]; apply IH.
Qed.

(** C2. Whenever [split_chunks] produces chunks, the [chunk_id] of each is
    the hash [chunk_hash] of the URL, the chunk's order and the first 40
    characters of the chunk's (trimmed, non-empty) text; and any other call
    on the same text, URL and sizes returns the same list of identifiers. *)
Theorem split_chunks_chunk_id (doc_text u ttl : string)
    (chunk_size_tokens overlap_tokens : option Z) (chunks : list Chunk) :
  split_chunks doc_text u ttl chunk_size_tokens overlap_tokens = Return chunks →
  (∀ c, c ∈ chunks →
        chunk_id c = chunk_hash u (order c) (take_str 40 (text c))
        ∧ strip (text c) = text c ∧ text c ≠ "")
  ∧ (∀ ttl' chunks',
        split_chunks doc_text u ttl' chunk_size_tokens overlap_tokens
        = Return chunks' →
        chunk_id <$> chunks' = chunk_id <$> chunks).
Proof.
  unfold split_chunks. intros Hrun.
  destruct (truthy doc_text).
  - simpl in *.
    destruct (split_text _ _ doc_text) as [pieces| |] eqn:Hsplit;
      try discriminate.
    injection Hrun as <-. split.
    + intros c Hc.
      destruct (chunk_pieces_spec _ _ _ _ _ Hc)
        as (_ & (piece & _ & Htext) & Hne & _ & Hid).
      split; [exact Hid|]. split; [|exact Hne].
      rewrite Htext. apply PyProps.strip_idem.
    + intros ttl' chunks' Hrun'. injection Hrun' as <-.
      apply chunk_pieces_ids_title.
  - simpl in *. injection Hrun as <-. split.
    + intros c Hc. inversion Hc.
    + intros ttl' chunks' Hrun'. injection Hrun' as <-. reflexivity.
Qed.

End Props.

Example split_chunks_sample :
  @split_chunks Fixtures.config Fixtures.line_splitter Fixtures.toy_digest
    Fixtures.sample_text "https://example.com/demo" "Demo" None None
  = Return Fixtures.sample_chunks.
Proof. vm_compute. reflexivity. Qed.

(** On the sample text, both chunks (positions 0 and 2: the blank piece at
    position 1 is dropped) carry the identifier the theorem gives. *)
Lemma split_chunks_chunk_id_witness :
  Forall
    (λ c, chunk_id c
          = @chunk_hash Fixtures.toy_digest "https://example.com/demo"
              (order c) (take_str 40 (text c)))
    Fixtures.sample_chunks.
Proof.
  apply Forall_forall.
  assert (Hrun :
    @split_chunks Fixtures.config Fixtures.line_splitter Fixtures.toy_digest
      Fixtures.sample_text "https://example.com/demo" "Demo" None None
    = Return Fixtures.sample_chunks) by (vm_compute; reflexivity).
  intros c Hc.
  exact (proj1 (proj1 (split_chunks_chunk_id _ _ _ _ _ _ Hrun) c Hc)).
Defined.

End SplitChunksProps.

(** ** The answer synthesizer *)

Module SynthesizeProps.
Import Synthesize SynthesizeSpec.

Lemma filter_filter_weaker {A : Type} (P Q : A → Prop)
    `{∀ x, Decision (P x)} `{∀ x, Decision (Q x)} (l : list A) :
  (∀ x, P x → Q x) → filter P (filter Q l) = filter P l.
Proof.
  intros HPQ. induction l as [|x l IH]; [reflexivity|].
  rewrite (filter_cons Q). destruct (decide (Q x)) as [Hq|Hq].
  - rewrite !filter_cons. destruct (decide (P x)); rewrite IH; reflexivity.
  - rewrite filter_cons. destruct (decide (P x)) as [Hp|Hp].
    + destruct (Hq (HPQ _ Hp)).
    + exact IH.
Qed.

(** The accumulator loop against the list definition: [out] grows by the
    citable pairs whose URL is neither seen nor repeated. *)
Lemma dedupe_loop_spec (ctxs : list RetrievedContext) :
  ∀ (seen : gset string) (out : list Citation),
    dedupe_loop ctxs seen out
    = out ++ filter (λ p, cite_url p ∉ seen)
               (dedupe_first cite_url (citable ctxs)).
Proof.
  unfold citable.
  induction ctxs as [|c rest IH]; intros seen out; simpl.
  - rewrite app_nil_r. reflexivity.
  - rewrite filter_cons. simpl.
    destruct (truthy (strip (url c))) eqn:Hu; simpl.
    + apply PyProps.truthy_true in Hu.
      destruct (decide (strip (url c) ≠ "")) as [_|Hne]; [|destruct (Hne Hu)].
      simpl. rewrite filter_cons. simpl.
      destruct (bool_decide (strip (url c) ∈ seen)) eqn:Hseen.
      * apply bool_decide_eq_true in Hseen.
        destruct (decide (strip (url c) ∉ seen)) as [Hn|_]; [destruct (Hn Hseen)|].
        rewrite IH. f_equal. symmetry. apply filter_filter_weaker.
        intros p Hp Heq. apply Hp. rewrite Heq. exact Hseen.
      * apply bool_decide_eq_false in Hseen.
        destruct (decide (strip (url c) ∉ seen)) as [_|Hn]; [|destruct (Hn Hseen)].
        rewrite IH. rewrite <- app_assoc. simpl. do 2 f_equal.
        rewrite list_filter_filter. apply list_filter_iff.
        intros p. rewrite not_elem_of_union, not_elem_of_singleton.
        tauto.
    + apply PyProps.truthy_false in Hu.
      destruct (decide (strip (url c) ≠ "")) as [Hne|_]; [destruct (Hne Hu)|].
      apply IH.
Qed.

(** [_dedupe_urls] keeps, of the citable pairs, the first one per URL. *)
Lemma _dedupe_urls_spec (ctxs : list RetrievedContext) :
  _dedupe_urls ctxs = dedupe_first cite_url (citable ctxs).
Proof.
  unfold _dedupe_urls. rewrite dedupe_loop_spec. simpl.
  induction (dedupe_first cite_url (citable ctxs)) as [|p l IH];
    [reflexivity|].
  rewrite filter_cons.
  destruct (decide (cite_url p ∉ (∅ : gset string))) as [_|Hn].
  - f_equal. exact IH.
  - destruct Hn. set_solver.
Qed.

Section Props.
Context `{Config} `{ChatBackend}.

(** C3. With no contexts, [synthesize_answer] returns the canned message
    with no citations, and the log of backend calls is empty: this holds for
    every question, style, temperature, configuration and chat backend. *)
Theorem synthesize_answer_no_context (question style : string)
    (temperature : spec_float) :
  synthesize_answer question [] style temperature
  = (Return {| content := no_context_message; citations := [] |}, []).
Proof. unfold synthesize_answer. reflexivity. Qed.

(** Whenever [synthesize_answer] returns, its citations are those of
    [_dedupe_urls]. *)
Lemma synthesize_answer_citations (question style : string)
    (ctxs : list RetrievedContext) (temperature : spec_float)
    (ans : Answer) (log : list event) :
  synthesize_answer question ctxs style temperature = (Return ans, log) →
  citations ans = _dedupe_urls ctxs.
Proof.
  unfold synthesize_answer. destruct ctxs as [|c rest].
  - intros [= <- _]. reflexivity.
  - cbv zeta.
    destruct (String.eqb _ "openai");
      [|destruct (String.eqb _ "ollama"); [|destruct (String.eqb _ "groq")]].
    + destruct (openai_chat _ _ _ _); simpl; intros Heq; try discriminate.
      injection Heq as <- _. reflexivity.
    + destruct (ollama_content _ _ _ _) as [[content| |] log'];
        intros Heq; try discriminate.
      injection Heq as <- _. reflexivity.
    + destruct (groq_chat _ _ _ _); simpl; intros Heq; try discriminate.
      injection Heq as <- _. reflexivity.
    + discriminate.
Qed.

(** C4, as the code has it. Whenever [synthesize_answer] returns, its
    citations are the [{url, title}] pairs of the contexts with both fields
    trimmed, without the contexts whose trimmed URL is empty, deduplicated
    by trimmed URL with the order of first appearance preserved. *)
Theorem synthesize_answer_citations_first_seen (question style : string)
    (ctxs : list RetrievedContext) (temperature : spec_float)
    (ans : Answer) (log : list event) :
  synthesize_answer question ctxs style temperature = (Return ans, log) →
  citations ans = dedupe_first cite_url (citable ctxs).
Proof.
  intros Hrun. rewrite (synthesize_answer_citations _ _ _ _ _ _ Hrun).
  apply _dedupe_urls_spec.
Qed.

End Props.

(** Contexts with URLs A, B, A, C, where A, B and C are distinct and not
    blank once trimmed, are cited as A, B, C. *)
Lemma dedupe_urls_abac (cA cB cA' cC : RetrievedContext) :
  strip (url cA) ≠ "" → strip (url cB) ≠ "" → strip (url cC) ≠ "" →
  strip (url cA') = strip (url cA) →
  strip (url cA) ≠ strip (url cB) →
  strip (url cA) ≠ strip (url cC) →
  strip (url cB) ≠ strip (url cC) →
  _dedupe_urls [cA; cB; cA'; cC]
  = [trimmed_pair_of cA; trimmed_pair_of cB; trimmed_pair_of cC].
Proof.
  intros HA HB HC HA' HAB HAC HBC. unfold _dedupe_urls. simpl.
  apply PyProps.truthy_true in HA, HB, HC.
  rewrite HA. simpl.
  rewrite bool_decide_eq_false_2 by apply not_elem_of_empty.
  rewrite HB. simpl.
  rewrite bool_decide_eq_false_2
    by (rewrite elem_of_union, elem_of_singleton, elem_of_empty;
        intuition congruence).
  rewrite HA', HA. simpl.
  rewrite bool_decide_eq_true_2
    by (rewrite !elem_of_union, !elem_of_singleton; auto).
  rewrite HC. simpl.
  rewrite bool_decide_eq_false_2
    by (rewrite !elem_of_union, !elem_of_singleton, elem_of_empty;
        intuition congruence).
  reflexivity.
Qed.

Example dedupe_urls_abac_example :
  _dedupe_urls Fixtures.ctxs_abac = Fixtures.citations_abc.
Proof. vm_compute. reflexivity. Qed.

(** The theorem at the contexts A, B, A, C, with a backend that answers. *)
Lemma synthesize_answer_citations_first_seen_witness :
  Fixtures.citations_abc
  = dedupe_first cite_url (citable Fixtures.ctxs_abac).
Proof.
  apply (@synthesize_answer_citations_first_seen Fixtures.config
           Fixtures.chat_fixed "What is known?" "concise" Fixtures.ctxs_abac
           float_0_2
           {| content := "An answer."; citations := Fixtures.citations_abc |}
           (snd (@synthesize_answer Fixtures.config Fixtures.chat_fixed
                   "What is known?" Fixtures.ctxs_abac "concise" float_0_2))).
  vm_compute. reflexivity.
Defined.

(** A non-empty list of contexts whose only context has no URL: the answer
    cites nothing, although the [{url, title}] pairs deduplicated by URL
    are one pair. *)
Lemma synthesize_answer_drops_blank_url :
  Fixtures.ctxs_no_url ≠ []
  ∧ fst (@synthesize_answer Fixtures.config Fixtures.chat_fixed
           "What is known?" Fixtures.ctxs_no_url "concise" float_0_2)
    = Return {| content := "An answer."; citations := [] |}
  ∧ dedupe_first cite_url (pair_of <$> Fixtures.ctxs_no_url)
    = [ {| cite_url := ""; cite_title := "Untitled note" |} ].
Proof.
  split; [discriminate|]. split; vm_compute; reflexivity.
Qed.

End SynthesizeProps.

(** ** Retrieval and the QA orchestrator on a missing collection *)

Module RetrieveProps.
Import Synthesize Retrieve QA.

Section Props.
Context `{Config} `{VectorIndex} `{EmbeddingBackend} `{ChatBackend}.

(** Without a collection, retrieval is empty for every [top_k]. *)
Lemma retrieve_context_no_collection (store : Store)
    (namespace question : string) (top_k : option Z) :
  store !! _collection_name namespace = None →
  retrieve_context store namespace question top_k = Return [].
Proof.
  intros Hmissing. unfold retrieve_context.
  destruct (negb (truthy namespace) || negb (truthy question));
    [reflexivity|].
  rewrite Hmissing. reflexivity.
Qed.

(** C5. When the store has no collection for the namespace,
    [retrieve_context] returns the empty list and [answer_question] returns
    the fixed message with no citations; neither raises, and no backend is
    called, for every question, [top_k], configuration and backend. *)
Theorem empty_namespace_behaviour (store : Store)
    (namespace question : string) (top_k : option Z) :
  store !! _collection_name namespace = None →
  retrieve_context store namespace question top_k = Return []
  ∧ answer_question store question namespace top_k
    = (Return {| content := no_relevant_context_message; citations := [] |},
       []).
Proof.
  intros Hmissing. split.
  - apply retrieve_context_no_collection, Hmissing.
  - unfold answer_question.
    rewrite (retrieve_context_no_collection _ _ _ _ Hmissing). reflexivity.
Qed.

End Props.

(** On an empty store, with backends that would raise if called. *)
Lemma empty_namespace_behaviour_witness :
  @retrieve_context Fixtures.config Fixtures.index_down Fixtures.embedder_down
    ∅ "demo-ns" "What are the key takeaways?" (Some 3)
  = Return []
  ∧ @answer_question Fixtures.config Fixtures.index_down
      Fixtures.embedder_down Fixtures.chat_down
      ∅ "What are the key takeaways?" "demo-ns" (Some 3)
    = (Return {| content := no_relevant_context_message; citations := [] |},
       []).
Proof.
  apply (@empty_namespace_behaviour Fixtures.config Fixtures.index_down
           Fixtures.embedder_down Fixtures.chat_down).
  apply lookup_empty.
Defined.

End RetrieveProps.

(** ** The vector upsert *)

Module UpsertVectorsProps.
Import UpsertVectors UpsertVectorsSpec.

Section Props.
Context `{Config}.

(** C10. With an empty namespace [upsert_vectors] raises [ValueError]
    whatever the records are, the empty list included, and leaves the store
    as it was; [retrieve_context] on an empty namespace returns the empty
    list instead. *)
Theorem upsert_vectors_empty_namespace_raises `{VectorIndex}
    `{EmbeddingBackend} (store : Store) (records : list InputRecord)
    (question : string) (top_k : option Z) :
  upsert_vectors store "" records
  = (Raise (ValueError "namespace is required"), store)
  ∧ upsert_vectors store "" []
    = (Raise (ValueError "namespace is required"), store)
  ∧ Retrieve.retrieve_context store "" question top_k = Return [].
Proof. repeat split. Qed.

(** An empty list of records leaves the store untouched. *)
Lemma upsert_vectors_no_records (store : Store) (namespace : string) :
  namespace ≠ "" →
  upsert_vectors store namespace [] = (Return 0, store).
Proof.
  intros Hns. unfold upsert_vectors.
  destruct namespace; [destruct Hns; reflexivity|reflexivity].
Qed.

(** Malformed records pass nothing to the store. *)
Lemma validate_malformed (records : list InputRecord) (acc : Columns) :
  Forall malformed records → validate records acc = acc.
Proof.
  induction 1 as [|r rest Hr _ IH]; simpl; [reflexivity|].
  destruct (in_embedding r) as [vec|] eqn:Hemb; [|exact IH].
  destruct Hr as [Hvec|[Hid|Hdoc]]; [congruence| |].
  - rewrite Hid. exact IH.
  - rewrite Hdoc, orb_true_r. exact IH.
Qed.

(** What the code does on a non-empty list of records that are all
    malformed, for a namespace that has no collection yet: it reports zero
    upserts and the store has gained an empty collection. *)
Lemma upsert_vectors_all_malformed (store : Store) (namespace : string)
    (records : list InputRecord) :
  namespace ≠ "" → records ≠ [] →
  Forall malformed records →
  store !! _collection_name namespace = None →
  upsert_vectors store namespace records
  = (Return 0,
     <[_collection_name namespace := Fixtures.fresh_collection]> store).
Proof.
  intros Hns Hrecs Hbad Hmissing. unfold upsert_vectors.
  destruct namespace; [destruct Hns; reflexivity|]. simpl negb. cbv iota.
  destruct records as [|r rest]; [destruct Hrecs; reflexivity|].
  rewrite (validate_malformed _ _ Hbad). simpl.
  unfold get_or_create_collection. rewrite Hmissing. reflexivity.
Qed.

(** [upsert_vectors] never removes a collection. *)
Lemma upsert_vectors_keeps_collections (store : Store) (namespace : string)
    (records : list InputRecord) (name : string) :
  is_Some (store !! name) →
  is_Some (snd (upsert_vectors store namespace records) !! name).
Proof.
  intros Hin. unfold upsert_vectors.
  destruct (negb (truthy namespace)); [exact Hin|].
  destruct records as [|r rest]; [exact Hin|].
  set (cols := validate _ _).
  assert (Hcreated : is_Some (get_or_create_collection store
                                (_collection_name namespace)
                                {["hnsw:space" := "cosine"]} !! name)).
  { unfold get_or_create_collection.
    destruct (store !! _collection_name namespace); [exact Hin|].
    rewrite lookup_insert. case_decide; [eauto|exact Hin]. }
  destruct (ids cols); [exact Hcreated|]. simpl.
  unfold collection_upsert.
  destruct (get_or_create_collection _ _ _ !! _collection_name namespace);
    [|exact Hcreated].
  rewrite lookup_insert. case_decide; [eauto|exact Hcreated].
Qed.

End Props.

(** C9 at a failing input. On an empty store, upserting one malformed record
    into the namespace "demo" reports zero upserted records, yet the store
    is no longer empty: the collection "research_demo" now exists, with no
    record in it. *)
Theorem upsert_vectors_malformed_creates_collection :
  @upsert_vectors Fixtures.config ∅ "demo" [Fixtures.malformed_record]
  = (Return 0, {["research_demo" := Fixtures.fresh_collection]})
  ∧ (∅ : Store) !! "research_demo" = None
  ∧ ({["research_demo" := Fixtures.fresh_collection]} : Store)
      !! "research_demo" = Some Fixtures.fresh_collection.
Proof.
  split; [|split].
  - rewrite (@upsert_vectors_all_malformed Fixtures.config ∅ "demo"
               [Fixtures.malformed_record]).
    + reflexivity.
    + discriminate.
    + discriminate.
    + repeat constructor.
    + apply lookup_empty.
  - apply lookup_empty.
  - apply lookup_singleton_eq.
Qed.

End UpsertVectorsProps.

(** ** Web search: deduplication and domain diversity *)

Module SearchWebProps.
Import SearchWeb SearchWebSpec.

Section Props.
Context `{UrlLib} `{Config} `{SerpApi}.

Lemma domain_count_nil (d : string) : domain_count d [] = 0%nat.
Proof. reflexivity. Qed.

Lemma domain_count_snoc (d : string) (l : list SearchHit) (it : SearchHit) :
  domain_count d (l ++ [it])
  = (domain_count d l + if decide (_domain (url it) = d) then 1 else 0)%nat.
Proof.
  unfold domain_count. rewrite filter_app, length_app.
  rewrite filter_cons, filter_nil.
  destruct (decide (_domain (url it) = d)); reflexivity.
Qed.

Lemma domain_count_take (d : string) (l : list SearchHit) (n : nat) :
  (domain_count d (take n l) ≤ domain_count d l)%nat.
Proof.
  unfold domain_count. revert n.
  induction l as [|x l IH]; intros [|n];
    [reflexivity|reflexivity|cbn [take]; rewrite filter_nil; cbn [length]; lia|].
  cbn [take]. rewrite !filter_cons. specialize (IH n).
  destruct (decide (_domain (url x) = d)); cbn [length]; lia.
Qed.

Lemma diversify_inv_init (limit : Z) : diversify_inv limit ∅ ∅ [].
Proof.
  split.
  - intros u. simpl. rewrite elem_of_nil. set_solver.
  - constructor.
  - intros d. rewrite lookup_empty. reflexivity.
  - intros d. rewrite domain_count_nil. lia.
Qed.

Lemma diversify_inv_step (limit : Z) (seen_urls : gset string)
    (domain_counts : gmap string Z) (out : list SearchHit) (it : SearchHit) :
  diversify_inv limit seen_urls domain_counts out →
  url it ∉ seen_urls →
  default 0 (domain_counts !! _domain (url it)) < limit →
  diversify_inv limit ({[url it]} ∪ seen_urls)
    (<[_domain (url it) :=
         default 0 (domain_counts !! _domain (url it)) + 1]> domain_counts)
    (out ++ [it]).
Proof.
  intros [Hseen Hnodup Hcounts Hcap] Hfresh Hbelow. split.
  - intros u. rewrite fmap_app, elem_of_app, elem_of_union, <- Hseen.
    simpl. rewrite elem_of_singleton, list_elem_of_singleton. tauto.
  - rewrite fmap_app. apply NoDup_app. split; [exact Hnodup|]. split.
    + intros u Hu Hin. simpl in Hin. apply list_elem_of_singleton in Hin.
      subst u. apply Hfresh, Hseen, Hu.
    + simpl. apply NoDup_singleton.
  - intros d. rewrite domain_count_snoc, lookup_insert.
    destruct (decide (_domain (url it) = d)) as [->|Hne]; simpl.
    + rewrite Hcounts. lia.
    + rewrite Hcounts. lia.
  - intros d. rewrite domain_count_snoc.
    destruct (decide (_domain (url it) = d)) as [<-|Hne].
    + rewrite Hcounts in Hbelow. lia.
    + specialize (Hcap d). lia.
Qed.

(** The loop keeps the invariant, so its result has distinct URLs and at
    most [limit] entries per domain. *)
Lemma diversify_loop_spec (limit : Z) (items : list SearchHit) :
  ∀ seen_urls domain_counts out,
    diversify_inv limit seen_urls domain_counts out →
    let res := diversify_loop limit items seen_urls domain_counts out in
    NoDup (url <$> res)
    ∧ (∀ d, Z.of_nat (domain_count d res) ≤ Z.max 0 limit)
    ∧ (length res ≤ length out + length items)%nat.
Proof.
  induction items as [|it rest IH]; intros seen_urls domain_counts out Hinv;
    simpl.
  - destruct Hinv. split; [assumption|]. split; [assumption|lia].
  - assert (Hskip :
      let res := diversify_loop limit rest seen_urls domain_counts out in
      NoDup (url <$> res)
      ∧ (∀ d, Z.of_nat (domain_count d res) ≤ Z.max 0 limit)
      ∧ (length res ≤ length out + S (length rest))%nat).
    { destruct (IH _ _ _ Hinv) as (? & ? & ?). simpl. repeat split; auto; lia. }
    destruct (negb (truthy (url it))); [exact Hskip|]. simpl.
    destruct (bool_decide (url it ∈ seen_urls)) eqn:Hseen; [exact Hskip|].
    apply bool_decide_eq_false in Hseen.
    destruct (negb (truthy (_domain (url it)))); [exact Hskip|].
    destruct (limit <=? default 0 (domain_counts !! _domain (url it)))
      eqn:Hfull; [exact Hskip|].
    apply Z.leb_gt in Hfull.
    destruct (IH _ _ _ (diversify_inv_step _ _ _ _ _ Hinv Hseen Hfull))
      as (Hnd & Hcap & Hlen).
    simpl. split; [exact Hnd|]. split; [exact Hcap|].
    rewrite length_app in Hlen. simpl in Hlen. lia.
Qed.

Lemma _dedupe_and_diversify_spec (items : list SearchHit) (limit : Z) :
  NoDup (url <$> _dedupe_and_diversify items limit)
  ∧ (∀ d, Z.of_nat (domain_count d (_dedupe_and_diversify items limit))
          ≤ Z.max 0 limit).
Proof.
  destruct (diversify_loop_spec limit items ∅ ∅ [] (diversify_inv_init limit))
    as (Hnd & Hcap & _).
  split; assumption.
Qed.

(** The result of each iteration of the retry loop is either empty or a
    prefix of a deduplicated, diversified list. *)
Lemma search_loop_spec (query : string) (k : Z) (remaining : nat) :
  ∀ attempt,
    let res := search_loop query k remaining attempt in
    NoDup (url <$> res)
    ∧ (∀ d, (domain_count d res ≤ 2)%nat)
    ∧ (length res ≤ Z.to_nat k)%nat.
Proof.
  assert (Hnil : NoDup (url <$> ([] : list SearchHit))
                 ∧ (∀ d, (domain_count d [] ≤ 2)%nat)
                 ∧ (length ([] : list SearchHit) ≤ Z.to_nat k)%nat).
  { split; [constructor|].
    split; [intros d; rewrite domain_count_nil; lia|simpl; lia]. }
  induction remaining as [|remaining IH]; intros attempt; simpl;
    [exact Hnil|].
  destruct (serp_get query k attempt) as [organic|code|].
  - destruct (_dedupe_and_diversify_spec (collect_results organic) 2)
      as [Hnd Hcap].
    split; [|split].
    + eapply sublist_NoDup; [exact Hnd|].
      apply fmap_sublist, sublist_take.
    + intros d. pose proof (domain_count_take d
        (_dedupe_and_diversify (collect_results organic) 2) (Z.to_nat k)).
      specialize (Hcap d). lia.
    + rewrite length_take. lia.
  - match goal with
    | |- context [if ?b then _ else _] => destruct b
    end; [apply IH|exact Hnil].
  - apply IH.
Qed.

(** C7, as the code has it. For every query, requested limit [k],
    configuration and behaviour of the search provider, the result of
    [search_web] has pairwise distinct (normalized) URLs, at most 2 entries
    per domain, and at most [max(1, min(k, MAX_SEARCH_RESULTS))] entries,
    which is at most [k] whenever [k] is at least 1. *)
Theorem search_web_diverse (query : string) (k : Z) :
  NoDup (url <$> search_web query k)
  ∧ (∀ d, (domain_count d (search_web query k) ≤ 2)%nat)
  ∧ Z.of_nat (length (search_web query k))
    ≤ Z.max 1 (Z.min k (MAX_SEARCH_RESULTS SETTINGS))
  ∧ (1 ≤ k → Z.of_nat (length (search_web query k)) ≤ k).
Proof.
  unfold search_web.
  destruct (negb (truthy (SERPAPI_API_KEY SETTINGS))).
  - split; [constructor|].
    split; [intros d; rewrite domain_count_nil; lia|]. simpl. lia.
  - destruct (search_loop_spec query
                (Z.max 1 (Z.min k (MAX_SEARCH_RESULTS SETTINGS)))
                (Z.to_nat (MAX_RETRIES SETTINGS + 1)) 0%nat)
      as (Hnd & Hcap & Hlen).
    split; [exact Hnd|]. split; [exact Hcap|]. lia.
Qed.

End Props.

(** Ten hits, six of them on one domain and two naming the same page: two
    of the six survive, the page is listed once, the [ftp] link is gone. *)
Example search_web_ten_hits :
  @search_web Urllib.model Fixtures.config Fixtures.serp_ten "rocq" 8
  = [ {| title := "a"; url := "https://big.example/a"; snippet := "" |};
      {| title := "b"; url := "https://big.example/b"; snippet := "" |};
      {| title := "x"; url := "https://one.example/x"; snippet := "" |};
      {| title := "y"; url := "https://two.example/y"; snippet := "" |} ].
Proof. vm_compute. reflexivity. Qed.

(** The theorem at a requested limit of 3. *)
Lemma search_web_diverse_witness :
  Z.of_nat (length (@search_web Urllib.model Fixtures.config
                      Fixtures.serp_ten "rocq" 3)) ≤ 3.
Proof.
  apply (@search_web_diverse Urllib.model Fixtures.config Fixtures.serp_ten
           "rocq" 3).
  lia.
Defined.

(** With a requested limit of 0 the limit is raised to 1, and one entry
    comes back: more than requested. *)
Lemma search_web_limit_zero :
  @search_web Urllib.model Fixtures.config Fixtures.serp_one "rocq" 0
  = [ {| title := "Documentation"; url := "https://rocq-prover.org/doc";
         snippet := "" |} ]
  ∧ ¬ (Z.of_nat (length (@search_web Urllib.model Fixtures.config
                           Fixtures.serp_one "rocq" 0)) ≤ 0).
Proof.
  assert (Hrun :
    @search_web Urllib.model Fixtures.config Fixtures.serp_one "rocq" 0
    = [ {| title := "Documentation"; url := "https://rocq-prover.org/doc";
           snippet := "" |} ]) by (vm_compute; reflexivity).
  split; [exact Hrun|]. rewrite Hrun. simpl. lia.
Qed.

End SearchWebProps.

(** ** Retrieval: scores and their order *)

Module RetrieveScoreProps.
Import Synthesize Retrieve RetrieveSpec.

(** The context built for position [i] of a query result pairs the [i]-th
    document and metadata with 1 minus the [i]-th distance. *)
Lemma build_contexts_lookup (docs : list (option string))
    (metas : list (option (gmap string string))) (dists : list spec_float) :
  ∀ (i : nat) (c : RetrievedContext),
    build_contexts docs metas dists !! i = Some c →
    ∃ doc meta d,
      docs !! i = Some doc ∧ metas !! i = Some meta ∧ dists !! i = Some d
      ∧ c = {| text := default "" doc; url := meta_get meta "url";
               title := meta_get meta "title";
               score := float_sub float_one d |}.
Proof.
  revert metas dists.
  induction docs as [|doc docs IH]; intros [|meta metas] [|d dists] i c;
    simpl; try (intros Hc; inversion Hc; fail).
  destruct i as [|i]; simpl.
  - intros [= <-]. eauto 8.
  - apply IH.
Qed.

Lemma build_contexts_length (docs : list (option string))
    (metas : list (option (gmap string string))) (dists : list spec_float) :
  length (build_contexts docs metas dists)
  = (length docs `min` (length metas `min` length dists))%nat.
Proof.
  revert metas dists.
  induction docs as [|doc docs IH]; intros [|meta metas] [|d dists];
    simpl; try reflexivity; try lia.
  rewrite IH. reflexivity.
Qed.


Section Props.
Context `{Config} `{VectorIndex} `{EmbeddingBackend}.



End Props.

(** Distances 0.5, 0.25, 0.75 come back as scores 0.75, 0.5, 0.25. *)
Example retrieve_context_three :
  @retrieve_context Fixtures.config Fixtures.index_three
    Fixtures.embedder_const Fixtures.store_demo "demo"
    "what are the key takeaways?" (Some 3)
  = Return Fixtures.three_contexts.
Proof. vm_compute. reflexivity. Qed.


End RetrieveScoreProps.

(** ** The embedder: partial failure and output order *)

Module EmbedChunksProps.
Import SplitChunks EmbedChunks EmbedChunksSpec.

(** *** Batches *)

Lemma concat_slices {A : Type} (l : list A) (n k : nat) :
  concat ((λ j, take n (drop (j * n) l)) <$> seq 0 k) = take (k * n) l.
Proof.
  induction k as [|k IH]; [reflexivity|].
  rewrite seq_S, fmap_app, concat_app, IH. simpl.
  rewrite app_nil_r, take_take_drop. f_equal. lia.
Qed.

Lemma range_step_covers (len n : nat) :
  (0 < n)%nat → (len ≤ (len + n - 1) / n * n)%nat.
Proof.
  intros Hn.
  pose proof (Nat.div_mod_eq (len + n - 1) n) as Hdiv.
  pose proof (Nat.mod_upper_bound (len + n - 1) n) as Hmod.
  nia.
Qed.

(** For a positive batch size, the batches put end to end are the
    sequence. *)
Lemma _batched_concat {A : Type} (l : list A) (n : Z) :
  0 < n →
  ∃ batches, _batched l n = Return batches ∧ concat (snd <$> batches) = l.
Proof.
  intros Hn. unfold _batched.
  destruct (n =? 0) eqn:Hz; [apply Z.eqb_eq in Hz; lia|].
  destruct (n <? 0) eqn:Hneg; [apply Z.ltb_lt in Hneg; lia|].
  eexists. split; [reflexivity|].
  unfold range_step. rewrite <- !list_fmap_compose.
  rewrite (concat_slices l (Z.to_nat n)).
  apply take_ge, range_step_covers. lia.
Qed.

(** *** The position index and the final sort *)

Lemma order_map_from_other (chunks : list Chunk) :
  ∀ (i : Z) (m : gmap string Z) (id : string),
    id ∉ chunk_id <$> chunks →
    order_map_from i chunks m !! id = m !! id.
Proof.
  induction chunks as [|c rest IH]; intros i m id Hid; simpl; [reflexivity|].
  simpl in Hid. apply not_elem_of_cons in Hid as [Hne Hid].
  rewrite (IH _ _ _ Hid). apply lookup_insert_ne. congruence.
Qed.

(** With pairwise distinct identifiers, records whose identifiers follow
    the order of the chunks have strictly increasing sort keys. *)
Lemma position_keys_increasing (chunks : list Chunk) :
  ∀ (i : Z) (m : gmap string Z) (outputs : list EmbeddingRecord),
    NoDup (chunk_id <$> chunks) →
    emb_chunk_id <$> outputs `sublist_of` chunk_id <$> chunks →
    StronglySorted (λ a b, position_key i chunks m a
                           < position_key i chunks m b) outputs
    ∧ Forall (λ r, i ≤ position_key i chunks m r
                   ∧ position_key i chunks m r < i + Z.of_nat (length chunks))
        outputs.
Proof.
  induction chunks as [|c rest IH]; intros i m outputs Hnodup Hsub.
  - simpl in Hsub. apply sublist_nil_r in Hsub.
    apply fmap_nil_inv in Hsub. subst outputs. split; constructor.
  - simpl in Hnodup. apply NoDup_cons in Hnodup as [Hfresh Hnodup].
    simpl in Hsub. apply sublist_cons_r in Hsub as [Hsub|(l' & Heq & Hsub)].
    + destruct (IH (i + 1) (<[chunk_id c := i]> m) outputs Hnodup Hsub)
        as [Hsorted Hrange].
      split; [exact Hsorted|].
      eapply Forall_impl; [exact Hrange|].
      intros r. unfold position_key. simpl. lia.
    + destruct outputs as [|r outs]; [discriminate|].
      simpl in Heq. injection Heq as Hr Heq. subst l'.
      destruct (IH (i + 1) (<[chunk_id c := i]> m) outs Hnodup Hsub)
        as [Hsorted Hrange].
      assert (Hkey : position_key i (c :: rest) m r = i).
      { unfold position_key. simpl. rewrite Hr.
        rewrite (order_map_from_other _ _ _ _ Hfresh).
        rewrite lookup_insert_eq. reflexivity. }
      split.
      * constructor; [exact Hsorted|].
        eapply Forall_impl; [exact Hrange|].
        intros r'. rewrite Hkey. unfold position_key. simpl. lia.
      * constructor.
        -- rewrite Hkey. simpl length. lia.
        -- eapply Forall_impl; [exact Hrange|].
           intros r'. unfold position_key. simpl length. simpl. lia.
Qed.

(** So the final sort leaves such a list of records as it is. *)
Lemma sort_outputs_id (chunks : list Chunk) (outputs : list EmbeddingRecord) :
  NoDup (chunk_id <$> chunks) →
  emb_chunk_id <$> outputs `sublist_of` chunk_id <$> chunks →
  sort_outputs chunks outputs = outputs.
Proof.
  intros Hnodup Hsub. unfold sort_outputs, order_map.
  apply PyProps.sort_by_sorted_id.
  destruct (position_keys_increasing chunks 0 ∅ outputs Hnodup Hsub)
    as [Hsorted _].
  clear Hsub.
  induction Hsorted as [|r l _ IH Hr]; [constructor|].
  constructor; [exact IH|].
  eapply Forall_impl; [exact Hr|].
  intros r' Hlt. unfold ascending, position_key in *.
  apply Z.ltb_ge. lia.
Qed.

(** *** Records of a batch *)

Lemma elem_of_concat {A : Type} (x : A) (ls : list (list A)) :
  (∃ l, x ∈ l ∧ l ∈ ls) → x ∈ concat ls.
Proof.
  intros (l & Hx & Hl). induction Hl as [l ls|l l' ls _ IH]; simpl;
    apply elem_of_app; [left; exact Hx|right; exact (IH Hx)].
Qed.

Lemma records_of_ids (ids : list string) (vecs : list vector) :
  emb_chunk_id <$> records_of ids vecs `sublist_of` ids.
Proof.
  unfold records_of. revert vecs.
  induction ids as [|i ids IH]; intros [|v vecs]; simpl;
    try apply sublist_nil_l.
  apply sublist_skip, IH.
Qed.

Lemma items_of_ids (chunks : list Chunk) :
  fst <$> items_of chunks `sublist_of` chunk_id <$> chunks.
Proof.
  unfold items_of.
  transitivity (fst <$> ((λ c, (chunk_id c, strip (text c))) <$> chunks)).
  - apply fmap_sublist, sublist_filter.
  - rewrite <- list_fmap_compose. reflexivity.
Qed.

Section Props.
Context `{Config} `{EmbeddingBackend}.

Lemma embed_batch_loop_spec (model : string) (start : nat)
    (ids texts : list string) (max_attempts : Z) :
  api_failures_only →
  ∀ (fuel : nat) (attempt backoff : Z) (log : list event),
    0 ≤ attempt →
    (Z.to_nat (max_attempts - attempt) ≤ fuel)%nat →
    ∃ recs log',
      embed_batch_loop model start ids texts max_attempts fuel attempt
        backoff log = (Return recs, log')
      ∧ (recs = [] ∨ ∃ vecs, recs = records_of ids vecs)
      ∧ ∀ a vecs,
          attempt < a ≤ max_attempts →
          succeeds_at model start texts attempt a vecs →
          recs = records_of ids vecs.
Proof.
  intros Hapi.
  induction fuel as [|fuel IH]; intros attempt backoff log Hpos Hfuel;
    simpl; destruct (attempt <? max_attempts) eqn:Hlt;
    try (apply Z.ltb_lt in Hlt; lia);
    try (apply Z.ltb_ge in Hlt; eexists _, _;
         split; [reflexivity|]; split; [left; reflexivity|];
         intros a vecs Ha; lia).
  apply Z.ltb_lt in Hlt.
  assert (Hcases :
    ∀ a vecs, attempt < a ≤ max_attempts →
      succeeds_at model start texts attempt a vecs →
      a = attempt + 1
      ∨ (attempt + 1 < a
         ∧ transient (openai_embed model texts start
                        (Z.to_nat (attempt + 1)))
         ∧ succeeds_at model start texts (attempt + 1) a vecs)).
  { intros a vecs Ha [Hret Hbefore].
    destruct (decide (a = attempt + 1)) as [->|Hne]; [left; reflexivity|].
    right. split; [lia|]. split; [apply Hbefore; lia|].
    split; [exact Hret|]. intros a' Ha'. apply Hbefore. lia. }
  pose proof (Hapi model texts start (Z.to_nat (attempt + 1))) as Hout.
  destruct (openai_embed model texts start (Z.to_nat (attempt + 1)))
    as [vecs0|e|] eqn:Hcall; [|destruct e; try destruct Hout|destruct Hout].
  (* the two retried failures *)
  2, 3: destruct (attempt + 1 <? max_attempts) eqn:Hmore;
    [ destruct (IH (attempt + 1) (backoff * 2)
                  ((log ++ [EvEmbed texts]) ++ [EvSleep backoff]))
        as (recs & log' & Hrun & Hshape & Hsucc); [lia|lia|];
      exists recs, log'; split; [exact Hrun|]; split; [exact Hshape|];
      intros a vecs Ha Hs;
      destruct (Hcases a vecs Ha Hs) as [->|(Hgt & _ & Hs')];
      [ destruct Hs as [Hret _]; congruence
      | apply (Hsucc a vecs); [lia|exact Hs'] ]
    | apply Z.ltb_ge in Hmore;
      eexists _, _; split; [reflexivity|]; split; [left; reflexivity|];
      intros a vecs Ha Hs;
      destruct (Hcases a vecs Ha Hs) as [->|(Hgt & _ & _)]; [|lia];
      destruct Hs as [Hret _]; congruence ].
  - eexists _, _. split; [reflexivity|]. split; [right; eauto|].
    intros a vecs Ha Hsucc.
    destruct (Hcases a vecs Ha Hsucc) as [->|(_ & [Ht|Ht] & _)];
      [|discriminate|discriminate].
    destruct Hsucc as [Hret _]. congruence.
  - eexists _, _. split; [reflexivity|]. split; [left; reflexivity|].
    intros a vecs Ha Hs.
    destruct (Hcases a vecs Ha Hs) as [->|(_ & [Ht|Ht] & _)];
      [|discriminate|discriminate].
    destruct Hs as [Hret _]. congruence.
Qed.

(** The loop over the batches appends the contribution of every batch, in
    the order of the batches. *)
Lemma openai_batches_spec (model : string) (max_attempts : Z) :
  api_failures_only →
  ∀ (batches : list (nat * list (string * string)))
    (outputs : list EmbeddingRecord) (log : list event),
    ∃ per_batch log',
      openai_batches model max_attempts batches outputs log
      = (Return (outputs ++ concat per_batch), log')
      ∧ Forall2 (batch_contribution model max_attempts) batches per_batch.
Proof.
  intros Hapi.
  induction batches as [|[start batch] rest IH]; intros outputs log; simpl.
  - exists [], log. simpl. rewrite app_nil_r. split; [reflexivity|constructor].
  - destruct (embed_batch_loop_spec model start (fst <$> batch)
                (snd <$> batch) max_attempts Hapi
                (Z.to_nat max_attempts) 0 1 log)
      as (recs & log1 & Hrun & Hshape & Hsucc); [lia|lia|].
    rewrite Hrun.
    destruct (IH (outputs ++ recs) log1) as (per_batch & log2 & Hrest & Hall).
    exists (recs :: per_batch), log2. split.
    + rewrite Hrest. simpl. rewrite app_assoc. reflexivity.
    + constructor; [|exact Hall]. split; [exact Hshape|exact Hsucc].
Qed.

Lemma contributions_ids (model : string) (max_attempts : Z)
    (batches : list (nat * list (string * string)))
    (per_batch : list (list EmbeddingRecord)) :
  Forall2 (batch_contribution model max_attempts) batches per_batch →
  emb_chunk_id <$> concat per_batch
  `sublist_of` fst <$> concat (snd <$> batches).
Proof.
  induction 1 as [|b recs batches per_batch [Hshape _] _ IH]; simpl;
    [constructor|].
  rewrite !fmap_app. apply sublist_app; [|exact IH].
  destruct Hshape as [->|[vecs ->]]; [apply sublist_nil_l|].
  apply records_of_ids.
Qed.

(** C8, as the code has it. On the OpenAI path, for a positive batch size
    and chunks with pairwise distinct identifiers, whatever API errors the
    embedding calls end in, [embed_chunks] returns; the identifiers of the
    returned records follow the order of the chunks; and every batch whose
    request is answered within the allowed attempts, after retried
    failures only, has all its records in the result, whatever happens to
    the other batches. *)
Theorem embed_chunks_partial_failure (chunks : list Chunk)
    (model : option string) (batch_size : Z) :
  api_failures_only →
  String.eqb (lower (EMBEDDINGS_PROVIDER SETTINGS)) "sentencetransformers"
  = false →
  0 < batch_size →
  NoDup (chunk_id <$> chunks) →
  ∃ out log,
    embed_chunks chunks model batch_size = (Return out, log)
    ∧ emb_chunk_id <$> out `sublist_of` chunk_id <$> chunks
    ∧ ∀ batches start batch a vecs r,
        _batched (items_of chunks) batch_size = Return batches →
        (start, batch) ∈ batches →
        0 < a ≤ MAX_RETRIES SETTINGS + 1 →
        succeeds_at
          (default (EMBEDDING_MODEL SETTINGS) (opt_truthy model))
          start (snd <$> batch) 0 a vecs →
        r ∈ records_of (fst <$> batch) vecs →
        r ∈ out.
Proof.
  intros Hapi Hprovider Hsize Hnodup.
  destruct (_batched_concat (items_of chunks) batch_size Hsize)
    as (batches & Hbatched & Hconcat).
  assert (Hnone : items_of chunks = [] →
            ∃ out log,
              (Return ([] : list EmbeddingRecord), ([] : list event))
              = (Return out, log)
              ∧ emb_chunk_id <$> out `sublist_of` chunk_id <$> chunks
              ∧ ∀ batches start batch a vecs r,
                  _batched (items_of chunks) batch_size = Return batches →
                  (start, batch) ∈ batches →
                  0 < a ≤ MAX_RETRIES SETTINGS + 1 →
                  succeeds_at
                    (default (EMBEDDING_MODEL SETTINGS) (opt_truthy model))
                    start (snd <$> batch) 0 a vecs →
                  r ∈ records_of (fst <$> batch) vecs →
                  r ∈ out).
  { intros Hitems. exists [], []. split; [reflexivity|].
    split; [apply sublist_nil_l|].
    intros batches' start batch a vecs r Hb Hin _ _ Hr.
    rewrite Hbatched in Hb. injection Hb as <-.
    assert (Hempty : batch = []).
    { assert (Hsub : batch ∈ snd <$> batches)
        by (apply list_elem_of_fmap; exists (start, batch); auto).
      apply list_elem_of_split in Hsub as (l1 & l2 & Hsplit).
      rewrite Hsplit, concat_app, Hitems in Hconcat. simpl in Hconcat.
      apply app_eq_nil in Hconcat as [_ Hconcat].
      apply app_eq_nil in Hconcat as [Hb _]. exact Hb. }
    subst batch. inversion Hr. }
  unfold embed_chunks.
  destruct chunks as [|c0 chunks0] eqn:Hchunks; [exact (Hnone eq_refl)|].
  rewrite <- Hchunks in *. clear Hchunks c0 chunks0.
  destruct (items_of chunks) as [|it items0] eqn:Hitems;
    [exact (Hnone eq_refl)|].
  clear Hnone. rewrite <- Hitems in *. clear Hitems it items0.
  rewrite Hprovider, Hbatched.
  set (model' := match opt_truthy model with
                 | Some m => m
                 | None => EMBEDDING_MODEL SETTINGS
                 end).
  destruct (openai_batches_spec model' (MAX_RETRIES SETTINGS + 1) Hapi
              batches [] [])
    as (per_batch & log & Hrun & Hall).
  rewrite Hrun. simpl.
  assert (Hids : emb_chunk_id <$> concat per_batch
                 `sublist_of` chunk_id <$> chunks).
  { etransitivity; [exact (contributions_ids _ _ _ _ Hall)|].
    rewrite Hconcat. apply items_of_ids. }
  rewrite (sort_outputs_id chunks _ Hnodup Hids).
  exists (concat per_batch), log. split; [reflexivity|].
  split; [exact Hids|].
  intros batches' start batch a vecs r Hb Hin Ha Hsucc Hr.
  injection Hb as <-.
  apply list_elem_of_lookup in Hin as [i Hi].
  destruct (Forall2_lookup_l _ _ _ _ _ Hall Hi) as (recs & Hrecs & _ & Hgood).
  simpl in Hgood.
  replace (default (EMBEDDING_MODEL SETTINGS) (opt_truthy model))
    with model' in Hsucc
    by (unfold model'; destruct (opt_truthy model); reflexivity).
  rewrite <- (Hgood a vecs Ha Hsucc) in Hr.
  apply elem_of_concat. exists recs. split; [exact Hr|].
  apply list_elem_of_lookup. eauto.
Qed.

End Props.

(** Batches of 3 over four chunks with distinct identifiers: the second
    batch is given up after three attempts, the records of the first come
    back in the order of the chunks. *)
Example embed_chunks_second_batch_down :
  fst (@embed_chunks Fixtures.config Fixtures.embedder_batch_3_down
         Fixtures.chunks_distinct None 3)
  = Return [ Fixtures.record "id-x" [float_one];
             Fixtures.record "id-y" [Fixtures.float_0_5];
             Fixtures.record "id-w" [Fixtures.float_0_25] ].
Proof. vm_compute. reflexivity. Qed.

Lemma embed_chunks_partial_failure_witness :
  ∃ out log,
    @embed_chunks Fixtures.config Fixtures.embedder_batch_3_down
      Fixtures.chunks_distinct None 3 = (Return out, log)
    ∧ EmbedChunks.emb_chunk_id <$> out
      `sublist_of` chunk_id <$> Fixtures.chunks_distinct.
Proof.
  destruct (@embed_chunks_partial_failure Fixtures.config
              Fixtures.embedder_batch_3_down Fixtures.chunks_distinct None 3)
    as (out & log & Hrun & Hids & _).
  - intros model texts start attempt. simpl.
    destruct (start =? 3)%nat; exact I.
  - reflexivity.
  - lia.
  - apply (bool_decide_unpack _). vm_compute. reflexivity.
  - exists out, log. split; [exact Hrun|exact Hids].
Defined.

(** Batches of 3 over four chunks of which the first and the third share
    an identifier: the second batch fails at every attempt, and the records
    of the first batch come back with the record of the second chunk in
    front of the record of the first chunk. *)
Lemma embed_chunks_shared_id_reordered :
  (∀ model texts attempt,
     @openai_embed Fixtures.embedder_batch_3_down model texts 3 attempt
     = Raise RateLimitError)
  ∧ fst (@embed_chunks Fixtures.config Fixtures.embedder_batch_3_down
           Fixtures.chunks_shared_id None 3)
    = Return [ Fixtures.record "id-y" [Fixtures.float_0_5];
               Fixtures.record "id-x" [float_one];
               Fixtures.record "id-x" [Fixtures.float_0_25] ]
  ∧ ¬ (["id-y"; "id-x"; "id-x"]
       `sublist_of` chunk_id <$> Fixtures.chunks_shared_id).
Proof.
  split; [reflexivity|]. split; [vm_compute; reflexivity|].
  simpl. intros Hsub.
  repeat match goal with
         | Hs : _ `sublist_of` _ :: _ |- _ =>
             apply sublist_cons_r in Hs as [Hs|(? & [=] & Hs)]; subst
         | Hs : _ :: _ `sublist_of` [] |- _ =>
             apply sublist_nil_r in Hs; discriminate
         end.
Qed.

End EmbedChunksProps.

(** * Part IV, continued: further properties of the pipeline *)

(** ** The page fetcher: effects and provenance *)

Module FetchPageMore.
Import FetchPage FetchPageSpec FetchPageLogSpec.

Lemma backoff_log_snoc_sleep (u : string) (timeout : Z) (k : nat) :
  ∀ backoff,
    EvHttpGet u timeout :: EvSleep backoff
      :: backoff_log u timeout (S k) (backoff * 2)
    = backoff_log u timeout (S (S k)) backoff.
Proof. intros backoff. reflexivity. Qed.

Section Props.
Context `{UrlLib} `{Config} `{Requests}.

(** The loop adds to the log the effects of [k] requests with backoff, [k]
    within the attempts that are left and at least 1 if one is left. *)
Lemma fetch_loop_log (u : string) (timeout max_attempts : Z) (fuel : nat) :
  ∀ (attempt backoff : Z) (log : list event),
    (Z.to_nat (max_attempts - attempt) ≤ fuel)%nat →
    ∃ k : nat,
      snd (fetch_loop u timeout max_attempts fuel attempt backoff log)
      = log ++ backoff_log u timeout k backoff
      ∧ Z.of_nat k ≤ Z.max 0 (max_attempts - attempt)
      ∧ (attempt < max_attempts → (1 ≤ k)%nat).
Proof.
  induction fuel as [|fuel IH]; intros attempt backoff log Hfuel; simpl.
  - exists 0%nat. simpl. rewrite app_nil_r.
    destruct (attempt <? max_attempts) eqn:Hlt;
      [apply Z.ltb_lt in Hlt; lia|apply Z.ltb_ge in Hlt].
    split; [reflexivity|]. split; lia.
  - destruct (attempt <? max_attempts) eqn:Hlt;
      [apply Z.ltb_lt in Hlt|apply Z.ltb_ge in Hlt].
    2: { exists 0%nat. simpl. rewrite app_nil_r.
         split; [reflexivity|]. split; lia. }
    assert (Hone : ∃ k : nat,
              log ++ [EvHttpGet u timeout]
              = log ++ backoff_log u timeout k backoff
              ∧ Z.of_nat k ≤ Z.max 0 (max_attempts - attempt)
              ∧ (attempt < max_attempts → (1 ≤ k)%nat)).
    { exists 1%nat. split; [reflexivity|]. split; lia. }
    assert (Hretry :
      (attempt + 1 <? max_attempts) = true →
      ∃ k : nat,
        snd (fetch_loop u timeout max_attempts fuel (attempt + 1)
               (backoff * 2)
               ((log ++ [EvHttpGet u timeout]) ++ [EvSleep backoff]))
        = log ++ backoff_log u timeout k backoff
        ∧ Z.of_nat k ≤ Z.max 0 (max_attempts - attempt)
        ∧ (attempt < max_attempts → (1 ≤ k)%nat)).
    { intros Hmore. apply Z.ltb_lt in Hmore.
      destruct (IH (attempt + 1) (backoff * 2)
                  ((log ++ [EvHttpGet u timeout]) ++ [EvSleep backoff]))
        as (k & Hlog & Hk & Hpos); [lia|].
      destruct k as [|k]; [specialize (Hpos Hmore); lia|].
      exists (S (S k)). split; [|split; lia].
      rewrite Hlog, <- !app_assoc. reflexivity. }
    destruct (requests_get u timeout (Z.to_nat (attempt + 1))) as [resp|].
    + destruct (negb (status_code resp =? 200)).
      * destruct (retryable_status (status_code resp)); simpl;
          [|exact Hone].
        destruct (attempt + 1 <? max_attempts) eqn:Hmore;
          [apply Hretry; reflexivity|exact Hone].
      * destruct (negb (is_html_ctype _)); exact Hone.
    + destruct (attempt + 1 <? max_attempts) eqn:Hmore;
        [apply Hretry; reflexivity|exact Hone].
Qed.

(** X1. The effects of [fetch_page] are those of [k] requests separated by
    sleeps of 1, 2, 4, ... seconds, with [k] at most [MAX_RETRIES + 1]; no
    request at all is made for a URL that is not http(s), and the log never
    ends in a sleep. *)
Theorem fetch_page_backoff (u : string) (timeout_sec : option Z) :
  ∃ k : nat,
    snd (fetch_page u timeout_sec)
    = backoff_log u
        (or_default timeout_sec (REQUEST_TIMEOUT_SECONDS SETTINGS)) k 1
    ∧ Z.of_nat k ≤ Z.max 0 (MAX_RETRIES SETTINGS + 1)
    ∧ (_is_http_url u = false → k = 0%nat)
    ∧ (_is_http_url u = true → 0 ≤ MAX_RETRIES SETTINGS → (1 ≤ k)%nat).
Proof.
  unfold fetch_page. destruct (_is_http_url u); simpl.
  - destruct (fetch_loop_log u
                (or_default timeout_sec (REQUEST_TIMEOUT_SECONDS SETTINGS))
                (MAX_RETRIES SETTINGS + 1)
                (Z.to_nat (MAX_RETRIES SETTINGS + 1)) 0 1 [])
      as (k & Hlog & Hk & Hpos); [lia|].
    exists k. split; [exact Hlog|]. split; [lia|].
    split; [discriminate|]. intros _ Hretries. apply Hpos. lia.
  - exists 0%nat. split; [reflexivity|]. split; [lia|].
    split; [reflexivity|discriminate].
Qed.



End Props.

(** A server that answers 503 at each of the three attempts: the page
    reports 503 with no body, after sleeps of 1 and 2 seconds. *)
Example fetch_page_exhausted :
  @fetch_page Urllib.model Fixtures.config Fixtures2.net_unavailable
    "https://example.com/" None
  = (Return {| url := "https://example.com/"; html := ""; status := 503 |},
     backoff_log "https://example.com/" 15 3 1).
Proof. reflexivity. Qed.

End FetchPageMore.

(** ** Strings *)

Module StrLemmas.

Lemma app_cons (x : ascii) (a b : string) :
  String x a +:+ b = String x (a +:+ b).
Proof. reflexivity. Qed.

Lemma app_nil_l (b : string) : "" +:+ b = b.
Proof. reflexivity. Qed.

Lemma app_assoc (a b c : string) : (a +:+ b) +:+ c = a +:+ (b +:+ c).
Proof.
  induction a as [|x a IH]; [reflexivity|]. rewrite !app_cons, IH. reflexivity.
Qed.

Lemma app_nil_r (a : string) : a +:+ "" = a.
Proof.
  induction a as [|x a IH]; [reflexivity|]. rewrite app_cons, IH. reflexivity.
Qed.

Lemma length_app (a b : string) :
  String.length (a +:+ b) = (String.length a + String.length b)%nat.
Proof.
  induction a as [|x a IH]; [reflexivity|].
  rewrite app_cons. simpl. rewrite IH. reflexivity.
Qed.

Lemma length_take_str (n : nat) (s : string) :
  String.length (take_str n s) = (n `min` String.length s)%nat.
Proof.
  revert s. induction n as [|n IH]; intros [|c s]; simpl; try reflexivity.
  rewrite IH. reflexivity.
Qed.

End StrLemmas.

(** ** The chunker: positions and identifiers *)

Module SplitChunksMore.
Import SplitChunks SplitChunksSpec SplitChunksMoreSpec.

(** *** Decimal numerals *)

Lemma pretty_N_char_digit (x : N) :
  all_digits (String (pretty_N_char x) "") = true.
Proof.
  unfold pretty_N_char.
  repeat match goal with
         | |- context [match ?y with _ => _ end] => destruct y
         end; reflexivity.
Qed.

Lemma all_digits_app (s t : string) :
  all_digits (s +:+ t) = all_digits s && all_digits t.
Proof.
  induction s as [|c s IH]; [reflexivity|].
  rewrite StrLemmas.app_cons. simpl. rewrite IH, andb_assoc. reflexivity.
Qed.

(** The digits of a number are put in front of the accumulator. *)
Lemma pretty_N_go_digits (x : N) :
  ∀ s, ∃ d, pretty_N_go x s = d +:+ s ∧ all_digits d = true.
Proof.
  induction (N.lt_wf_0 x) as [x _ IH]; intros s.
  destruct (decide (x = 0)%N) as [->|Hx].
  - exists "". rewrite pretty_N_go_0. split; reflexivity.
  - rewrite pretty_N_go_step by lia.
    destruct (IH (x `div` 10)%N
                 ltac:(apply N.div_lt; lia)
                 (String (pretty_N_char (x `mod` 10)) s))
      as (d & Hd & Hdigits).
    exists (d +:+ String (pretty_N_char (x `mod` 10)) "").
    split.
    + rewrite Hd. rewrite StrLemmas.app_assoc. reflexivity.
    + rewrite all_digits_app, Hdigits. apply pretty_N_char_digit.
Qed.

Lemma pretty_nat_digits (n : nat) : all_digits (pretty n) = true.
Proof.
  unfold pretty, pretty_nat, pretty, pretty_N.
  destruct (decide (N.of_nat n = 0)%N); [reflexivity|].
  destruct (pretty_N_go_digits (N.of_nat n) "") as (d & -> & Hd).
  rewrite all_digits_app, Hd. reflexivity.
Qed.

(** Two numerals followed by a bar and anything: equal strings have equal
    numerals. *)
Lemma digits_bar_inj (d1 d2 p1 p2 : string) :
  all_digits d1 = true → all_digits d2 = true →
  d1 +:+ "|" +:+ p1 = d2 +:+ "|" +:+ p2 → d1 = d2.
Proof.
  revert d2. induction d1 as [|c1 d1 IH]; intros [|c2 d2] H1 H2 Heq;
    rewrite ?StrLemmas.app_cons, ?StrLemmas.app_nil_l in Heq;
    simpl in H1, H2; try reflexivity.
  - injection Heq as Hc _. subst c2. discriminate.
  - injection Heq as Hc _. subst c1. discriminate.
  - injection Heq as -> Heq.
    apply andb_true_iff in H1 as [_ H1]. apply andb_true_iff in H2 as [_ H2].
    f_equal. exact (IH d2 H1 H2 Heq).
Qed.

(** For one URL, the hashed string determines the position. *)
Lemma id_source_order_inj (u : string) (o1 o2 : nat) (p1 p2 : string) :
  id_source u o1 p1 = id_source u o2 p2 → o1 = o2.
Proof.
  unfold id_source. intros Heq.
  apply String.app_inj in Heq.
  rewrite !StrLemmas.app_cons, !StrLemmas.app_nil_l in Heq.
  injection Heq as Heq.
  apply pretty_nat_inj.
  exact (digits_bar_inj _ _ _ _ (pretty_nat_digits o1) (pretty_nat_digits o2)
           Heq).
Qed.

(** *** Positions *)

Section Props.
Context `{Config} `{TextSplitter} `{Hashlib}.

(** The chunks built from position [start] on: their texts are the
    non-blank trimmed pieces, in order, and their positions increase. *)
Lemma chunk_pieces_texts (u ttl : string) (pieces : list string) :
  ∀ start,
    text <$> chunk_pieces u ttl start pieces
    = filter (λ t, t ≠ "") (strip <$> pieces).
Proof.
  induction pieces as [|piece rest IH]; intros start; simpl; [reflexivity|].
  rewrite filter_cons.
  destruct (truthy (strip piece)) eqn:Ht; simpl.
  - apply PyProps.truthy_true in Ht.
    destruct (decide (strip piece ≠ "")) as [_|Hn]; [|destruct (Hn Ht)].
    f_equal. apply IH.
  - apply PyProps.truthy_false in Ht.
    destruct (decide (strip piece ≠ "")) as [Hn|_]; [destruct (Hn Ht)|].
    apply IH.
Qed.

Lemma chunk_pieces_sorted (u ttl : string) (pieces : list string) :
  ∀ start,
    StronglySorted (λ a b, (order a < order b)%nat)
      (chunk_pieces u ttl start pieces)
    ∧ Forall (λ c, (start ≤ order c)%nat) (chunk_pieces u ttl start pieces).
Proof.
  induction pieces as [|piece rest IH]; intros start; simpl;
    [split; constructor|].
  destruct (IH (S start)) as [Hsorted Hfrom].
  assert (Hweaker : Forall (λ c, (start ≤ order c)%nat)
                      (chunk_pieces u ttl (S start) rest)).
  { eapply Forall_impl; [exact Hfrom|]. intros c Hc. simpl in Hc. lia. }
  destruct (truthy (strip piece)); simpl; [|split; assumption].
  split.
  - constructor; [exact Hsorted|].
    eapply Forall_impl; [exact Hfrom|]. intros c Hc. simpl in *. lia.
  - constructor; [simpl; lia|exact Hweaker].
Qed.

(** X3. When the splitter returns [pieces] for a non-empty document,
    [split_chunks] returns one chunk per piece that is not blank, and no
    other: the texts of the chunks are the trimmed non-blank pieces in
    order, the [order] of a chunk is the position of its piece among all
    pieces (so positions increase, with gaps where blank pieces were
    dropped), and URL and title are those given. *)
Theorem split_chunks_pieces (doc_text u ttl : string)
    (chunk_size_tokens overlap_tokens : option Z) (pieces : list string) :
  doc_text ≠ "" →
  split_text (or_default chunk_size_tokens (CHUNK_SIZE_TOKENS SETTINGS))
    (or_default overlap_tokens (CHUNK_OVERLAP_TOKENS SETTINGS)) doc_text
  = Return pieces →
  ∃ chunks,
    split_chunks doc_text u ttl chunk_size_tokens overlap_tokens
    = Return chunks
    ∧ text <$> chunks = filter (λ t, t ≠ "") (strip <$> pieces)
    ∧ StronglySorted (λ a b, (order a < order b)%nat) chunks
    ∧ ∀ c, c ∈ chunks →
           (∃ piece, pieces !! order c = Some piece ∧ text c = strip piece)
           ∧ url c = u ∧ title c = ttl.
Proof.
  intros Hdoc Hsplit. unfold split_chunks.
  apply PyProps.truthy_true in Hdoc. rewrite Hdoc, Hsplit. simpl.
  eexists. split; [reflexivity|].
  split; [apply chunk_pieces_texts|].
  split; [apply chunk_pieces_sorted|].
  intros c Hc. clear Hsplit.
  assert (Hgen : ∀ start l,
            c ∈ chunk_pieces u ttl start l →
            (∃ piece, l !! (order c - start)%nat = Some piece
                      ∧ text c = strip piece)
            ∧ (start ≤ order c)%nat ∧ url c = u ∧ title c = ttl).
  { intros start l. revert start.
    induction l as [|piece rest IH]; intros start Hin; simpl in Hin;
      [inversion Hin|].
    assert (Hrest : c ∈ chunk_pieces u ttl (S start) rest →
              (∃ p, (piece :: rest) !! (order c - start)%nat = Some p
                    ∧ text c = strip p)
              ∧ (start ≤ order c)%nat ∧ url c = u ∧ title c = ttl).
    { intros Hin'. destruct (IH _ Hin') as ((p & Hp & Ht) & Hle & Hu & Htt).
      split; [|split; [lia|auto]]. exists p. split; [|exact Ht].
      replace (order c - start)%nat with (S (order c - S start)) by lia.
      exact Hp. }
    destruct (truthy (strip piece)); simpl in Hin; [|auto].
    apply elem_of_cons in Hin as [->|Hin]; [|auto].
    simpl. split; [|split; [lia|auto]].
    exists piece. rewrite Nat.sub_diag. auto. }
  destruct (Hgen 0%nat pieces Hc) as ((piece & Hp & Ht) & _ & Hu & Htt).
  rewrite Nat.sub_0_r in Hp. eauto.
Qed.

(** Each chunk carries the hash of its own hashed string. *)
Lemma chunk_pieces_hashed (u ttl : string) (pieces : list string) :
  ∀ start c,
    c ∈ chunk_pieces u ttl start pieces →
    chunk_id c = _hash_id (hashed_source c).
Proof.
  induction pieces as [|piece rest IH]; intros start c Hin; simpl in Hin;
    [inversion Hin|].
  destruct (truthy (strip piece)); simpl in Hin; [|eauto].
  apply elem_of_cons in Hin as [->|Hin]; [reflexivity|eauto].
Qed.

Lemma chunk_pieces_url (u ttl : string) (pieces : list string) :
  ∀ start c, c ∈ chunk_pieces u ttl start pieces → url c = u.
Proof.
  induction pieces as [|piece rest IH]; intros start c Hin; simpl in Hin;
    [inversion Hin|].
  destruct (truthy (strip piece)); simpl in Hin; [|eauto].
  apply elem_of_cons in Hin as [->|Hin]; [reflexivity|eauto].
Qed.

(** X4. The identifiers of the chunks of one document are pairwise
    distinct, provided the hash does not collide on the strings hashed for
    them: the hashed string contains the position, and positions differ. *)
Theorem split_chunks_ids_distinct (doc_text u ttl : string)
    (chunk_size_tokens overlap_tokens : option Z) (chunks : list Chunk) :
  split_chunks doc_text u ttl chunk_size_tokens overlap_tokens
  = Return chunks →
  collision_free chunks →
  NoDup (chunk_id <$> chunks).
Proof.
  unfold split_chunks. intros Hrun Hfree.
  destruct (truthy doc_text); simpl in Hrun;
    [|injection Hrun as <-; constructor].
  destruct (split_text _ _ doc_text) as [pieces| |]; try discriminate.
  injection Hrun as <-.
  pose proof (proj1 (chunk_pieces_sorted u ttl pieces 0%nat)) as Hsorted.
  assert (Hid : ∀ c, c ∈ chunk_pieces u ttl 0 pieces →
                     chunk_id c = _hash_id (hashed_source c)
                     ∧ url c = u)
    by (intros c Hc; split;
        [exact (chunk_pieces_hashed _ _ _ _ _ Hc)
        |exact (chunk_pieces_url _ _ _ _ _ Hc)]).
  induction Hsorted as [|c l Hsorted IH Hc]; simpl; [constructor|].
  constructor.
  - intros Hin. apply list_elem_of_fmap in Hin as (c' & Heq & Hc').
    rewrite Forall_forall in Hc. specialize (Hc c' Hc').
    assert (Hsame : hashed_source c = hashed_source c').
    { apply Hfree; [left|right; exact Hc'|].
      destruct (Hid c) as [<- _]; [left|].
      destruct (Hid c') as [<- _]; [right; exact Hc'|]. exact Heq. }
    unfold hashed_source in Hsame.
    destruct (Hid c) as [_ Hu]; [left|].
    destruct (Hid c') as [_ Hu']; [right; exact Hc'|].
    rewrite Hu, Hu' in Hsame.
    apply id_source_order_inj in Hsame. lia.
  - apply IH.
    + intros c1 c2 Hc1 Hc2. apply Hfree; right; assumption.
    + intros c' Hc'. apply Hid. right. exact Hc'.
Qed.

End Props.

Lemma split_chunks_pieces_witness :
  ∃ chunks,
    @split_chunks Fixtures.config Fixtures.line_splitter Fixtures.toy_digest
      Fixtures.sample_text "https://example.com/demo" "Demo" None None
    = Return chunks
    ∧ text <$> chunks
      = ["Multimodal models combine text and images.";
         "They often use contrastive pretraining."]
    ∧ order <$> chunks = [0; 2]%nat.
Proof.
  destruct (@split_chunks_pieces Fixtures.config Fixtures.line_splitter
              Fixtures.toy_digest Fixtures.sample_text
              "https://example.com/demo" "Demo" None None
              (Urllib.split_all "010" Fixtures.sample_text))
    as (chunks & Hrun & Htexts & _); [discriminate|reflexivity|].
  exists chunks. split; [exact Hrun|]. split.
  - rewrite Htexts. vm_compute. reflexivity.
  - assert (Hchunks : Return chunks = Return Fixtures.sample_chunks)
      by (rewrite <- Hrun; vm_compute; reflexivity).
    injection Hchunks as ->. reflexivity.
Defined.

Lemma split_chunks_ids_distinct_witness :
  NoDup (chunk_id <$> Fixtures.sample_chunks).
Proof.
  apply (@split_chunks_ids_distinct Fixtures.config Fixtures.line_splitter
           Fixtures.toy_digest Fixtures.sample_text
           "https://example.com/demo" "Demo" None None).
  - vm_compute. reflexivity.
  - intros c1 c2 H1 H2 Heq. unfold Fixtures.sample_chunks in H1, H2.
    repeat match goal with
           | Hin : _ ∈ _ :: _ |- _ => apply elem_of_cons in Hin as [->|Hin]
           | Hin : _ ∈ [] |- _ => inversion Hin
           end;
      first [reflexivity | vm_compute in Heq; discriminate].
Defined.

End SplitChunksMore.

(** ** The answer synthesizer: content, prompt and citations *)

Module SynthesizeMore.
Import Synthesize SynthesizeSpec SynthesizeMoreSpec.

(** *** First occurrences *)

Lemma dedupe_first_sublist {A : Type} (key : A → string) (l : list A) :
  dedupe_first key l `sublist_of` l.
Proof.
  induction l as [|x r IH]; simpl; [constructor|].
  apply sublist_skip. etransitivity; [apply sublist_filter|exact IH].
Qed.

Lemma dedupe_first_NoDup {A : Type} (key : A → string) (l : list A) :
  NoDup (key <$> dedupe_first key l).
Proof.
  induction l as [|x r IH]; simpl; [constructor|].
  constructor.
  - intros Hin. apply list_elem_of_fmap in Hin as (y & Hkey & Hy).
    apply list_elem_of_filter in Hy as [Hne _]. congruence.
  - eapply sublist_NoDup; [exact IH|].
    apply fmap_sublist, sublist_filter.
Qed.

Lemma dedupe_first_keys {A : Type} (key : A → string) (l : list A) (k : string) :
  k ∈ key <$> l → k ∈ key <$> dedupe_first key l.
Proof.
  induction l as [|x r IH]; simpl; [auto|].
  intros Hin. apply elem_of_cons in Hin as [->|Hin]; [left|].
  destruct (decide (k = key x)) as [->|Hne]; [left|right].
  apply list_elem_of_fmap in IH as (y & -> & Hy); [|exact Hin].
  apply list_elem_of_fmap. exists y. split; [reflexivity|].
  apply list_elem_of_filter. split; assumption.
Qed.

Section Props.
Context `{Config} `{ChatBackend}.

(** X5. Whenever [synthesize_answer] returns an answer, its content has no
    leading or trailing whitespace, whichever provider produced it. *)
Theorem synthesize_answer_content_trimmed (question style : string)
    (ctxs : list RetrievedContext) (temperature : spec_float)
    (ans : Answer) (log : list event) :
  synthesize_answer question ctxs style temperature = (Return ans, log) →
  strip (content ans) = content ans.
Proof.
  unfold synthesize_answer.
  destruct ctxs as [|c rest];
    [intros Heq; injection Heq as <- _; vm_compute; reflexivity|].
  cbv zeta.
  destruct (String.eqb _ "openai");
    [|destruct (String.eqb _ "ollama"); [|destruct (String.eqb _ "groq")]].
  - destruct (openai_chat _ _ _ _); simpl; intros Heq; try discriminate.
    injection Heq as <- _. apply PyProps.strip_idem.
  - unfold ollama_content.
    destruct (ollama_post "http://localhost:11434/api/chat" _ _ _ _)
      as [r| |]; try discriminate.
    assert (Hfinish : ∀ (r' : OllamaReply) (log' : list event),
      match
        (if (400 <=? ollama_status r') && (ollama_status r' <? 600)
         then (Raise RequestException, log')
         else (Return
                 (strip
                    match opt_truthy (ollama_message_content r') with
                    | Some s => s
                    | None => match opt_truthy (ollama_response r') with
                              | Some s => s
                              | None => ""
                              end
                    end), log'))
      with
      | (Return content, lg) =>
          (Return {| content := content;
                     citations := _dedupe_urls (c :: rest) |}, lg)
      | (Raise e, lg) => (Raise e, lg)
      | (OutOfFuel, lg) => (OutOfFuel, lg)
      end = (Return ans, log) →
      strip (content ans) = content ans).
    { intros r' log'.
      destruct ((400 <=? ollama_status r') && (ollama_status r' <? 600));
        [discriminate|].
      intros Heq. injection Heq as <- _. apply PyProps.strip_idem. }
    destruct (ollama_status r =? 404); [|apply Hfinish].
    destruct (ollama_post "http://localhost:11434/api/generate" _ _ _ _)
      as [r2| |]; try discriminate.
    apply Hfinish.
  - destruct (groq_chat _ _ _ _); simpl; intros Heq; try discriminate.
    injection Heq as <- _. apply PyProps.strip_idem.
  - discriminate.
Qed.

(** X6. Every chat request [synthesize_answer] makes carries the question,
    the style and one and the same context block, which is the formatted
    contexts cut to at most 12000 characters. *)
Theorem synthesize_answer_prompt_bounded (question style : string)
    (ctxs : list RetrievedContext) (temperature : spec_float) :
  ∃ block,
    Z.of_nat (String.length block) ≤ 12000
    ∧ block = take_str (Z.to_nat 12000) (_format_contexts ctxs)
    ∧ Forall (chat_request_of question block style)
        (snd (synthesize_answer question ctxs style temperature)).
Proof.
  exists (take_str (Z.to_nat 12000) (_format_contexts ctxs)).
  split; [rewrite StrLemmas.length_take_str; lia|]. split; [reflexivity|].
  unfold synthesize_answer.
  destruct ctxs as [|c rest]; [constructor|].
  cbv zeta.
  assert (Hblock :
    (if 12000 <? Z.of_nat (String.length (_format_contexts (c :: rest)))
     then take_str (Z.to_nat 12000) (_format_contexts (c :: rest))
     else _format_contexts (c :: rest))
    = take_str (Z.to_nat 12000) (_format_contexts (c :: rest))).
  { destruct (12000 <? _) eqn:Hlen; [reflexivity|].
    apply Z.ltb_ge in Hlen. symmetry.
    generalize dependent (_format_contexts (c :: rest)). intros s Hlen.
    assert (Hn : (String.length s ≤ Z.to_nat 12000)%nat) by lia.
    revert Hn. generalize (Z.to_nat 12000). clear.
    induction s as [|x s IH]; intros [|n] Hn; simpl in *;
      try reflexivity; try lia.
    rewrite IH by lia. reflexivity. }
  rewrite Hblock.
  set (block := take_str (Z.to_nat 12000) (_format_contexts (c :: rest))).
  fold (user_prompt_of question block style).
  set (user := user_prompt_of question block style).
  assert (Hfirst : ∀ p, chat_request_of question block style
                          (EvChat p sys_prompt user))
    by (intros p; left; exists p; reflexivity).
  assert (Hsecond : chat_request_of question block style
                      (EvChat "ollama" ""
                         (sys_prompt +:+ nl +:+ nl +:+ user)))
    by (right; reflexivity).
  assert (Hone : ∀ p, Forall (chat_request_of question block style)
                        [EvChat p sys_prompt user])
    by (intros p; constructor; [apply Hfirst|constructor]).
  assert (Htwo : Forall (chat_request_of question block style)
                   ([EvChat "ollama" sys_prompt user]
                    ++ [EvChat "ollama" ""
                          (sys_prompt +:+ nl +:+ nl +:+ user)]))
    by (constructor; [apply Hfirst|constructor; [exact Hsecond|constructor]]).
  destruct (String.eqb _ "openai");
    [|destruct (String.eqb _ "ollama"); [|destruct (String.eqb _ "groq")]].
  - destruct (openai_chat _ _ _ _); simpl; apply Hone.
  - unfold ollama_content.
    destruct (ollama_post "http://localhost:11434/api/chat" _ _ _ _)
      as [r| |]; simpl; try apply Hone.
    destruct (ollama_status r =? 404).
    + destruct (ollama_post "http://localhost:11434/api/generate" _ _ _ _)
        as [r2| |]; simpl; try exact Htwo.
      destruct ((400 <=? ollama_status r2) && (ollama_status r2 <? 600));
        simpl; exact Htwo.
    + destruct ((400 <=? ollama_status r) && (ollama_status r <? 600));
        simpl; apply Hone.
  - destruct (groq_chat _ _ _ _); simpl; apply Hone.
  - constructor.
Qed.

(** X7. The citations of a returned answer never repeat a URL and never
    have a blank URL; each is the trimmed [{url, title}] of one of the
    contexts, and every context with a non-blank URL has its URL cited. *)
Theorem synthesize_answer_citations_sound (question style : string)
    (ctxs : list RetrievedContext) (temperature : spec_float)
    (ans : Answer) (log : list event) :
  synthesize_answer question ctxs style temperature = (Return ans, log) →
  NoDup (cite_url <$> citations ans)
  ∧ (∀ cit, cit ∈ citations ans →
            cite_url cit ≠ "" ∧ ∃ c, c ∈ ctxs ∧ cit = trimmed_pair_of c)
  ∧ (∀ c, c ∈ ctxs → strip (url c) ≠ "" →
          strip (url c) ∈ cite_url <$> citations ans)
  ∧ (length (citations ans) ≤ length ctxs)%nat.
Proof.
  intros Hrun.
  rewrite (SynthesizeProps.synthesize_answer_citations _ _ _ _ _ _ Hrun).
  rewrite SynthesizeProps._dedupe_urls_spec.
  split; [apply dedupe_first_NoDup|]. split; [|split].
  - intros cit Hcit.
    pose proof (elem_of_sublist _ _ _ Hcit
                  (dedupe_first_sublist cite_url (citable ctxs))) as Hin.
    unfold citable in Hin. apply list_elem_of_filter in Hin as [Hne Hin].
    split; [exact Hne|].
    apply list_elem_of_fmap in Hin as (c & -> & Hc). eauto.
  - intros c Hc Hne. apply dedupe_first_keys.
    apply list_elem_of_fmap. exists (trimmed_pair_of c).
    split; [reflexivity|].
    unfold citable. apply list_elem_of_filter. split; [exact Hne|].
    apply list_elem_of_fmap. eauto.
  - etransitivity; [apply sublist_length, dedupe_first_sublist|].
    unfold citable. etransitivity; [apply length_filter|].
    rewrite length_fmap. reflexivity.
Qed.

End Props.

Lemma synthesize_answer_content_trimmed_witness :
  strip "An answer." = "An answer.".
Proof.
  apply (@synthesize_answer_content_trimmed Fixtures.config
           Fixtures.chat_fixed "What is known?" "concise" Fixtures.ctxs_abac
           float_0_2
           {| content := "An answer."; citations := Fixtures.citations_abc |}
           (snd (@synthesize_answer Fixtures.config Fixtures.chat_fixed
                   "What is known?" Fixtures.ctxs_abac "concise" float_0_2))).
  vm_compute. reflexivity.
Defined.

Lemma synthesize_answer_citations_sound_witness :
  NoDup (cite_url <$> Fixtures.citations_abc).
Proof.
  apply (@synthesize_answer_citations_sound Fixtures.config
           Fixtures.chat_fixed "What is known?" "concise" Fixtures.ctxs_abac
           float_0_2
           {| content := "An answer."; citations := Fixtures.citations_abc |}
           (snd (@synthesize_answer Fixtures.config Fixtures.chat_fixed
                   "What is known?" Fixtures.ctxs_abac "concise" float_0_2))).
  vm_compute. reflexivity.
Defined.

End SynthesizeMore.

(** ** Retrieval and QA: blank questions and the origin of citations *)

Module RetrieveMore.
Import Synthesize SynthesizeSpec Retrieve QA.

Lemma or_default_idem (x : option Z) (d : Z) :
  or_default (Some (or_default x d)) d = or_default x d.
Proof.
  unfold or_default. destruct x as [v|].
  - destruct (v =? 0) eqn:Hv; [|rewrite Hv; reflexivity].
    destruct (d =? 0) eqn:Hd; [|reflexivity].
    apply Z.eqb_eq in Hd. congruence.
  - destruct (d =? 0) eqn:Hd; [|reflexivity].
    apply Z.eqb_eq in Hd. congruence.
Qed.

Section Props.
Context `{Config} `{VectorIndex} `{EmbeddingBackend} `{ChatBackend}.

(** X8. A question of white space only retrieves nothing, and
    [answer_question] answers it with the fixed message, without citations
    and without a chat request, for every store, namespace, [top_k],
    configuration and backend. *)
Theorem blank_question_behaviour (store : Store)
    (namespace question : string) (top_k : option Z) :
  strip question = "" →
  retrieve_context store namespace question top_k = Return []
  ∧ answer_question store question namespace top_k
    = (Return {| content := no_relevant_context_message; citations := [] |},
       []).
Proof.
  intros Hblank.
  assert (Hretr : ∀ k, retrieve_context store namespace question k
                       = Return []).
  { intros k. unfold retrieve_context.
    destruct (negb (truthy namespace) || negb (truthy question));
      [reflexivity|].
    destruct (store !! _collection_name namespace); [|reflexivity].
    unfold _embed_query. rewrite Hblank. reflexivity. }
  split; [apply Hretr|].
  unfold answer_question. rewrite Hretr. reflexivity.
Qed.

(** What [retrieve_context] returns is empty or the sorted contexts of the
    result of one query, made with the embedding of the question. *)
Lemma retrieve_context_query (store : Store) (namespace question : string)
    (top_k : option Z) (out : list RetrievedContext) :
  retrieve_context store namespace question top_k = Return out →
  out = []
  ∨ ∃ collection qvec res,
      store !! _collection_name namespace = Some collection
      ∧ _embed_query question = Return qvec
      ∧ collection_query collection qvec
          (Z.max 1 (or_default top_k (RETRIEVAL_TOP_K SETTINGS)))
        = Return res
      ∧ out = sort_by_reverse score float_ltb
                (build_contexts (documents res) (metadatas res)
                   (distances res)).
Proof.
  unfold retrieve_context.
  destruct (negb (truthy namespace) || negb (truthy question));
    [intros [= <-]; left; reflexivity|].
  destruct (store !! _collection_name namespace) as [collection|];
    [|intros [= <-]; left; reflexivity].
  destruct (_embed_query question) as [[|x qvec]| |]; try discriminate;
    [intros [= <-]; left; reflexivity|].
  destruct (collection_query collection (x :: qvec) _) as [res| |] eqn:Hq;
    try discriminate.
  intros [= <-]. right. eauto 8.
Qed.

(** X9. Every citation of an answer of [answer_question] comes from the
    vector index: the collection of the namespace exists, it was queried
    with the embedding of the question for
    [max(1, top_k or RETRIEVAL_TOP_K)] neighbours, and the citation is the
    trimmed [url] and [title] metadata of one of the neighbours reported,
    with a URL that is not blank. *)
Theorem answer_question_citations_from_index (store : Store)
    (question namespace : string) (top_k : option Z)
    (ans : Answer) (log : list event) (cit : Citation) :
  answer_question store question namespace top_k = (Return ans, log) →
  cit ∈ citations ans →
  ∃ collection qvec res i meta,
    store !! _collection_name namespace = Some collection
    ∧ _embed_query question = Return qvec
    ∧ collection_query collection qvec
        (Z.max 1 (or_default top_k (RETRIEVAL_TOP_K SETTINGS)))
      = Return res
    ∧ metadatas res !! i = Some meta
    ∧ cite_url cit = strip (meta_get meta "url")
    ∧ cite_title cit = strip (meta_get meta "title")
    ∧ cite_url cit ≠ "".
Proof.
  unfold answer_question.
  destruct (retrieve_context store namespace question _)
    as [ctxs| |] eqn:Hretr; try discriminate.
  destruct ctxs as [|c0 rest];
    [intros [= <- _] Hin; simpl in Hin; inversion Hin|].
  intros Hrun Hin.
  rewrite (SynthesizeProps.synthesize_answer_citations _ _ _ _ _ _ Hrun) in Hin.
  rewrite SynthesizeProps._dedupe_urls_spec in Hin.
  pose proof (elem_of_sublist _ _ _ Hin
                (SynthesizeMore.dedupe_first_sublist cite_url _)) as Hcit.
  unfold citable in Hcit. apply list_elem_of_filter in Hcit as [Hne Hcit].
  apply list_elem_of_fmap in Hcit as (c & -> & Hc).
  destruct (retrieve_context_query _ _ _ _ _ Hretr)
    as [Hnil|(collection & qvec & res & Hcol & Hemb & Hquery & Hout)];
    [discriminate|].
  rewrite or_default_idem in Hquery.
  rewrite Hout, PyProps.sort_by_reverse_perm in Hc.
  apply list_elem_of_lookup in Hc as [i Hi].
  destruct (RetrieveScoreProps.build_contexts_lookup _ _ _ _ _ Hi)
    as (doc & meta & d & _ & Hmeta & _ & ->).
  exists collection, qvec, res, i, meta.
  repeat split; try assumption; reflexivity.
Qed.

End Props.

Lemma blank_question_behaviour_witness :
  @retrieve_context Fixtures.config Fixtures.index_down Fixtures.embedder_down
    Fixtures.store_demo "demo" "   " None
  = Return []
  ∧ @answer_question Fixtures.config Fixtures.index_down
      Fixtures.embedder_down Fixtures.chat_down
      Fixtures.store_demo "   " "demo" None
    = (Return {| content := no_relevant_context_message; citations := [] |},
       []).
Proof.
  apply (@blank_question_behaviour Fixtures.config Fixtures.index_down
           Fixtures.embedder_down Fixtures.chat_down).
  vm_compute. reflexivity.
Defined.

Lemma answer_question_citations_from_index_witness :
  ∃ collection qvec res i meta,
    Fixtures.store_demo
      !! @_collection_name Fixtures.config "demo" = Some collection
    ∧ @_embed_query Fixtures.config Fixtures.embedder_const
        "what are the key takeaways?" = Return qvec
    ∧ @collection_query Fixtures.index_three collection qvec
        (Z.max 1 (or_default (Some 3)
                    (RETRIEVAL_TOP_K (@SETTINGS Fixtures.config))))
      = Return res
    ∧ metadatas res !! i = Some meta
    ∧ "https://b.org/2" = strip (meta_get meta "url")
    ∧ "B" = strip (meta_get meta "title")
    ∧ "https://b.org/2" ≠ "".
Proof.
  apply (@answer_question_citations_from_index Fixtures.config
           Fixtures.index_three Fixtures.embedder_const Fixtures.chat_fixed
           Fixtures.store_demo "what are the key takeaways?" "demo" (Some 3)
           {| content := "An answer.";
              citations :=
                [ {| cite_url := "https://b.org/2"; cite_title := "B" |};
                  {| cite_url := "https://a.org/1"; cite_title := "A" |};
                  {| cite_url := "https://c.org/3"; cite_title := "C" |} ] |}
           (snd (@answer_question Fixtures.config Fixtures.index_three
                   Fixtures.embedder_const Fixtures.chat_fixed
                   Fixtures.store_demo "what are the key takeaways?" "demo"
                   (Some 3)))
           {| cite_url := "https://b.org/2"; cite_title := "B" |}).
  - vm_compute. reflexivity.
  - left.
Defined.

End RetrieveMore.

(** ** Web search: what is kept, what is dropped, where the hits come from *)

Module SearchWebMore.
Import SearchWeb SearchWebSpec SearchWebMoreSpec.

Section Props.
Context `{UrlLib} `{Config} `{SerpApi}.

Lemma domain_count_app (d : string) (l1 l2 : list SearchHit) :
  domain_count d (l1 ++ l2) = (domain_count d l1 + domain_count d l2)%nat.
Proof. unfold domain_count. rewrite filter_app, length_app. reflexivity. Qed.

Lemma domain_count_cons (d : string) (it : SearchHit) (l : list SearchHit) :
  domain_count d (it :: l)
  = ((if decide (_domain (url it) = d) then 1 else 0) + domain_count d l)%nat.
Proof.
  unfold domain_count. rewrite filter_cons.
  destruct (decide (_domain (url it) = d)); reflexivity.
Qed.

(** The loop only appends, and what it appends is a selection of usable
    items, in their order. *)
Lemma diversify_loop_extends (limit : Z) (items : list SearchHit) :
  ∀ seen_urls domain_counts out,
    ∃ kept,
      diversify_loop limit items seen_urls domain_counts out = out ++ kept
      ∧ kept `sublist_of` items
      ∧ Forall usable kept.
Proof.
  induction items as [|it rest IH]; intros seen_urls domain_counts out; simpl.
  - exists []. rewrite app_nil_r. repeat split; constructor.
  - assert (Hskip : ∃ kept,
      diversify_loop limit rest seen_urls domain_counts out = out ++ kept
      ∧ kept `sublist_of` it :: rest ∧ Forall usable kept).
    { destruct (IH seen_urls domain_counts out) as (kept & ? & ? & ?).
      exists kept. split; [assumption|]. split; [|assumption].
      apply sublist_cons. assumption. }
    destruct (truthy (url it)) eqn:Hu; simpl; [|exact Hskip].
    destruct (bool_decide (url it ∈ seen_urls)); [exact Hskip|].
    destruct (truthy (_domain (url it))) eqn:Hd; simpl; [|exact Hskip].
    destruct (limit <=? default 0 (domain_counts !! _domain (url it)));
      [exact Hskip|].
    destruct (IH ({[url it]} ∪ seen_urls)
                (<[_domain (url it) :=
                     default 0 (domain_counts !! _domain (url it)) + 1]>
                   domain_counts) (out ++ [it]))
      as (kept & Heq & Hsub & Hok).
    exists (it :: kept). rewrite Heq, <- app_assoc. split; [reflexivity|].
    split; [apply sublist_skip; exact Hsub|].
    constructor; [|exact Hok].
    split; apply PyProps.truthy_true; assumption.
Qed.

(** X10. [_dedupe_and_diversify] only selects: its result is a
    subsequence of its input, so the ranking of the hits is kept and no
    hit is altered or invented; and every hit it keeps has a URL with a
    domain. *)
Theorem _dedupe_and_diversify_selects (items : list SearchHit) (limit : Z) :
  _dedupe_and_diversify items limit `sublist_of` items
  ∧ Forall usable (_dedupe_and_diversify items limit).
Proof.
  unfold _dedupe_and_diversify.
  destruct (diversify_loop_extends limit items ∅ ∅ [])
    as (kept & -> & Hsub & Hok).
  split; assumption.
Qed.

(** A usable item is dropped only for a URL already kept or a domain that
    is full, and neither changes afterwards. *)
Lemma diversify_loop_maximal (limit : Z) (items : list SearchHit) :
  ∀ seen_urls domain_counts out,
    diversify_inv limit seen_urls domain_counts out →
    let res := diversify_loop limit items seen_urls domain_counts out in
    ∀ it, it ∈ items → usable it →
          url it ∈ url <$> res
          ∨ limit ≤ Z.of_nat (domain_count (_domain (url it)) res).
Proof.
  induction items as [|x rest IH]; intros seen_urls domain_counts out Hinv;
    simpl; intros it Hin Hok; [inversion Hin|].
  destruct (diversify_loop_extends limit rest seen_urls domain_counts out)
    as (kept0 & Hext0 & _ & _).
  apply elem_of_cons in Hin as [->|Hin].
  - destruct Hok as [Hu Hd].
    apply PyProps.truthy_true in Hu, Hd. rewrite Hu, Hd. simpl.
    destruct (bool_decide (url x ∈ seen_urls)) eqn:Hseen.
    { apply bool_decide_eq_true in Hseen. left.
      rewrite Hext0, fmap_app, elem_of_app. left.
      apply (inv_seen _ _ _ _ Hinv). exact Hseen. }
    destruct (limit <=? default 0 (domain_counts !! _domain (url x)))
      eqn:Hfull.
    { apply Z.leb_le in Hfull. right.
      rewrite (inv_counts _ _ _ _ Hinv) in Hfull.
      rewrite Hext0, domain_count_app. lia. }
    left.
    destruct (diversify_loop_extends limit rest ({[url x]} ∪ seen_urls)
                (<[_domain (url x) :=
                     default 0 (domain_counts !! _domain (url x)) + 1]>
                   domain_counts) (out ++ [x]))
      as (kept & -> & _ & _).
    rewrite !fmap_app, !elem_of_app. left. right. simpl. left.
  - assert (Hskip :
      url it ∈ url <$> diversify_loop limit rest seen_urls domain_counts out
      ∨ limit ≤ Z.of_nat
                  (domain_count (_domain (url it))
                     (diversify_loop limit rest seen_urls domain_counts out)))
      by (apply (IH _ _ _ Hinv); assumption).
    destruct (negb (truthy (url x))); [exact Hskip|]. simpl.
    destruct (bool_decide (url x ∈ seen_urls)) eqn:Hseen; [exact Hskip|].
    apply bool_decide_eq_false in Hseen.
    destruct (negb (truthy (_domain (url x)))); [exact Hskip|].
    destruct (limit <=? default 0 (domain_counts !! _domain (url x)))
      eqn:Hfull; [exact Hskip|].
    apply Z.leb_gt in Hfull.
    apply (IH _ _ _ (SearchWebProps.diversify_inv_step _ _ _ _ _
                       Hinv Hseen Hfull)); assumption.
Qed.

(** X11. [_dedupe_and_diversify] drops nothing it could keep: for every
    usable hit of the input, its URL is in the result, or the result
    already has [per_domain_limit] hits of its domain. *)
Theorem _dedupe_and_diversify_maximal (items : list SearchHit) (limit : Z)
    (it : SearchHit) :
  it ∈ items → usable it →
  url it ∈ url <$> _dedupe_and_diversify items limit
  ∨ limit ≤ Z.of_nat (domain_count (_domain (url it))
                        (_dedupe_and_diversify items limit)).
Proof.
  intros Hin Hok. unfold _dedupe_and_diversify.
  apply (diversify_loop_maximal limit items ∅ ∅ []
           (SearchWebProps.diversify_inv_init limit)); assumption.
Qed.

(** On a list that is already deduplicated and diverse, the loop keeps
    every item. *)
Lemma diversify_loop_fixed (limit : Z) (items : list SearchHit) :
  ∀ seen_urls domain_counts out,
    diversify_inv limit seen_urls domain_counts out →
    NoDup (url <$> out ++ items) →
    Forall usable items →
    (∀ d, Z.of_nat (domain_count d (out ++ items)) ≤ Z.max 0 limit) →
    diversify_loop limit items seen_urls domain_counts out = out ++ items.
Proof.
  induction items as [|x rest IH];
    intros seen_urls domain_counts out Hinv Hnd Hok Hcap; simpl.
  - rewrite app_nil_r. reflexivity.
  - apply Forall_cons in Hok as [[Hu Hd] Hok].
    apply PyProps.truthy_true in Hu, Hd. rewrite Hu, Hd. simpl.
    assert (Hfresh : url x ∉ seen_urls).
    { intros Hseen. apply (inv_seen _ _ _ _ Hinv) in Hseen.
      rewrite fmap_app in Hnd. apply NoDup_app in Hnd as (_ & Hdisj & _).
      apply (Hdisj _ Hseen). simpl. left. }
    rewrite bool_decide_eq_false_2 by exact Hfresh.
    assert (Hbelow : default 0 (domain_counts !! _domain (url x)) < limit).
    { rewrite (inv_counts _ _ _ _ Hinv).
      specialize (Hcap (_domain (url x))).
      rewrite domain_count_app, domain_count_cons in Hcap.
      rewrite decide_True in Hcap by reflexivity. lia. }
    apply Z.leb_gt in Hbelow as Hfull. rewrite Hfull.
    rewrite (IH _ _ _ (SearchWebProps.diversify_inv_step _ _ _ _ _
                         Hinv Hfresh Hbelow)).
    + rewrite <- app_assoc. reflexivity.
    + rewrite <- app_assoc. exact Hnd.
    + exact Hok.
    + intros d. rewrite <- app_assoc. apply Hcap.
Qed.

(** X12. [_dedupe_and_diversify] is idempotent: applied to its own
    result, with the same limit, it changes nothing. *)
Theorem _dedupe_and_diversify_idempotent (items : list SearchHit)
    (limit : Z) :
  _dedupe_and_diversify (_dedupe_and_diversify items limit) limit
  = _dedupe_and_diversify items limit.
Proof.
  destruct (SearchWebProps._dedupe_and_diversify_spec items limit)
    as [Hnd Hcap].
  assert (Hok : Forall usable (_dedupe_and_diversify items limit)).
  { unfold _dedupe_and_diversify.
    destruct (diversify_loop_extends limit items ∅ ∅ [])
      as (kept & -> & _ & Hok). exact Hok. }
  unfold _dedupe_and_diversify at 1.
  apply (diversify_loop_fixed limit _ ∅ ∅ []
           (SearchWebProps.diversify_inv_init limit)); assumption.
Qed.

(** The collector keeps, in order, the hits with a URL and a title. *)
Lemma collect_results_hits (organic : list OrganicItem) :
  collect_results organic `sublist_of` hit_of <$> organic
  ∧ Forall (λ h, url h ≠ "" ∧ title h ≠ "") (collect_results organic).
Proof.
  induction organic as [|item rest [IHs IHf]]; simpl;
    [split; constructor|].
  destruct (truthy (_normalize_url (strip (link item)))) eqn:Hu; simpl.
  - destruct (truthy (strip (item_title item))) eqn:Ht.
    + split; [apply sublist_skip; exact IHs|].
      constructor; [|exact IHf].
      split; apply PyProps.truthy_true; assumption.
    + split; [apply sublist_cons; exact IHs|exact IHf].
  - split; [apply sublist_cons; exact IHs|exact IHf].
Qed.

Lemma search_loop_hits (query : string) (k : Z) (remaining : nat) :
  ∀ attempt,
    let res := search_loop query k remaining attempt in
    res = []
    ∨ ∃ a organic,
        (attempt ≤ a < attempt + remaining)%nat
        ∧ serp_get query k a = SerpOk organic
        ∧ res `sublist_of` hit_of <$> organic
        ∧ Forall (λ h, url h ≠ "" ∧ title h ≠ "" ∧ _domain (url h) ≠ "")
            res.
Proof.
  induction remaining as [|remaining IH]; intros attempt; simpl;
    [left; reflexivity|].
  assert (Hnext :
    search_loop query k remaining (S attempt) = []
    ∨ ∃ a organic,
        (attempt ≤ a < attempt + S remaining)%nat
        ∧ serp_get query k a = SerpOk organic
        ∧ search_loop query k remaining (S attempt)
            `sublist_of` hit_of <$> organic
        ∧ Forall (λ h, url h ≠ "" ∧ title h ≠ "" ∧ _domain (url h) ≠ "")
            (search_loop query k remaining (S attempt))).
  { destruct (IH (S attempt)) as [Hnil|(a & organic & Ha & Hget & Hsub & Hok)];
      [left; exact Hnil|right].
    exists a, organic. split; [lia|]. auto. }
  destruct (serp_get query k attempt) as [organic|code|] eqn:Hget.
  - right. exists attempt, organic. split; [lia|]. split; [exact Hget|].
    destruct (collect_results_hits organic) as [Hsub Hok].
    destruct (diversify_loop_extends 2 (collect_results organic) ∅ ∅ [])
      as (kept & Heq & Hkept & Husable).
    unfold _dedupe_and_diversify. rewrite Heq. simpl. split.
    + etransitivity; [apply sublist_take|].
      etransitivity; [exact Hkept|exact Hsub].
    + apply Forall_take. apply Forall_forall. intros h Hh.
      rewrite Forall_forall in Hok, Husable.
      destruct (Husable h Hh) as [_ Hd].
      destruct (Hok h (elem_of_sublist _ _ _ Hh Hkept)) as [Hu Ht].
      auto.
  - match goal with
    | |- context [if ?b then _ else _] => destruct b
    end; [exact Hnext|left; reflexivity].
  - exact Hnext.
Qed.

(** X13. Whatever [search_web] returns comes from one answer of the
    search provider: the result is empty, or an API key is configured and
    one of the first [MAX_RETRIES + 1] requests, made for
    [max(1, min(k, MAX_SEARCH_RESULTS))] results, was answered with a list
    of organic results of which the hits are a selection, in the order of
    the answer, each with its trimmed title and snippet and its normalized
    link; and every hit has a title, a URL and a domain. *)
Theorem search_web_hits_from_answer (query : string) (k : Z) :
  search_web query k = []
  ∨ ∃ attempt organic,
      SERPAPI_API_KEY SETTINGS ≠ ""
      ∧ Z.of_nat attempt ≤ MAX_RETRIES SETTINGS
      ∧ serp_get query (Z.max 1 (Z.min k (MAX_SEARCH_RESULTS SETTINGS)))
          attempt = SerpOk organic
      ∧ search_web query k `sublist_of` hit_of <$> organic
      ∧ Forall (λ h, url h ≠ "" ∧ title h ≠ "" ∧ _domain (url h) ≠ "")
          (search_web query k).
Proof.
  unfold search_web.
  destruct (truthy (SERPAPI_API_KEY SETTINGS)) eqn:Hkey; simpl;
    [|left; reflexivity].
  apply PyProps.truthy_true in Hkey.
  destruct (search_loop_hits query
              (Z.max 1 (Z.min k (MAX_SEARCH_RESULTS SETTINGS)))
              (Z.to_nat (MAX_RETRIES SETTINGS + 1)) 0%nat)
    as [Hnil|(a & organic & Ha & Hget & Hsub & Hok)];
    [left; exact Hnil|right].
  exists a, organic. split; [exact Hkey|]. split; [lia|]. auto.
Qed.

End Props.

Lemma _dedupe_and_diversify_maximal_witness :
  "https://big.example/c"
    ∈ url <$> @_dedupe_and_diversify Urllib.model
                (@collect_results Urllib.model
                   [ Fixtures.organic "https://big.example/a" "a";
                     Fixtures.organic "https://big.example/b" "b";
                     Fixtures.organic "https://big.example/c" "c" ]) 2
  ∨ 2 ≤ Z.of_nat
          (@domain_count Urllib.model
             (@_domain Urllib.model "https://big.example/c")
             (@_dedupe_and_diversify Urllib.model
                (@collect_results Urllib.model
                   [ Fixtures.organic "https://big.example/a" "a";
                     Fixtures.organic "https://big.example/b" "b";
                     Fixtures.organic "https://big.example/c" "c" ]) 2)).
Proof.
  apply (@_dedupe_and_diversify_maximal Urllib.model
           (@collect_results Urllib.model
              [ Fixtures.organic "https://big.example/a" "a";
                Fixtures.organic "https://big.example/b" "b";
                Fixtures.organic "https://big.example/c" "c" ]) 2
           {| title := "c"; url := "https://big.example/c"; snippet := "" |}).
  - vm_compute. right. right. left.
  - split; vm_compute; discriminate.
Defined.

End SearchWebMore.

(** ** The embedder: its requests, and the answer when nothing fails *)

Module EmbedChunksMore.
Import SplitChunks EmbedChunks EmbedChunksSpec EmbedChunksMoreSpec.

Lemma embed_requests_app (l1 l2 : list event) :
  embed_requests (l1 ++ l2) = embed_requests l1 ++ embed_requests l2.
Proof.
  induction l1 as [|ev l1 IH]; [reflexivity|].
  destruct ev; simpl; rewrite IH; reflexivity.
Qed.

(** *** The shape of the batches *)

Lemma range_step_below (len n j : nat) :
  (0 < n)%nat → (j < (len + n - 1) / n)%nat → (j * n < len)%nat.
Proof.
  intros Hn Hj.
  pose proof (Nat.div_mod_eq (len + n - 1) n) as Hdiv.
  pose proof (Nat.mod_upper_bound (len + n - 1) n) as Hmod.
  nia.
Qed.

Lemma _batched_shape {A : Type} (l : list A) (n : Z)
    (batches : list (nat * list A)) :
  0 < n →
  _batched l n = Return batches →
  length batches = ((length l + Z.to_nat n - 1) / Z.to_nat n)%nat
  ∧ Forall (λ b, b.2 ≠ [] ∧ Z.of_nat (length b.2) ≤ n
                 ∧ Forall (λ x, x ∈ l) b.2) batches.
Proof.
  intros Hn. unfold _batched.
  destruct (n =? 0) eqn:Hz; [apply Z.eqb_eq in Hz; lia|].
  destruct (n <? 0) eqn:Hneg; [apply Z.ltb_lt in Hneg; lia|].
  intros [= <-]. unfold range_step. split.
  - rewrite !length_fmap, length_seq. reflexivity.
  - apply Forall_fmap, Forall_fmap, Forall_forall. intros j Hj. simpl.
    apply elem_of_seq in Hj as [_ Hj]. simpl in Hj.
    pose proof (range_step_below (length l) (Z.to_nat n) j
                  ltac:(lia) Hj) as Hlt.
    split; [|split].
    + intros Hnil. apply (f_equal length) in Hnil.
      rewrite length_take, length_drop in Hnil. simpl in Hnil. lia.
    + rewrite length_take. lia.
    + apply Forall_forall. intros x Hx.
      apply elem_of_take in Hx as (i & Hi & _).
      rewrite lookup_drop in Hi. eapply list_elem_of_lookup_2, Hi.
Qed.

Lemma items_of_texts (chunks : list Chunk) :
  Forall (λ it, it.2 ≠ "" ∧ ∃ c, c ∈ chunks ∧ it = (chunk_id c, strip (text c)))
    (items_of chunks).
Proof.
  apply Forall_forall. intros it Hit. unfold items_of in Hit.
  apply list_elem_of_filter in Hit as [Ht Hit].
  apply list_elem_of_fmap in Hit as (c & -> & Hc).
  split; [apply PyProps.truthy_true; exact Ht|eauto].
Qed.

Section Props.
Context `{Config} `{EmbeddingBackend}.

(** *** The requests of the loops *)

Lemma embed_batch_loop_requests (model : string) (start : nat)
    (ids texts : list string) (max_attempts : Z) :
  ∀ (fuel : nat) (attempt backoff : Z) (log : list event),
    ∃ k,
      embed_requests
        (snd (embed_batch_loop model start ids texts max_attempts fuel
                attempt backoff log))
      = embed_requests log ++ replicate k texts
      ∧ Z.of_nat k ≤ Z.max 0 (max_attempts - attempt).
Proof.
  induction fuel as [|fuel IH]; intros attempt backoff log; simpl;
    destruct (attempt <? max_attempts) eqn:Hlt; simpl;
    try (exists 0%nat; simpl; rewrite app_nil_r; split; [reflexivity|lia]).
  apply Z.ltb_lt in Hlt.
  assert (Hone : ∃ k,
    embed_requests (log ++ [EvEmbed texts])
    = embed_requests log ++ replicate k texts
    ∧ Z.of_nat k ≤ Z.max 0 (max_attempts - attempt)).
  { exists 1%nat. rewrite embed_requests_app. split; [reflexivity|lia]. }
  assert (Hretry :
    ∃ k,
      embed_requests
        (snd (if attempt + 1 <? max_attempts
              then embed_batch_loop model start ids texts max_attempts fuel
                     (attempt + 1) (backoff * 2)
                     ((log ++ [EvEmbed texts]) ++ [EvSleep backoff])
              else (Return [], log ++ [EvEmbed texts])))
      = embed_requests log ++ replicate k texts
      ∧ Z.of_nat k ≤ Z.max 0 (max_attempts - attempt)).
  { destruct (attempt + 1 <? max_attempts) eqn:Hmore;
      [|exact Hone].
    destruct (IH (attempt + 1) (backoff * 2)
                ((log ++ [EvEmbed texts]) ++ [EvSleep backoff]))
      as (k & Hk & Hle).
    exists (S k). rewrite Hk, !embed_requests_app. simpl.
    rewrite app_nil_r, <- app_assoc. split; [reflexivity|lia]. }
  destruct (openai_embed model texts start (Z.to_nat (attempt + 1)))
    as [vecs|e|]; [exact Hone| |exact Hone].
  destruct e; first [exact Hone | exact Hretry].
Qed.

Lemma openai_batches_requests (model : string) (max_attempts : Z) :
  ∀ (batches : list (nat * list (string * string)))
    (outputs : list EmbeddingRecord) (log : list event),
    ∃ reqs,
      embed_requests
        (snd (openai_batches model max_attempts batches outputs log))
      = embed_requests log ++ reqs
      ∧ Forall (λ texts, ∃ b, b ∈ batches ∧ texts = snd <$> b.2) reqs
      ∧ Z.of_nat (length reqs)
        ≤ Z.of_nat (length batches) * Z.max 0 max_attempts.
Proof.
  induction batches as [|[start batch] rest IH]; intros outputs log; simpl.
  - exists []. rewrite app_nil_r. split; [reflexivity|].
    split; [constructor|simpl; lia].
  - destruct (embed_batch_loop_requests model start (fst <$> batch)
                (snd <$> batch) max_attempts (Z.to_nat max_attempts) 0 1 log)
      as (k & Hk & Hle).
    assert (Hhere : Forall (λ texts, ∃ b, b ∈ (start, batch) :: rest
                                          ∧ texts = snd <$> b.2)
                      (replicate k (snd <$> batch))).
    { apply Forall_replicate. exists (start, batch). split; [left|reflexivity]. }
    destruct (embed_batch_loop model start (fst <$> batch) (snd <$> batch)
                max_attempts (Z.to_nat max_attempts) 0 1 log)
      as [[recs|e|] log1]; simpl in Hk.
    + destruct (IH (outputs ++ recs) log1) as (reqs & Hreqs & Hall & Hlen).
      exists (replicate k (snd <$> batch) ++ reqs).
      rewrite Hreqs, Hk, <- app_assoc. split; [reflexivity|].
      split.
      * apply Forall_app. split; [exact Hhere|].
        eapply Forall_impl; [exact Hall|].
        intros texts (b & Hb & ->). exists b. split; [right; exact Hb|reflexivity].
      * rewrite length_app, length_replicate. lia.
    + exists (replicate k (snd <$> batch)). simpl. split; [exact Hk|].
      split; [exact Hhere|]. rewrite length_replicate. lia.
    + exists (replicate k (snd <$> batch)). simpl. split; [exact Hk|].
      split; [exact Hhere|]. rewrite length_replicate. lia.
Qed.

Lemma st_batches_requests (model : string) :
  ∀ (batches : list (nat * list (string * string)))
    (outputs : list EmbeddingRecord) (log : list event),
    ∃ reqs,
      embed_requests (snd (st_batches model batches outputs log))
      = embed_requests log ++ reqs
      ∧ Forall (λ texts, ∃ b, b ∈ batches ∧ texts = snd <$> b.2) reqs
      ∧ (length reqs ≤ length batches)%nat.
Proof.
  induction batches as [|[start batch] rest IH]; intros outputs log; simpl.
  - exists []. rewrite app_nil_r. split; [reflexivity|].
    split; [constructor|simpl; lia].
  - assert (Hhere : Forall (λ texts, ∃ b, b ∈ (start, batch) :: rest
                                          ∧ texts = snd <$> b.2)
                      [snd <$> batch]).
    { constructor; [|constructor].
      exists (start, batch). split; [left|reflexivity]. }
    destruct (st_encode model (snd <$> batch)) as [vecs|e|]; simpl.
    + destruct (IH (outputs ++ records_of (fst <$> batch) vecs)
                  (log ++ [EvEmbed (snd <$> batch)]))
        as (reqs & Hreqs & Hall & Hlen).
      exists ((snd <$> batch) :: reqs).
      rewrite Hreqs, embed_requests_app, <- app_assoc. split; [reflexivity|].
      split.
      * constructor; [exists (start, batch); split; [left|reflexivity]|].
        eapply Forall_impl; [exact Hall|].
        intros texts (b & Hb & ->). exists b. split; [right; exact Hb|reflexivity].
      * simpl. lia.
    + exists [snd <$> batch]. rewrite embed_requests_app.
      split; [reflexivity|]. split; [exact Hhere|simpl; lia].
    + exists [snd <$> batch]. rewrite embed_requests_app.
      split; [reflexivity|]. split; [exact Hhere|simpl; lia].
Qed.

(** The requests of a run: each is the texts of a batch, and there are at
    most [per_batch] of them for each batch. *)
Lemma embed_chunks_requests (chunks : list Chunk) (model : option string)
    (batch_size : Z) :
  0 < batch_size →
  ∃ batches,
    (embed_requests (snd (embed_chunks chunks model batch_size)) = []
     ∨ _batched (items_of chunks) batch_size = Return batches)
    ∧ Forall (λ texts, ∃ b, b ∈ batches ∧ texts = snd <$> b.2)
        (embed_requests (snd (embed_chunks chunks model batch_size)))
    ∧ Z.of_nat (length (embed_requests
                          (snd (embed_chunks chunks model batch_size))))
      ≤ Z.of_nat (length batches) * Z.max 1 (MAX_RETRIES SETTINGS + 1).
Proof.
  intros Hsize.
  destruct (EmbedChunksProps._batched_concat (items_of chunks) batch_size
              Hsize) as (batches & Hbatched & _).
  exists batches.
  unfold embed_chunks.
  destruct chunks as [|c0 chunks0] eqn:Hchunks;
    [simpl; split; [left; reflexivity|split; [constructor|simpl; lia]]|].
  rewrite <- Hchunks in *. clear Hchunks c0 chunks0.
  destruct (items_of chunks) as [|it items0] eqn:Hitems;
    [simpl; split; [left; reflexivity|split; [constructor|simpl; lia]]|].
  rewrite <- Hitems in *. clear Hitems it items0.
  rewrite Hbatched.
  set (model' := match opt_truthy model with
                 | Some m => m
                 | None => EMBEDDING_MODEL SETTINGS
                 end).
  split; [right; reflexivity|].
  destruct (String.eqb (lower (EMBEDDINGS_PROVIDER SETTINGS))
              "sentencetransformers").
  - destruct (st_batches_requests model' batches [] [])
      as (reqs & Hreqs & Hall & Hlen).
    simpl in Hreqs.
    destruct (st_batches model' batches [] []) as [[outs|e|] log];
      simpl in *; rewrite Hreqs; (split; [exact Hall|nia]).
  - destruct (openai_batches_requests model' (MAX_RETRIES SETTINGS + 1)
                batches [] [])
      as (reqs & Hreqs & Hall & Hlen).
    simpl in Hreqs.
    destruct (openai_batches model' (MAX_RETRIES SETTINGS + 1) batches [] [])
      as [[outs|e|] log];
      simpl in *; rewrite Hreqs; (split; [exact Hall|nia]).
Qed.

(** X14. For a positive batch size, every embedding request of
    [embed_chunks] is well formed, on both provider paths and whatever the
    backend answers: it carries between 1 and [batch_size] texts, and each
    text is the trimmed text of a chunk and is not blank. *)
Theorem embed_chunks_requests_wellformed (chunks : list Chunk)
    (model : option string) (batch_size : Z) :
  0 < batch_size →
  Forall (request_ok chunks batch_size)
    (embed_requests (snd (embed_chunks chunks model batch_size))).
Proof.
  intros Hsize.
  destruct (embed_chunks_requests chunks model batch_size Hsize)
    as (batches & [Hnone|Hbatched] & Hall & _);
    [rewrite Hnone; constructor|].
  destruct (_batched_shape _ _ _ Hsize Hbatched) as [_ Hshape].
  eapply Forall_impl; [exact Hall|].
  intros texts (b & Hb & ->).
  rewrite Forall_forall in Hshape.
  destruct (Hshape b Hb) as (Hne & Hlen & Hin).
  split; [|split].
  - intros Hnil. apply fmap_nil_inv in Hnil. contradiction.
  - rewrite length_fmap. exact Hlen.
  - apply Forall_fmap. eapply Forall_impl; [exact Hin|].
    intros it Hit. simpl.
    pose proof (items_of_texts chunks) as Hitems.
    rewrite Forall_forall in Hitems.
    destruct (Hitems it Hit) as (Hne' & c & Hc & ->). simpl in *. eauto.
Qed.

(** X15. The number of embedding requests of [embed_chunks] is bounded:
    for a positive batch size and a non-negative [MAX_RETRIES], there are
    at most [MAX_RETRIES + 1] requests for each of the
    [ceil(m / batch_size)] batches, [m] being the number of chunks with a
    non-blank text. *)
Theorem embed_chunks_requests_bounded (chunks : list Chunk)
    (model : option string) (batch_size : Z) :
  0 < batch_size →
  0 ≤ MAX_RETRIES SETTINGS →
  Z.of_nat (length (embed_requests
                      (snd (embed_chunks chunks model batch_size))))
  ≤ (Z.of_nat (length (items_of chunks)) + batch_size - 1) / batch_size
    * (MAX_RETRIES SETTINGS + 1).
Proof.
  intros Hsize Hretries.
  destruct (embed_chunks_requests chunks model batch_size Hsize)
    as (batches & [Hnone|Hbatched] & _ & Hlen).
  - rewrite Hnone. simpl.
    apply Z.mul_nonneg_nonneg; [|lia].
    apply Z.div_pos; lia.
  - destruct (_batched_shape _ _ _ Hsize Hbatched) as [Hcount _].
    rewrite Hcount in Hlen.
    rewrite Nat2Z.inj_div in Hlen.
    replace (Z.of_nat (length (items_of chunks) + Z.to_nat batch_size - 1))
      with (Z.of_nat (length (items_of chunks)) + batch_size - 1)
      in Hlen by lia.
    rewrite Z2Nat.id in Hlen by lia.
    rewrite Z.max_r in Hlen by lia. exact Hlen.
Qed.

(** *** The effects are requests and sleeps only *)

Lemma embed_batch_loop_events (model : string) (start : nat)
    (ids texts : list string) (max_attempts : Z) :
  ∀ (fuel : nat) (attempt backoff : Z) (log : list event),
    Forall embed_event log →
    Forall embed_event
      (snd (embed_batch_loop model start ids texts max_attempts fuel
              attempt backoff log)).
Proof.
  induction fuel as [|fuel IH]; intros attempt backoff log Hlog; simpl;
    destruct (attempt <? max_attempts); simpl; try exact Hlog.
  assert (Hone : Forall embed_event (log ++ [EvEmbed texts])).
  { apply Forall_app. split; [exact Hlog|].
    constructor; [left; eauto|constructor]. }
  assert (Hretry : Forall embed_event
    (snd (if attempt + 1 <? max_attempts
          then embed_batch_loop model start ids texts max_attempts fuel
                 (attempt + 1) (backoff * 2)
                 ((log ++ [EvEmbed texts]) ++ [EvSleep backoff])
          else (Return [], log ++ [EvEmbed texts])))).
  { destruct (attempt + 1 <? max_attempts); [|exact Hone].
    apply IH. apply Forall_app. split; [exact Hone|].
    constructor; [right; eauto|constructor]. }
  destruct (openai_embed model texts start (Z.to_nat (attempt + 1)))
    as [vecs|e|]; [exact Hone| |exact Hone].
  destruct e; first [exact Hone | exact Hretry].
Qed.

Lemma openai_batches_events (model : string) (max_attempts : Z) :
  ∀ (batches : list (nat * list (string * string)))
    (outputs : list EmbeddingRecord) (log : list event),
    Forall embed_event log →
    Forall embed_event
      (snd (openai_batches model max_attempts batches outputs log)).
Proof.
  induction batches as [|[start batch] rest IH]; intros outputs log Hlog;
    simpl; [exact Hlog|].
  pose proof (embed_batch_loop_events model start (fst <$> batch)
                (snd <$> batch) max_attempts (Z.to_nat max_attempts) 0 1
                log Hlog) as Hhere.
  destruct (embed_batch_loop model start (fst <$> batch) (snd <$> batch)
              max_attempts (Z.to_nat max_attempts) 0 1 log)
    as [[recs|e|] log1]; simpl in *;
    first [apply IH; exact Hhere | exact Hhere].
Qed.

Lemma st_batches_events (model : string) :
  ∀ (batches : list (nat * list (string * string)))
    (outputs : list EmbeddingRecord) (log : list event),
    Forall embed_event log →
    Forall embed_event (snd (st_batches model batches outputs log)).
Proof.
  induction batches as [|[start batch] rest IH]; intros outputs log Hlog;
    simpl; [exact Hlog|].
  assert (Hone : Forall embed_event (log ++ [EvEmbed (snd <$> batch)])).
  { apply Forall_app. split; [exact Hlog|].
    constructor; [left; eauto|constructor]. }
  destruct (st_encode model (snd <$> batch)) as [vecs|e|]; simpl;
    first [apply IH; exact Hone | exact Hone].
Qed.

Lemma embed_chunks_events (chunks : list Chunk) (model : option string)
    (batch_size : Z) :
  Forall embed_event (snd (embed_chunks chunks model batch_size)).
Proof.
  unfold embed_chunks.
  destruct chunks as [|c0 chunks0]; [constructor|].
  destruct (items_of (c0 :: chunks0)) as [|it items0]; [constructor|].
  set (model' := match opt_truthy model with
                 | Some m => m
                 | None => EMBEDDING_MODEL SETTINGS
                 end).
  cbv zeta.
  destruct (_batched (it :: items0) batch_size) as [batches|e|].
  2, 3: destruct (String.eqb _ _); constructor.
  destruct (String.eqb (lower (EMBEDDINGS_PROVIDER SETTINGS))
              "sentencetransformers").
  - pose proof (st_batches_events model' batches [] [] (Forall_nil_2 _))
      as Hlog.
    destruct (st_batches model' batches [] []) as [[outs|e|] log];
      exact Hlog.
  - pose proof (openai_batches_events model' (MAX_RETRIES SETTINGS + 1)
                  batches [] [] (Forall_nil_2 _)) as Hlog.
    destruct (openai_batches model' (MAX_RETRIES SETTINGS + 1) batches [] [])
      as [[outs|e|] log]; exact Hlog.
Qed.

(** *** When every request is answered *)

Lemma records_of_encoded (f : string → vector) (batch : list (string * string)) :
  records_of (fst <$> batch) (f <$> (snd <$> batch)) = record_of f <$> batch.
Proof.
  unfold records_of.
  induction batch as [|[id t] rest IH]; [reflexivity|].
  cbn [fmap list_fmap zip zip_with fst snd]. f_equal. exact IH.
Qed.

Lemma st_batches_encoded (model : string) (f : string → vector) :
  (∀ m texts, st_encode m texts = Return (f <$> texts)) →
  ∀ (batches : list (nat * list (string * string)))
    (outputs : list EmbeddingRecord) (log : list event),
    fst (st_batches model batches outputs log)
    = Return (outputs ++ (record_of f <$> concat (snd <$> batches))).
Proof.
  intros Hf.
  induction batches as [|[start batch] rest IH]; intros outputs log; simpl.
  - rewrite app_nil_r. reflexivity.
  - rewrite Hf, IH, records_of_encoded, fmap_app, app_assoc. reflexivity.
Qed.

Lemma openai_batches_encoded (model : string) (max_attempts : Z)
    (f : string → vector) :
  0 < max_attempts →
  (∀ m texts start, openai_embed m texts start 1 = Return (f <$> texts)) →
  ∀ (batches : list (nat * list (string * string)))
    (outputs : list EmbeddingRecord) (log : list event),
    fst (openai_batches model max_attempts batches outputs log)
    = Return (outputs ++ (record_of f <$> concat (snd <$> batches))).
Proof.
  intros Hpos Hf.
  induction batches as [|[start batch] rest IH]; intros outputs log; simpl.
  - rewrite app_nil_r. reflexivity.
  - destruct (Z.to_nat max_attempts) as [|fuel] eqn:Hfuel; [lia|].
    simpl. destruct (0 <? max_attempts) eqn:Hlt;
      [|apply Z.ltb_ge in Hlt; lia].
    change (Z.to_nat (0 + 1)) with 1%nat. rewrite Hf.
    rewrite IH, records_of_encoded, fmap_app, app_assoc. reflexivity.
Qed.

(** X16. When the backend answers every request, with an encoding that
    works text by text, batching is invisible: for a positive batch size,
    a non-negative [MAX_RETRIES] and chunks with pairwise distinct
    identifiers, [embed_chunks] returns exactly one record for each chunk
    with a non-blank text, in the order of the chunks, holding the
    identifier of the chunk and the encoding of its trimmed text. *)
Theorem embed_chunks_complete (chunks : list Chunk) (model : option string)
    (batch_size : Z) (f : string → vector) :
  0 < batch_size →
  0 ≤ MAX_RETRIES SETTINGS →
  NoDup (chunk_id <$> chunks) →
  (∀ m texts, st_encode m texts = Return (f <$> texts)) →
  (∀ m texts start, openai_embed m texts start 1 = Return (f <$> texts)) →
  fst (embed_chunks chunks model batch_size)
  = Return (record_of f <$> items_of chunks).
Proof.
  intros Hsize Hretries Hnodup Hst Hopenai.
  destruct (EmbedChunksProps._batched_concat (items_of chunks) batch_size
              Hsize) as (batches & Hbatched & Hconcat).
  unfold embed_chunks.
  destruct chunks as [|c0 chunks0] eqn:Hchunks; [reflexivity|].
  rewrite <- Hchunks in *. clear Hchunks c0 chunks0.
  destruct (items_of chunks) as [|it items0] eqn:Hitems; [reflexivity|].
  rewrite <- Hitems in *. clear Hitems it items0.
  rewrite Hbatched.
  set (model' := match opt_truthy model with
                 | Some m => m
                 | None => EMBEDDING_MODEL SETTINGS
                 end).
  assert (Hsorted : sort_outputs chunks (record_of f <$> items_of chunks)
                    = record_of f <$> items_of chunks).
  { apply (EmbedChunksProps.sort_outputs_id chunks _ Hnodup).
    rewrite <- list_fmap_compose. apply EmbedChunksProps.items_of_ids. }
  destruct (String.eqb (lower (EMBEDDINGS_PROVIDER SETTINGS))
              "sentencetransformers").
  - pose proof (st_batches_encoded model' f Hst batches [] []) as Hrun.
    destruct (st_batches model' batches [] []) as [[outs|e|] log];
      simpl in Hrun; try discriminate.
    injection Hrun as ->. simpl. rewrite Hconcat, Hsorted. reflexivity.
  - assert (Hpos : 0 < MAX_RETRIES SETTINGS + 1) by lia.
    pose proof (openai_batches_encoded model' (MAX_RETRIES SETTINGS + 1) f
                  Hpos Hopenai batches [] []) as Hrun.
    destruct (openai_batches model' (MAX_RETRIES SETTINGS + 1) batches [] [])
      as [[outs|e|] log]; simpl in Hrun; try discriminate.
    injection Hrun as ->. simpl. rewrite Hconcat, Hsorted. reflexivity.
Qed.

End Props.

Lemma embed_chunks_requests_wellformed_witness :
  Forall (request_ok Fixtures.chunks_distinct 3)
    [["alpha"; "beta"; "gamma"]; ["delta"]; ["delta"]; ["delta"]].
Proof.
  apply (@embed_chunks_requests_wellformed Fixtures.config
           Fixtures.embedder_batch_3_down Fixtures.chunks_distinct None 3).
  lia.
Defined.

Lemma embed_chunks_requests_bounded_witness :
  Z.of_nat (length (embed_requests
                      (snd (@embed_chunks Fixtures.config
                              Fixtures.embedder_batch_3_down
                              Fixtures.chunks_distinct None 3))))
  ≤ 6.
Proof.
  apply (@embed_chunks_requests_bounded Fixtures.config
           Fixtures.embedder_batch_3_down Fixtures.chunks_distinct None 3).
  - lia.
  - vm_compute. discriminate.
Defined.

Lemma embed_chunks_complete_witness :
  fst (@embed_chunks Fixtures.config Fixtures.embedder_const
         Fixtures.chunks_distinct None 3)
  = Return [ Fixtures.record "id-x" [float_one];
             Fixtures.record "id-y" [float_one];
             Fixtures.record "id-w" [float_one];
             Fixtures.record "id-z" [float_one] ].
Proof.
  apply (@embed_chunks_complete Fixtures.config Fixtures.embedder_const
           Fixtures.chunks_distinct None 3 (λ _, [float_one])).
  - lia.
  - vm_compute. discriminate.
  - apply (bool_decide_unpack _). vm_compute. reflexivity.
  - reflexivity.
  - reflexivity.
Defined.

End EmbedChunksMore.

(** ** The vector upsert: count, read-back, isolation, idempotence *)

Module UpsertVectorsMore.
Import UpsertVectors UpsertVectorsSpec UpsertVectorsMoreSpec.

Lemma validate_rows (records : list InputRecord) (acc : Columns) :
  validate records acc
  = {| ids := ids acc ++ (fst <$> rows_of records);
       embeddings := embeddings acc
                     ++ ((λ p, rec_embedding p.2) <$> rows_of records);
       metadatas := metadatas acc
                    ++ ((λ p, rec_metadata p.2) <$> rows_of records);
       documents := documents acc
                    ++ ((λ p, rec_document p.2) <$> rows_of records) |}.
Proof.
  revert acc. unfold rows_of.
  induction records as [|r rest IH]; intros acc; simpl.
  - rewrite !app_nil_r. destruct acc; reflexivity.
  - rewrite filter_cons.
    destruct (accepted r) eqn:Hacc.
    + rewrite decide_True by reflexivity. unfold accepted in Hacc.
      destruct (in_embedding r) as [vec|] eqn:Hvec; [|discriminate].
      apply andb_true_iff in Hacc as [Hid Hdoc]. rewrite Hid, Hdoc. simpl.
      rewrite IH. simpl. unfold stored_of at 2 4 6. rewrite Hvec. simpl.
      rewrite <- !app_assoc. reflexivity.
    + rewrite decide_False by discriminate. unfold accepted in Hacc.
      destruct (in_embedding r); [|apply IH].
      apply andb_false_iff in Hacc as [-> | ->]; simpl;
        [|rewrite orb_true_r]; apply IH.
Qed.

Lemma upsert_items_rows (rows : list (string * IndexedRecord))
    (items : gmap string IndexedRecord) :
  upsert_items (fst <$> rows) ((λ p, rec_embedding p.2) <$> rows)
    ((λ p, rec_document p.2) <$> rows) ((λ p, rec_metadata p.2) <$> rows)
    items
  = write_rows rows items.
Proof.
  revert items. induction rows as [|[id [e d m]] rows IH]; intros items;
    [reflexivity|].
  simpl. apply IH.
Qed.




Section Props.
Context `{Config}.


Lemma created_is_Some (store : Store) (name : string)
    (metadata : gmap string string) :
  is_Some (get_or_create_collection store name metadata !! name).
Proof.
  unfold get_or_create_collection.
  destruct (store !! name) as [c|] eqn:Hc; [rewrite Hc; eauto|].
  rewrite lookup_insert_eq. eauto.
Qed.

(** The store after [upsert_vectors]: the collection of the namespace,
    created if need be, with the rows of the accepted records written. *)
Lemma upsert_vectors_store (store : Store) (namespace : string)
    (records : list InputRecord) :
  namespace ≠ "" →
  let name := _collection_name namespace in
  let created :=
    get_or_create_collection store name {["hnsw:space" := "cosine"]} in
  upsert_vectors store namespace records
  = (Return (Z.of_nat (length (rows_of records))),
     match records with
     | [] => store
     | _ =>
         match created !! name with
         | Some c =>
             <[name := {| col_metadata := col_metadata c;
                          col_items := write_rows (rows_of records)
                                         (col_items c) |}]>
               created
         | None => created
         end
     end).
Proof.
  intros Hns. unfold upsert_vectors.
  destruct namespace; [destruct Hns; reflexivity|]. simpl negb. cbv iota.
  destruct records as [|r rest]; [reflexivity|].
  rewrite validate_rows. cbn [ids embeddings metadatas documents app].
  cbv zeta.
  destruct (created_is_Some store (_collection_name (String a namespace))
              {["hnsw:space" := "cosine"]}) as [c Hc].
  rewrite Hc.
  destruct (rows_of (r :: rest)) as [|row rows].
  - simpl. f_equal. symmetry. apply insert_id. rewrite Hc.
    destruct c; reflexivity.
  - destruct (fst <$> row :: rows) as [|i l] eqn:Hids; [discriminate|].
    rewrite <- Hids. clear Hids i l.
    rewrite length_fmap. unfold collection_upsert.
    rewrite Hc, upsert_items_rows. reflexivity.
Qed.



(** Collections with another name are not touched. *)
Lemma upsert_vectors_other (store : Store) (namespace : string)
    (records : list InputRecord) (name : string) :
  name ≠ _collection_name namespace →
  snd (upsert_vectors store namespace records) !! name = store !! name.
Proof.
  intros Hne.
  destruct (decide (namespace = "")) as [->|Hns]; [reflexivity|].
  rewrite (upsert_vectors_store _ _ _ Hns). cbn [snd].
  set (col := _collection_name namespace) in *.
  assert (Hcreated_ne :
            get_or_create_collection store col {["hnsw:space" := "cosine"]}
              !! name = store !! name).
  { unfold get_or_create_collection.
    destruct (store !! col); [reflexivity|].
    apply lookup_insert_ne. congruence. }
  destruct records as [|r rest]; [reflexivity|].
  destruct (get_or_create_collection store col _ !! col);
    [|exact Hcreated_ne].
  rewrite lookup_insert_ne by congruence. exact Hcreated_ne.
Qed.

(** After a call that accepted a record, the collection exists. *)
Lemma upsert_vectors_creates (store : Store) (namespace : string)
    (records : list InputRecord) :
  namespace ≠ "" → records ≠ [] →
  is_Some (snd (upsert_vectors store namespace records)
             !! _collection_name namespace).
Proof.
  intros Hns Hrecs. rewrite (upsert_vectors_store _ _ _ Hns). cbn [snd].
  destruct records as [|r rest]; [contradiction|].
  destruct (created_is_Some store (_collection_name namespace)
              {["hnsw:space" := "cosine"]}) as [c Hc].
  rewrite Hc, lookup_insert_eq. eauto.
Qed.

Lemma upsert_vectors_count_rows (store : Store) (namespace : string)
    (records : list InputRecord) (count : Z) :
  fst (upsert_vectors store namespace records) = Return count →
  0 ≤ count ≤ Z.of_nat (length records)
  ∧ (0 < count → records ≠ []).
Proof.
  destruct (decide (namespace = "")) as [->|Hns]; [discriminate|].
  rewrite (upsert_vectors_store _ _ _ Hns). cbn [fst]. intros [= <-].
  unfold rows_of. rewrite length_fmap.
  pose proof (length_filter (λ r, accepted r = true) records) as Hle.
  split; [lia|]. intros Hpos ->. simpl in Hpos. lia.
Qed.

(** X19. [upsert_vectors] touches one collection only: every collection
    with another name is after the call what it was before, and the
    metadata of the collection of the namespace, when it existed, is
    unchanged. *)
Theorem upsert_vectors_isolated (store : Store) (namespace : string)
    (records : list InputRecord) (name : string) :
  (name ≠ _collection_name namespace →
   snd (upsert_vectors store namespace records) !! name = store !! name)
  ∧ (∀ c, store !! name = Some c →
          ∃ c', snd (upsert_vectors store namespace records) !! name
                = Some c'
                ∧ col_metadata c' = col_metadata c).
Proof.
  destruct (decide (namespace = "")) as [->|Hns].
  { split; [reflexivity|]. intros c Hc. exists c. split; [exact Hc|reflexivity]. }
  rewrite (upsert_vectors_store _ _ _ Hns). cbn [snd].
  set (col := _collection_name namespace).
  assert (Hcreated_ne : name ≠ col →
            get_or_create_collection store col {["hnsw:space" := "cosine"]}
              !! name = store !! name).
  { intros Hne. unfold get_or_create_collection.
    destruct (store !! col); [reflexivity|].
    apply lookup_insert_ne. congruence. }
  assert (Hcreated_eq : ∀ c, store !! col = Some c →
            get_or_create_collection store col {["hnsw:space" := "cosine"]}
            = store).
  { intros c Hc. unfold get_or_create_collection. rewrite Hc. reflexivity. }
  split.
  - intros Hne. rewrite <- (upsert_vectors_other store namespace records name Hne).
    rewrite (upsert_vectors_store _ _ _ Hns). reflexivity.
  - intros c Hc.
    destruct (decide (name = col)) as [->|Hne].
    + rewrite (Hcreated_eq c Hc).
      destruct records as [|r rest]; [eauto|].
      rewrite Hc, lookup_insert_eq. eauto.
    + exists c. split; [|reflexivity].
      destruct records as [|r rest]; [exact Hc|].
      destruct (get_or_create_collection store col _ !! col);
        [|rewrite Hcreated_ne by exact Hne; exact Hc].
      rewrite lookup_insert_ne by congruence.
      rewrite Hcreated_ne by exact Hne. exact Hc.
Qed.


End Props.



Lemma upsert_vectors_isolated_witness :
  snd (@upsert_vectors Fixtures.config Fixtures.store_demo "other"
         [Fixtures2.good_record]) !! "research_demo"
  = Some Fixtures.fresh_collection.
Proof.
  apply (proj1 (@upsert_vectors_isolated Fixtures.config Fixtures.store_demo
                  "other" [Fixtures2.good_record] "research_demo")).
  vm_compute. discriminate.
Defined.

End UpsertVectorsMore.

(** ** Slugs *)

Module CommonProps.
Import Common CommonSpec.

(** A property of characters that can be computed holds of all of them
    when it holds of the 256 there are. *)
Lemma all_ascii (p : ascii → bool) :
  forallb (λ n, p (ascii_of_nat n)) (seq 0 256) = true → ∀ c, p c = true.
Proof.
  intros Hall c. rewrite forallb_forall in Hall.
  rewrite <- (ascii_nat_embedding c). apply Hall.
  apply in_seq. pose proof (nat_ascii_bounded c). lia.
Qed.

Lemma lower_char_slug (c : ascii) :
  alnum_or_dash c = true →
  is_slug_char (lower_char c) = true
  ∧ is_dash (lower_char c) = is_dash c.
Proof.
  intros Hc.
  pose proof (all_ascii
    (λ c, implb (alnum_or_dash c)
            (is_slug_char (lower_char c)
             && Bool.eqb (is_dash (lower_char c)) (is_dash c)))
    ltac:(vm_compute; reflexivity) c) as Hall.
  cbv beta in Hall. rewrite Hc in Hall. simpl in Hall.
  apply andb_true_iff in Hall as [Hslug Hdash].
  apply Bool.eqb_prop in Hdash. auto.
Qed.

Lemma slug_char_fixed (c : ascii) :
  is_slug_char c = true →
  lower_char c = c ∧ alnum_or_dash c = true
  ∧ (is_dash c = false → is_alnum c = true).
Proof.
  intros Hc.
  pose proof (all_ascii
    (λ c, implb (is_slug_char c)
            (Ascii.eqb (lower_char c) c && alnum_or_dash c
             && (is_dash c || is_alnum c)))
    ltac:(vm_compute; reflexivity) c) as Hall.
  cbv beta in Hall. rewrite Hc in Hall. simpl in Hall.
  apply andb_true_iff in Hall as [Hall Hor].
  apply andb_true_iff in Hall as [Hlow Hok].
  apply Ascii.eqb_eq in Hlow.
  split; [exact Hlow|]. split; [exact Hok|].
  intros Hdash. rewrite Hdash in Hor. exact Hor.
Qed.

Lemma is_alnum_not_dash (c : ascii) : is_alnum c = true → is_dash c = false.
Proof.
  intros Hc.
  pose proof (all_ascii (λ c, implb (is_alnum c) (negb (is_dash c)))
                ltac:(vm_compute; reflexivity) c) as Hall.
  cbv beta in Hall. rewrite Hc in Hall. simpl in Hall.
  apply negb_true_iff in Hall. exact Hall.
Qed.

(** *** The substitution *)

Lemma sub_non_alnum_start (s : string) :
  starts_with_dash (sub_non_alnum s)
  = match s with
    | EmptyString => false
    | String c _ => negb (is_alnum c)
    end.
Proof.
  induction s as [|c r IH]; [reflexivity|].
  simpl. destruct (is_alnum c) eqn:Hc; simpl.
  - apply is_alnum_not_dash, Hc.
  - destruct r as [|c' r']; [reflexivity|].
    destruct (is_alnum c') eqn:Hc'; [reflexivity|].
    rewrite IH. reflexivity.
Qed.

Lemma sub_non_alnum_chars (s : string) :
  all_chars alnum_or_dash (sub_non_alnum s) = true
  ∧ no_double_dash (sub_non_alnum s) = true.
Proof.
  induction s as [|c r [IHc IHd]]; [split; reflexivity|].
  simpl. destruct (is_alnum c) eqn:Hc.
  - simpl. unfold alnum_or_dash at 1. rewrite Hc, IHc, IHd.
    rewrite (is_alnum_not_dash _ Hc). split; reflexivity.
  - destruct r as [|c' r']; [split; reflexivity|].
    destruct (is_alnum c') eqn:Hc'; [|split; assumption].
    cbn [all_chars no_double_dash]. rewrite IHc, IHd.
    rewrite sub_non_alnum_start, Hc'. split; reflexivity.
Qed.

(** *** Stripping, lowering and cutting keep the shape *)

Lemma lstrip_dash_shape (p : ascii → bool) (s : string) :
  all_chars p s = true → no_double_dash s = true →
  all_chars p (lstrip_dash s) = true
  ∧ no_double_dash (lstrip_dash s) = true
  ∧ starts_with_dash (lstrip_dash s) = false.
Proof.
  induction s as [|c r IH]; [repeat split|].
  simpl. intros Hp Hd.
  apply andb_true_iff in Hp as [Hpc Hpr].
  apply andb_true_iff in Hd as [Hdc Hdr].
  destruct (is_dash c) eqn:Hc; [apply IH; assumption|].
  simpl. rewrite Hpc, Hpr, Hc, Hdr. repeat split.
Qed.

Lemma rstrip_dash_start (s : string) :
  starts_with_dash s = false → starts_with_dash (rstrip_dash s) = false.
Proof.
  destruct s as [|c r]; [reflexivity|]. simpl. intros Hc.
  destruct (rstrip_dash r); [rewrite Hc|]; exact Hc.
Qed.

Lemma rstrip_dash_start_le (s : string) :
  starts_with_dash (rstrip_dash s) = true → starts_with_dash s = true.
Proof.
  destruct s as [|c r]; [discriminate|]. cbn [rstrip_dash starts_with_dash].
  destruct (rstrip_dash r); [|trivial].
  destruct (is_dash c) eqn:Hc; [reflexivity|].
  cbn [starts_with_dash]. rewrite Hc. trivial.
Qed.

Lemma rstrip_dash_shape (p : ascii → bool) (s : string) :
  all_chars p s = true → no_double_dash s = true →
  all_chars p (rstrip_dash s) = true
  ∧ no_double_dash (rstrip_dash s) = true
  ∧ ends_with_dash (rstrip_dash s) = false.
Proof.
  induction s as [|c r IH]; [repeat split|].
  intros Hp Hd. cbn [all_chars no_double_dash] in Hp, Hd.
  apply andb_true_iff in Hp as [Hpc Hpr].
  apply andb_true_iff in Hd as [Hdc Hdr].
  destruct (IH Hpr Hdr) as (IHp & IHd & IHe).
  cbn [rstrip_dash].
  destruct (rstrip_dash r) as [|c' r'] eqn:Hr.
  - destruct (is_dash c) eqn:Hc; [repeat split|].
    simpl. rewrite Hpc, Hc. repeat split.
  - cbn [all_chars no_double_dash ends_with_dash].
    cbn [all_chars no_double_dash ends_with_dash] in IHp, IHd, IHe.
    rewrite Hpc, IHp, IHd. split; [reflexivity|]. split; [|exact IHe].
    rewrite andb_true_r.
    destruct (is_dash c && starts_with_dash (String c' r')) eqn:Hboth;
      [|reflexivity].
    apply andb_true_iff in Hboth as [Hc Hs].
    rewrite <- Hr in Hs. apply rstrip_dash_start_le in Hs.
    rewrite Hc, Hs in Hdc. discriminate.
Qed.

Lemma lower_shape (s : string) :
  all_chars alnum_or_dash s = true →
  all_chars is_slug_char (lower s) = true
  ∧ starts_with_dash (lower s) = starts_with_dash s
  ∧ no_double_dash (lower s) = no_double_dash s.
Proof.
  induction s as [|c r IH]; [repeat split|].
  cbn [all_chars]. intros Hp.
  apply andb_true_iff in Hp as [Hpc Hpr].
  destruct (IH Hpr) as (IHp & IHs & IHd).
  destruct (lower_char_slug c Hpc) as [Hslug Hdash].
  cbn [lower all_chars starts_with_dash no_double_dash].
  rewrite Hslug, IHp, Hdash, IHs, IHd. repeat split.
Qed.

Lemma take_str_shape (p : ascii → bool) (n : nat) (s : string) :
  all_chars p s = true → no_double_dash s = true →
  all_chars p (take_str n s) = true
  ∧ no_double_dash (take_str n s) = true
  ∧ (starts_with_dash s = false → starts_with_dash (take_str n s) = false).
Proof.
  revert n. induction s as [|c r IH]; intros [|n]; try (repeat split; fail).
  cbn [all_chars no_double_dash]. intros Hp Hd.
  apply andb_true_iff in Hp as [Hpc Hpr].
  apply andb_true_iff in Hd as [Hdc Hdr].
  destruct (IH n Hpr Hdr) as (IHp & IHd & IHs).
  cbn [take_str all_chars no_double_dash starts_with_dash].
  rewrite Hpc, IHp, IHd. split; [reflexivity|]. split; [|trivial].
  rewrite andb_true_r.
  destruct (is_dash c) eqn:Hc; [|reflexivity]. simpl in Hdc |- *.
  rewrite IHs; [reflexivity|].
  destruct (starts_with_dash r); [discriminate|reflexivity].
Qed.

Lemma slice_to_take (n : Z) (s : string) :
  ∃ k, slice_to n s = take_str k s ∧ (0 ≤ n → k = Z.to_nat n).
Proof.
  unfold slice_to. destruct (0 <=? n) eqn:Hn.
  - eauto.
  - apply Z.leb_gt in Hn. eexists. split; [reflexivity|lia].
Qed.

(** *** Slugs are fixed *)

Lemma is_dash_eq (c : ascii) : is_dash c = true → c = "-"%char.
Proof. apply Ascii.eqb_eq. Qed.

Lemma sub_non_alnum_fixed (s : string) :
  all_chars is_slug_char s = true → no_double_dash s = true →
  sub_non_alnum s = s.
Proof.
  induction s as [|c r IH]; [reflexivity|].
  cbn [all_chars no_double_dash]. intros Hp Hd.
  apply andb_true_iff in Hp as [Hpc Hpr].
  apply andb_true_iff in Hd as [Hdc Hdr].
  destruct (slug_char_fixed c Hpc) as (_ & _ & Halnum).
  cbn [sub_non_alnum]. rewrite (IH Hpr Hdr).
  destruct (is_alnum c) eqn:Hc; [reflexivity|].
  destruct (is_dash c) eqn:Hdash; [|discriminate (Halnum eq_refl)].
  apply is_dash_eq in Hdash as ->.
  destruct r as [|c' r']; [reflexivity|].
  cbn [all_chars] in Hpr. apply andb_true_iff in Hpr as [Hpc' _].
  destruct (slug_char_fixed c' Hpc') as (_ & _ & Halnum').
  simpl in Hdc. destruct (is_dash c'); [discriminate|].
  cbn [sub_non_alnum] in IH |- *. rewrite (Halnum' eq_refl). reflexivity.
Qed.

Lemma lstrip_dash_fixed (s : string) :
  starts_with_dash s = false → lstrip_dash s = s.
Proof. destruct s as [|c r]; [reflexivity|]. simpl. intros ->. reflexivity. Qed.

Lemma rstrip_dash_cons (c : ascii) (r : string) :
  rstrip_dash (String c r)
  = match rstrip_dash r with
    | EmptyString => if is_dash c then EmptyString else String c EmptyString
    | r' => String c r'
    end.
Proof. reflexivity. Qed.

Lemma rstrip_dash_fixed (s : string) :
  ends_with_dash s = false → rstrip_dash s = s.
Proof.
  induction s as [|c r IH]; [reflexivity|].
  destruct r as [|c' r'].
  - simpl. intros ->. reflexivity.
  - intros He. rewrite rstrip_dash_cons, (IH He). reflexivity.
Qed.

Lemma lower_fixed (s : string) :
  all_chars is_slug_char s = true → lower s = s.
Proof.
  induction s as [|c r IH]; [reflexivity|].
  cbn [all_chars]. intros Hp.
  apply andb_true_iff in Hp as [Hpc Hpr].
  destruct (slug_char_fixed c Hpc) as (Hlow & _).
  cbn [lower]. rewrite Hlow, (IH Hpr). reflexivity.
Qed.

Lemma take_str_all (n : nat) (s : string) :
  (String.length s ≤ n)%nat → take_str n s = s.
Proof.
  revert n. induction s as [|c r IH]; intros [|n] Hn; simpl in *;
    try reflexivity; try lia.
  rewrite IH by lia. reflexivity.
Qed.

Section Props.
Context `{Unicode} `{Clock}.

Lemma slugify_not_empty (text : string) (maxlen : Z) :
  slugify text maxlen ≠ "".
Proof.
  unfold slugify.
  destruct (truthy (slice_to maxlen _)) eqn:Ht;
    [apply PyProps.truthy_true, Ht|discriminate].
Qed.

(** X21. Whatever the text and the cut-off, [slugify] returns a usable
    name: it is not empty, it consists of lower-case ASCII letters,
    digits and dashes only, it does not start with a dash and has no two
    dashes in a row, and for a cut-off of 0 or more it is ["topic"] or has
    at most [maxlen] characters. *)
Theorem slugify_shape (text : string) (maxlen : Z) :
  slugify text maxlen ≠ ""
  ∧ all_chars is_slug_char (slugify text maxlen) = true
  ∧ starts_with_dash (slugify text maxlen) = false
  ∧ no_double_dash (slugify text maxlen) = true
  ∧ (0 ≤ maxlen →
     slugify text maxlen = "topic"
     ∨ Z.of_nat (String.length (slugify text maxlen)) ≤ maxlen).
Proof.
  unfold slugify.
  destruct (sub_non_alnum_chars (nfkd_ascii text)) as [Hc Hd].
  destruct (lstrip_dash_shape _ _ Hc Hd) as (Hc1 & Hd1 & Hs1).
  destruct (rstrip_dash_shape _ _ Hc1 Hd1) as (Hc2 & Hd2 & _).
  pose proof (rstrip_dash_start _ Hs1) as Hs2.
  fold (strip_dash (sub_non_alnum (nfkd_ascii text))) in Hc2, Hd2, Hs2.
  destruct (lower_shape _ Hc2) as (Hc3 & Hs3 & Hd3).
  rewrite Hs2 in Hs3. rewrite Hd2 in Hd3.
  destruct (slice_to_take maxlen
              (lower (strip_dash (sub_non_alnum (nfkd_ascii text)))))
    as (k & -> & Hk).
  destruct (take_str_shape _ k _ Hc3 Hd3) as (Hc4 & Hd4 & Hs4).
  destruct (truthy (take_str k _)) eqn:Ht.
  - apply PyProps.truthy_true in Ht.
    split; [exact Ht|]. split; [exact Hc4|]. split; [exact (Hs4 Hs3)|].
    split; [exact Hd4|].
    intros Hn. right. rewrite StrLemmas.length_take_str, (Hk Hn). lia.
  - split; [discriminate|]. repeat split. intros _. left. reflexivity.
Qed.

(** X22. A name that is already a slug is its own slug: for a non-empty
    text of lower-case letters, digits and single dashes, with no dash at
    either end, that the ASCII folding leaves as it is and that fits the
    cut-off, [slugify] returns the text. *)
Theorem slugify_fixed (text : string) (maxlen : Z) :
  clean_slug text = true →
  text ≠ "" →
  nfkd_ascii text = text →
  Z.of_nat (String.length text) ≤ maxlen →
  slugify text maxlen = text.
Proof.
  unfold clean_slug. intros Hclean Hne Hfold Hlen.
  apply andb_true_iff in Hclean as [Hclean Hd].
  apply andb_true_iff in Hclean as [Hclean He].
  apply andb_true_iff in Hclean as [Hc Hs].
  apply negb_true_iff in He, Hs.
  unfold slugify. rewrite Hfold, (sub_non_alnum_fixed _ Hc Hd).
  unfold strip_dash. rewrite (lstrip_dash_fixed _ Hs), (rstrip_dash_fixed _ He).
  rewrite (lower_fixed _ Hc). unfold slice_to.
  destruct (0 <=? maxlen) eqn:Hm; [|apply Z.leb_gt in Hm; lia].
  rewrite take_str_all by lia.
  apply PyProps.truthy_true in Hne. rewrite Hne. reflexivity.
Qed.

End Props.

(** A title with capitals, punctuation and white space, cut at 20. *)
Example slugify_sample :
  @slugify Fixtures2.ascii_filter "  Multimodal LLMs: a survey (2024)" 20
  = "multimodal-llms-a-su".
Proof. vm_compute. reflexivity. Qed.

Lemma slugify_fixed_witness :
  @slugify Fixtures2.ascii_filter "rocq-prover-9" 60 = "rocq-prover-9".
Proof.
  apply (@slugify_fixed Fixtures2.ascii_filter "rocq-prover-9" 60).
  - vm_compute. reflexivity.
  - discriminate.
  - vm_compute. reflexivity.
  - vm_compute. discriminate.
Defined.

End CommonProps.

(** ** The white-space normalizer *)

Module ExtractTextProps.
Import ExtractText ExtractTextSpec.

Lemma blank_not_nl (c : ascii) : is_blank c = true → is_nl c = false.
Proof.
  unfold is_blank, is_nl. intros Hc.
  apply orb_true_iff in Hc as [Hc|Hc]; apply Ascii.eqb_eq in Hc; subst c;
    reflexivity.
Qed.

Lemma blank_not_nbsp (c : ascii) : is_blank c = true → not_nbsp c = true.
Proof.
  unfold is_blank. intros Hc.
  apply orb_true_iff in Hc as [Hc|Hc]; apply Ascii.eqb_eq in Hc; subst c;
    reflexivity.
Qed.

(** *** Step 1: no-break spaces *)

Lemma replace_nbsp_every (s : string) :
  every not_nbsp (replace_char "160"%char " "%char s) = true.
Proof.
  induction s as [|c r IH]; [reflexivity|].
  simpl. rewrite IH, andb_true_r.
  destruct (Ascii.eqb_spec c "160"%char) as [->|Hne]; [reflexivity|].
  unfold not_nbsp. apply negb_true_iff, Ascii.eqb_neq, Hne.
Qed.

Lemma replace_nbsp_fixed (s : string) :
  every not_nbsp s = true → replace_char "160"%char " "%char s = s.
Proof.
  induction s as [|c r IH]; [reflexivity|].
  simpl. intros Hs. apply andb_true_iff in Hs as [Hc Hr].
  rewrite (IH Hr). unfold not_nbsp in Hc. apply negb_true_iff in Hc.
  rewrite Hc. reflexivity.
Qed.

(** *** Step 2: blanks before a line break *)

Lemma drop_blanks_every (p : ascii → bool) (s : string) :
  every p s = true → every p (drop_blanks_before_nl s) = true.
Proof.
  induction s as [|c r IH]; [reflexivity|].
  simpl. intros Hs. apply andb_true_iff in Hs as [Hc Hr].
  destruct (is_blank c && blanks_then_nl r); [exact (IH Hr)|].
  simpl. rewrite Hc, (IH Hr). reflexivity.
Qed.

Lemma drop_blanks_start (s : string) :
  starts_with is_nl (drop_blanks_before_nl s) = blanks_then_nl s.
Proof.
  induction s as [|c r IH]; [reflexivity|].
  simpl. destruct (is_nl c) eqn:Hnl.
  - destruct (is_blank c) eqn:Hb;
      [rewrite (blank_not_nl _ Hb) in Hnl; discriminate|].
    simpl. exact Hnl.
  - destruct (is_blank c); simpl.
    + destruct (blanks_then_nl r) eqn:Hr; [exact IH|]. simpl. exact Hnl.
    + exact Hnl.
Qed.

Lemma drop_blanks_no_pair (s : string) :
  no_pair is_blank is_nl (drop_blanks_before_nl s) = true.
Proof.
  induction s as [|c r IH]; [reflexivity|].
  simpl. destruct (is_blank c) eqn:Hb; simpl.
  - destruct (blanks_then_nl r) eqn:Hr; [exact IH|].
    simpl. rewrite Hb, drop_blanks_start, Hr, IH. reflexivity.
  - rewrite Hb, IH. reflexivity.
Qed.

Lemma no_pair_blanks_then_nl (c : ascii) (r : string) :
  no_pair is_blank is_nl (String c r) = true →
  is_blank c = true → blanks_then_nl r = false.
Proof.
  revert c. induction r as [|c' r' IH]; intros c Hs Hb; [reflexivity|].
  cbn [no_pair] in Hs. apply andb_true_iff in Hs as [Hc Hr].
  rewrite Hb in Hc. simpl in Hc. apply negb_true_iff in Hc.
  simpl. rewrite Hc.
  destruct (is_blank c') eqn:Hb'; [|reflexivity].
  apply (IH c'); [|exact Hb']. cbn [no_pair]. rewrite Hb'. exact Hr.
Qed.

Lemma drop_blanks_fixed (s : string) :
  no_pair is_blank is_nl s = true → drop_blanks_before_nl s = s.
Proof.
  induction s as [|c r IH]; [reflexivity|].
  intros Hs. pose proof Hs as Hs'.
  cbn [no_pair] in Hs. apply andb_true_iff in Hs as [_ Hr].
  simpl. rewrite (IH Hr).
  destruct (is_blank c) eqn:Hb; [|reflexivity].
  rewrite (no_pair_blanks_then_nl c r Hs' Hb). reflexivity.
Qed.

(** *** Step 3: line breaks *)

Lemma squeeze_nl_start (p : ascii → bool) (s : string) :
  starts_with p (squeeze_nl s) = starts_with p s.
Proof.
  induction s as [|c r IH]; [reflexivity|].
  cbn [squeeze_nl]. destruct r as [|c1 [|c2 r2]]; try reflexivity.
  destruct (is_nl c && is_nl c1 && is_nl c2) eqn:Hnl; [|reflexivity].
  rewrite IH. simpl.
  apply andb_true_iff in Hnl as [Hnl _].
  apply andb_true_iff in Hnl as [Hc Hc1].
  unfold is_nl in Hc, Hc1. apply Ascii.eqb_eq in Hc, Hc1. congruence.
Qed.

Lemma squeeze_nl_start2 (s : string) :
  starts_nl2 (squeeze_nl s) = starts_nl2 s.
Proof.
  induction s as [|c r IH]; [reflexivity|].
  cbn [squeeze_nl]. destruct r as [|c1 [|c2 r2]]; try reflexivity.
  destruct (is_nl c && is_nl c1 && is_nl c2) eqn:Hnl.
  - rewrite IH. apply andb_true_iff in Hnl as [Hnl Hc2].
    apply andb_true_iff in Hnl as [Hc Hc1]. simpl.
    rewrite Hc, Hc1, Hc2. reflexivity.
  - cbn [starts_nl2]. rewrite squeeze_nl_start. reflexivity.
Qed.

Lemma squeeze_nl_every (p : ascii → bool) (s : string) :
  every p s = true → every p (squeeze_nl s) = true.
Proof.
  induction s as [|c r IH]; [reflexivity|].
  cbn [every]. intros Hs. apply andb_true_iff in Hs as [Hc Hr].
  cbn [squeeze_nl].
  assert (Hkeep : every p (String c (squeeze_nl r)) = true)
    by (cbn [every]; rewrite Hc, (IH Hr); reflexivity).
  destruct r as [|c1 [|c2 r2]]; try exact Hkeep.
  destruct (is_nl c && is_nl c1 && is_nl c2); [exact (IH Hr)|exact Hkeep].
Qed.

Lemma squeeze_nl_no_pair (p q : ascii → bool) (s : string) :
  no_pair p q s = true → no_pair p q (squeeze_nl s) = true.
Proof.
  induction s as [|c r IH]; [reflexivity|].
  cbn [no_pair]. intros Hs. apply andb_true_iff in Hs as [Hc Hr].
  cbn [squeeze_nl].
  assert (Hkeep : no_pair p q (String c (squeeze_nl r)) = true)
    by (cbn [no_pair]; rewrite squeeze_nl_start, Hc, (IH Hr); reflexivity).
  destruct r as [|c1 [|c2 r2]]; try exact Hkeep.
  destruct (is_nl c && is_nl c1 && is_nl c2); [exact (IH Hr)|exact Hkeep].
Qed.

Lemma squeeze_nl_no_triple (s : string) :
  no_triple_nl (squeeze_nl s) = true.
Proof.
  induction s as [|c r IH]; [reflexivity|].
  cbn [squeeze_nl].
  assert (Hkeep : is_nl c && starts_nl2 r = false →
                  no_triple_nl (String c (squeeze_nl r)) = true).
  { intros Hc. cbn [no_triple_nl]. rewrite squeeze_nl_start2, Hc, IH.
    reflexivity. }
  destruct r as [|c1 [|c2 r2]].
  - apply Hkeep. apply andb_false_r.
  - apply Hkeep. simpl. rewrite !andb_false_r. reflexivity.
  - destruct (is_nl c && is_nl c1 && is_nl c2) eqn:Hnl; [exact IH|].
    apply Hkeep. simpl. rewrite andb_assoc. exact Hnl.
Qed.

Lemma squeeze_nl_fixed (s : string) :
  no_triple_nl s = true → squeeze_nl s = s.
Proof.
  induction s as [|c r IH]; [reflexivity|].
  cbn [no_triple_nl]. intros Hs. apply andb_true_iff in Hs as [Hc Hr].
  cbn [squeeze_nl]. rewrite (IH Hr).
  destruct r as [|c1 [|c2 r2]]; try reflexivity.
  apply negb_true_iff in Hc. simpl in Hc. rewrite andb_assoc in Hc.
  rewrite Hc. reflexivity.
Qed.

(** *** Step 4: runs of blanks *)

Lemma squeeze_blanks_start_run (s : string) :
  starts_with is_blank (squeeze_blanks_from true s) = false.
Proof.
  induction s as [|c r IH]; [reflexivity|].
  simpl. destruct (is_blank c) eqn:Hb; [exact IH|]. simpl. exact Hb.
Qed.

Lemma squeeze_blanks_start_blank (s : string) :
  starts_with is_blank (squeeze_blanks_from false s)
  = starts_with is_blank s.
Proof.
  destruct s as [|c r]; [reflexivity|].
  simpl. destruct (is_blank c) eqn:Hb; [|simpl; exact Hb].
  destruct r as [|c' r']; [simpl; exact Hb|].
  destruct (is_blank c'); simpl; [reflexivity|exact Hb].
Qed.

Lemma squeeze_blanks_start_nl (s : string) :
  starts_with is_nl (squeeze_blanks_from false s) = starts_with is_nl s.
Proof.
  destruct s as [|c r]; [reflexivity|].
  simpl. destruct (is_blank c) eqn:Hb; [|reflexivity].
  rewrite (blank_not_nl _ Hb).
  destruct r as [|c' r']; [simpl; apply blank_not_nl, Hb|].
  destruct (is_blank c'); simpl; [reflexivity|apply blank_not_nl, Hb].
Qed.

Lemma squeeze_blanks_start_nl_run (s : string) :
  starts_with is_nl (squeeze_blanks_from true s) = blanks_then_nl s.
Proof.
  induction s as [|c r IH]; [reflexivity|].
  simpl. destruct (is_blank c) eqn:Hb.
  - rewrite (blank_not_nl _ Hb). exact IH.
  - simpl. destruct (is_nl c); reflexivity.
Qed.

Lemma squeeze_blanks_start_nl2 (s : string) :
  starts_nl2 (squeeze_blanks_from false s) = starts_nl2 s.
Proof.
  destruct s as [|c r]; [reflexivity|].
  simpl. destruct (is_blank c) eqn:Hb.
  - rewrite (blank_not_nl _ Hb).
    destruct r as [|c' r']; [simpl; rewrite (blank_not_nl _ Hb); reflexivity|].
    destruct (is_blank c'); simpl; [reflexivity|].
    rewrite (blank_not_nl _ Hb). reflexivity.
  - simpl. rewrite squeeze_blanks_start_nl. reflexivity.
Qed.

Lemma squeeze_blanks_every (s : string) :
  ∀ b, every not_nbsp s = true →
       every not_nbsp (squeeze_blanks_from b s) = true.
Proof.
  induction s as [|c r IH]; intros b; [reflexivity|].
  cbn [every]. intros Hs. apply andb_true_iff in Hs as [Hc Hr].
  simpl. destruct (is_blank c).
  - destruct b; [exact (IH true Hr)|].
    destruct r as [|c' r']; [simpl; rewrite Hc; reflexivity|].
    destruct (is_blank c'); cbn [every];
      [rewrite (IH true Hr)|rewrite Hc, (IH false Hr)]; reflexivity.
  - cbn [every]. rewrite Hc, (IH false Hr). reflexivity.
Qed.

Lemma squeeze_blanks_no_blank_pair (s : string) :
  ∀ b, no_pair is_blank is_blank (squeeze_blanks_from b s) = true.
Proof.
  induction s as [|c r IH]; intros b; [reflexivity|].
  simpl. destruct (is_blank c) eqn:Hb.
  - destruct b; [exact (IH true)|].
    destruct r as [|c' r']; [simpl; rewrite andb_false_r; reflexivity|].
    destruct (is_blank c') eqn:Hb'; cbn [no_pair].
    + rewrite squeeze_blanks_start_run, (IH true), andb_false_r. reflexivity.
    + rewrite squeeze_blanks_start_blank, (IH false). simpl.
      rewrite Hb', andb_false_r. reflexivity.
  - cbn [no_pair]. rewrite Hb, (IH false). reflexivity.
Qed.

Lemma squeeze_blanks_no_blank_nl (s : string) :
  ∀ b, no_pair is_blank is_nl s = true →
       no_pair is_blank is_nl (squeeze_blanks_from b s) = true.
Proof.
  induction s as [|c r IH]; intros b; [reflexivity|].
  intros Hs. pose proof Hs as Hs'.
  cbn [no_pair] in Hs. apply andb_true_iff in Hs as [Hc Hr].
  simpl. destruct (is_blank c) eqn:Hb.
  - destruct b; [exact (IH true Hr)|].
    destruct r as [|c' r']; [simpl; rewrite andb_false_r; reflexivity|].
    destruct (is_blank c') eqn:Hb'; cbn [no_pair].
    + rewrite squeeze_blanks_start_nl_run, (IH true Hr).
      rewrite (no_pair_blanks_then_nl c _ Hs' Hb), andb_false_r.
      reflexivity.
    + rewrite squeeze_blanks_start_nl, (IH false Hr), Hb, Hc.
      reflexivity.
  - cbn [no_pair]. rewrite Hb, (IH false Hr). reflexivity.
Qed.

Lemma squeeze_blanks_no_triple (s : string) :
  ∀ b, no_triple_nl s = true →
       no_triple_nl (squeeze_blanks_from b s) = true.
Proof.
  induction s as [|c r IH]; intros b; [reflexivity|].
  cbn [no_triple_nl]. intros Hs. apply andb_true_iff in Hs as [Hc Hr].
  simpl. destruct (is_blank c) eqn:Hb.
  - destruct b; [exact (IH true Hr)|].
    destruct r as [|c' r']; [simpl; rewrite andb_false_r; reflexivity|].
    destruct (is_blank c'); cbn [no_triple_nl].
    + rewrite (IH true Hr). reflexivity.
    + rewrite (IH false Hr), (blank_not_nl _ Hb). reflexivity.
  - cbn [no_triple_nl].
    rewrite squeeze_blanks_start_nl2, Hc, (IH false Hr). reflexivity.
Qed.

Lemma squeeze_blanks_fixed (s : string) :
  no_pair is_blank is_blank s = true → squeeze_blanks_from false s = s.
Proof.
  induction s as [|c r IH]; [reflexivity|].
  cbn [no_pair]. intros Hs. apply andb_true_iff in Hs as [Hc Hr].
  simpl. rewrite (IH Hr).
  destruct (is_blank c) eqn:Hb; [|reflexivity].
  destruct r as [|c' r']; [reflexivity|].
  simpl in Hc. apply negb_true_iff in Hc. rewrite Hc. reflexivity.
Qed.

(** *** Step 5: trimming keeps all of it *)

Lemma lstrip_suffix (s : string) :
  ∃ pre, s = pre +:+ lstrip s.
Proof.
  induction s as [|c r [pre IH]]; [exists ""; reflexivity|].
  simpl. destruct (is_space c); [|exists ""; reflexivity].
  exists (String c pre). rewrite StrLemmas.app_cons, <- IH. reflexivity.
Qed.

Lemma rstrip_prefix (s : string) :
  ∃ post, s = rstrip s +:+ post.
Proof.
  induction s as [|c r [post IH]]; [exists ""; reflexivity|].
  simpl. destruct (rstrip r) as [|c' r'] eqn:Hr.
  - destruct (is_space c).
    + exists (String c r). reflexivity.
    + exists post. rewrite StrLemmas.app_cons, StrLemmas.app_nil_l.
      rewrite StrLemmas.app_nil_l in IH. rewrite <- IH. reflexivity.
  - exists post. rewrite StrLemmas.app_cons, <- IH. reflexivity.
Qed.

Lemma starts_with_app (p : ascii → bool) (a b : string) :
  starts_with p a = true → starts_with p (a +:+ b) = true.
Proof. destruct a; [discriminate|trivial]. Qed.

Lemma starts_nl2_app (a b : string) :
  starts_nl2 a = true → starts_nl2 (a +:+ b) = true.
Proof.
  destruct a as [|c [|c' r]]; try discriminate; [|trivial].
  simpl. rewrite andb_false_r. discriminate.
Qed.

Lemma every_app (p : ascii → bool) (a b : string) :
  every p (a +:+ b) = true → every p a = true ∧ every p b = true.
Proof.
  induction a as [|c r IH]; [rewrite StrLemmas.app_nil_l; auto|].
  rewrite StrLemmas.app_cons. cbn [every]. intros Hs.
  apply andb_true_iff in Hs as [Hc Hr]. destruct (IH Hr) as [Ha Hb].
  rewrite Hc, Ha. auto.
Qed.

Lemma no_pair_app (p q : ascii → bool) (a b : string) :
  no_pair p q (a +:+ b) = true →
  no_pair p q a = true ∧ no_pair p q b = true.
Proof.
  induction a as [|c r IH]; [rewrite StrLemmas.app_nil_l; auto|].
  rewrite StrLemmas.app_cons. cbn [no_pair]. intros Hs.
  apply andb_true_iff in Hs as [Hc Hr]. destruct (IH Hr) as [Ha Hb].
  rewrite Ha. split; [|exact Hb]. rewrite andb_true_r.
  destruct (p c && starts_with q r) eqn:Hpq; [|reflexivity].
  apply andb_true_iff in Hpq as [Hpc Hqr].
  rewrite Hpc, (starts_with_app _ _ b Hqr) in Hc. discriminate.
Qed.

Lemma no_triple_nl_app (a b : string) :
  no_triple_nl (a +:+ b) = true →
  no_triple_nl a = true ∧ no_triple_nl b = true.
Proof.
  induction a as [|c r IH]; [rewrite StrLemmas.app_nil_l; auto|].
  rewrite StrLemmas.app_cons. cbn [no_triple_nl]. intros Hs.
  apply andb_true_iff in Hs as [Hc Hr]. destruct (IH Hr) as [Ha Hb].
  rewrite Ha. split; [|exact Hb]. rewrite andb_true_r.
  destruct (is_nl c && starts_nl2 r) eqn:Hpq; [|reflexivity].
  apply andb_true_iff in Hpq as [Hpc Hqr].
  rewrite Hpc, (starts_nl2_app _ b Hqr) in Hc. discriminate.
Qed.

Lemma strip_factor (s : string) :
  ∃ pre post, s = pre +:+ strip s +:+ post.
Proof.
  destruct (lstrip_suffix s) as [pre Hpre].
  destruct (rstrip_prefix (lstrip s)) as [post Hpost].
  exists pre, post. unfold strip. rewrite <- Hpost. exact Hpre.
Qed.

(** After the four steps, before the trimming. *)
Lemma steps_normal (s : string) :
  let t := squeeze_blanks
             (squeeze_nl
                (drop_blanks_before_nl
                   (replace_char "160"%char " "%char s))) in
  every not_nbsp t = true
  ∧ no_pair is_blank is_nl t = true
  ∧ no_triple_nl t = true
  ∧ no_pair is_blank is_blank t = true.
Proof.
  unfold squeeze_blanks. split; [|split; [|split]].
  - apply squeeze_blanks_every, squeeze_nl_every, drop_blanks_every,
      replace_nbsp_every.
  - apply squeeze_blanks_no_blank_nl, squeeze_nl_no_pair,
      drop_blanks_no_pair.
  - apply squeeze_blanks_no_triple, squeeze_nl_no_triple.
  - apply squeeze_blanks_no_blank_pair.
Qed.

(** Trimming a text keeps what holds of every part of it. *)
Lemma strip_keeps (t : string) :
  every not_nbsp t = true →
  no_pair is_blank is_nl t = true →
  no_triple_nl t = true →
  no_pair is_blank is_blank t = true →
  every not_nbsp (strip t) = true
  ∧ no_pair is_blank is_nl (strip t) = true
  ∧ no_triple_nl (strip t) = true
  ∧ no_pair is_blank is_blank (strip t) = true.
Proof.
  intros He Hbn Ht Hbb.
  destruct (strip_factor t) as (pre & post & Hfactor).
  rewrite Hfactor in He, Hbn, Ht, Hbb.
  apply every_app in He as [_ He]. apply every_app in He as [He _].
  apply no_pair_app in Hbn as [_ Hbn]. apply no_pair_app in Hbn as [Hbn _].
  apply no_triple_nl_app in Ht as [_ Ht].
  apply no_triple_nl_app in Ht as [Ht _].
  apply no_pair_app in Hbb as [_ Hbb]. apply no_pair_app in Hbb as [Hbb _].
  auto.
Qed.

(** X23. The result of [_collapse_ws] is normalized, whatever the text:
    it has no no-break space, no space or tab directly before a line
    break, no three line breaks in a row, no two spaces or tabs in a row,
    and no white space at either end. *)
Theorem _collapse_ws_normalized (s : string) :
  every not_nbsp (_collapse_ws s) = true
  ∧ no_pair is_blank is_nl (_collapse_ws s) = true
  ∧ no_triple_nl (_collapse_ws s) = true
  ∧ no_pair is_blank is_blank (_collapse_ws s) = true
  ∧ strip (_collapse_ws s) = _collapse_ws s.
Proof.
  destruct (steps_normal s) as (He & Hbn & Ht & Hbb).
  destruct (strip_keeps _ He Hbn Ht Hbb) as (He' & Hbn' & Ht' & Hbb').
  unfold _collapse_ws.
  split; [exact He'|]. split; [exact Hbn'|]. split; [exact Ht'|].
  split; [exact Hbb'|]. apply PyProps.strip_idem.
Qed.

(** A normalized text is left as it is by each of the five steps. *)
Lemma normalized_fixed (s : string) : normalized s → _collapse_ws s = s.
Proof.
  intros (He & Hbn & Ht & Hbb & Hs). unfold _collapse_ws, squeeze_blanks.
  rewrite (replace_nbsp_fixed _ He), (drop_blanks_fixed _ Hbn).
  rewrite (squeeze_nl_fixed _ Ht), (squeeze_blanks_fixed _ Hbb). exact Hs.
Qed.

(** X24. [_collapse_ws] is idempotent: normalizing a normalized text
    changes nothing. *)
Theorem _collapse_ws_idempotent (s : string) :
  _collapse_ws (_collapse_ws s) = _collapse_ws s.
Proof.
  apply normalized_fixed.
  destruct (steps_normal s) as (He & Hbn & Ht & Hbb).
  destruct (strip_keeps _ He Hbn Ht Hbb) as (He' & Hbn' & Ht' & Hbb').
  unfold _collapse_ws.
  repeat split; try assumption. apply PyProps.strip_idem.
Qed.

(** Runs of blanks, blanks before a line break, four line breaks and
    no-break spaces, all in one text. *)
Example _collapse_ws_sample :
  _collapse_ws (String "160" ("a  b " +:+ Synthesize.nl +:+ Synthesize.nl
                              +:+ Synthesize.nl +:+ Synthesize.nl
                              +:+ " c" +:+ String "160" (String "160" "d  ")))
  = "a b" +:+ Synthesize.nl +:+ Synthesize.nl +:+ " c d".
Proof. vm_compute. reflexivity. Qed.

End ExtractTextProps.

(** ** The validation of the settings *)

Module SettingsProps.
Import SettingsInit Synthesize.

Section Props.
Context `{Config} `{MoreSettings} `{FileSystem} `{ChatBackend}.

(** X25. Settings that pass the validation name a provider the
    synthesizer supports, with its key: the provider is exactly "openai"
    (with an OpenAI key), "ollama" or "groq" (with a Groq key); "gemini",
    which the error message of the validation lists as allowed, never
    passes, since the key it needs is not a field of the settings. With
    the search provider "serpapi" the SerpAPI key is set. And under such
    settings [synthesize_answer], given contexts, always gets as far as a
    chat request to that provider. *)
Theorem validated_settings_supported :
  __post_init__ = InitOk →
  (LLM_PROVIDER SETTINGS = "openai" ∧ OPENAI_API_KEY SETTINGS ≠ ""
   ∨ LLM_PROVIDER SETTINGS = "ollama"
   ∨ LLM_PROVIDER SETTINGS = "groq" ∧ GROQ_API_KEY SETTINGS ≠ "")
  ∧ (SEARCH_PROVIDER = "serpapi" → SERPAPI_API_KEY SETTINGS ≠ "")
  ∧ makedirs CHROMA_PERSIST_DIR = true
  ∧ ∀ question ctxs style temperature,
      ctxs ≠ [] →
      ∃ system user rest,
        snd (synthesize_answer question ctxs style temperature)
        = EvChat (LLM_PROVIDER SETTINGS) system user :: rest.
Proof.
  unfold __post_init__. intros Hinit.
  assert (Hprovider :
    LLM_PROVIDER SETTINGS = "openai" ∧ OPENAI_API_KEY SETTINGS ≠ ""
    ∨ LLM_PROVIDER SETTINGS = "ollama"
    ∨ LLM_PROVIDER SETTINGS = "groq" ∧ GROQ_API_KEY SETTINGS ≠ "").
  { destruct (String.eqb_spec (LLM_PROVIDER SETTINGS) "gemini");
      [discriminate|].
    destruct (String.eqb_spec (LLM_PROVIDER SETTINGS) "openai").
    { destruct (truthy (OPENAI_API_KEY SETTINGS)) eqn:Hkey;
        [|discriminate].
      left. split; [assumption|apply PyProps.truthy_true, Hkey]. }
    destruct (String.eqb_spec (LLM_PROVIDER SETTINGS) "ollama");
      [right; left; assumption|].
    destruct (String.eqb_spec (LLM_PROVIDER SETTINGS) "groq");
      [|discriminate].
    destruct (truthy (GROQ_API_KEY SETTINGS)) eqn:Hkey; [|discriminate].
    right. right. split; [assumption|apply PyProps.truthy_true, Hkey]. }
  split; [exact Hprovider|].
  assert (Hrest :
    (if String.eqb SEARCH_PROVIDER "serpapi"
        && negb (truthy (SERPAPI_API_KEY SETTINGS))
     then InitRuntimeError
            "SEARCH_PROVIDER=serpapi but SERPAPI_API_KEY is missing in .env"
     else if makedirs CHROMA_PERSIST_DIR then InitOk else InitOSError)
    = InitOk).
  { destruct Hprovider as [[Hp _]|[Hp|[Hp _]]]; rewrite Hp in Hinit;
      simpl in Hinit.
    - destruct (negb (truthy (OPENAI_API_KEY SETTINGS)));
        [discriminate|exact Hinit].
    - exact Hinit.
    - destruct (negb (truthy (GROQ_API_KEY SETTINGS)));
        [discriminate|exact Hinit]. }
  clear Hinit. split; [|split].
  - intros Hsearch. rewrite Hsearch in Hrest. simpl in Hrest.
    destruct (truthy (SERPAPI_API_KEY SETTINGS)) eqn:Hkey;
      [apply PyProps.truthy_true, Hkey|discriminate].
  - destruct (String.eqb SEARCH_PROVIDER "serpapi"
              && negb (truthy (SERPAPI_API_KEY SETTINGS)));
      [discriminate|].
    destruct (makedirs CHROMA_PERSIST_DIR); [reflexivity|discriminate].
  - intros question ctxs style temperature Hctxs.
    unfold synthesize_answer.
    destruct ctxs as [|c rest]; [contradiction|]. cbv zeta.
    match goal with
    | |- context [openai_chat _ _ ?u _] => generalize u
    end.
    intros user. generalize (_dedupe_urls (c :: rest)). intros cites.
    destruct Hprovider as [[Hp _]|[Hp|[Hp _]]]; rewrite Hp.
    + change (String.eqb (strip (lower "openai")) "openai") with true.
      cbv iota.
      destruct (openai_chat (LLM_MODEL SETTINGS) sys_prompt user temperature);
        do 3 eexists; reflexivity.
    + change (String.eqb (strip (lower "ollama")) "openai") with false.
      change (String.eqb (strip (lower "ollama")) "ollama") with true.
      cbv iota. unfold ollama_content.
      destruct (ollama_post "http://localhost:11434/api/chat"
                  (LLM_MODEL SETTINGS) sys_prompt user temperature)
        as [r| |]; [|do 3 eexists; reflexivity|do 3 eexists; reflexivity].
      destruct (ollama_status r =? 404).
      * destruct (ollama_post "http://localhost:11434/api/generate"
                    (LLM_MODEL SETTINGS) "" _ temperature)
          as [r2| |]; [|do 3 eexists; reflexivity|do 3 eexists; reflexivity].
        destruct ((400 <=? ollama_status r2) && (ollama_status r2 <? 600));
          do 3 eexists; reflexivity.
      * destruct ((400 <=? ollama_status r) && (ollama_status r <? 600));
          do 3 eexists; reflexivity.
    + change (String.eqb (strip (lower "groq")) "openai") with false.
      change (String.eqb (strip (lower "groq")) "ollama") with false.
      change (String.eqb (strip (lower "groq")) "groq") with true.
      cbv iota.
      destruct (groq_chat (LLM_MODEL SETTINGS) sys_prompt user temperature);
        do 3 eexists; reflexivity.
Qed.

End Props.

Lemma validated_settings_supported_witness :
  ∃ system user rest,
    snd (@synthesize_answer Fixtures.config Fixtures.chat_fixed
           "What is known?" Fixtures.ctxs_abac "concise" float_0_2)
    = EvChat "openai" system user :: rest.
Proof.
  apply (@validated_settings_supported Fixtures.config
           Fixtures2.more_settings Fixtures2.fs_ok Fixtures.chat_fixed).
  - reflexivity.
  - discriminate.
Defined.

End SettingsProps.

(** ** The ingestion pipeline and the agent *)

Module IngestProps.
Import Extract Ingest IngestSpec EmbedChunksMoreSpec.

Lemma slice_to_prefix {A : Type} (n : Z) (l : list A) :
  ∃ k, slice_to n l = take k l ∧ (0 ≤ n → k = Z.to_nat n).
Proof.
  unfold slice_to. destruct (0 <=? n) eqn:Hn.
  - eauto.
  - apply Z.leb_gt in Hn. eexists. split; [reflexivity|lia].
Qed.

Lemma slice_to_length {A : Type} (n : Z) (l : list A) :
  (length (slice_to n l) ≤ length l)%nat
  ∧ (0 ≤ n → Z.of_nat (length (slice_to n l)) ≤ n).
Proof.
  destruct (slice_to_prefix n l) as (k & -> & Hk).
  rewrite length_take. split; [lia|]. intros Hn. rewrite (Hk Hn). lia.
Qed.

Lemma slice_to_elem_of {A : Type} (n : Z) (l : list A) (x : A) :
  x ∈ slice_to n l → x ∈ l.
Proof.
  destruct (slice_to_prefix n l) as (k & -> & _).
  intros Hx. apply (elem_of_sublist _ _ _ Hx), sublist_take.
Qed.

Lemma backoff_log_events (u : string) (timeout : Z) (k : nat) :
  ∀ backoff,
    Forall (page_event u)
      (FetchPageLogSpec.backoff_log u timeout k backoff).
Proof.
  induction k as [|k IH]; intros backoff; [constructor|].
  simpl. constructor; [left; eauto|].
  destruct k as [|k']; [constructor|].
  constructor; [right; eauto|]. apply IH.
Qed.

Lemma records_of_length (chunks : list SplitChunks.Chunk)
    (by_id : gmap string vector) (ts : string) :
  (length (records_of chunks by_id ts) ≤ length chunks)%nat.
Proof.
  unfold records_of. induction chunks as [|c rest IH]; [reflexivity|].
  cbn [omap list_omap].
  destruct (by_id !! SplitChunks.chunk_id c); cbn [length]; lia.
Qed.

Section Props.
Context `{UrlLib} `{Config} `{MoreSettings} `{SerpApi} `{Requests}
  `{HtmlParser} `{TextSplitter} `{Hashlib} `{EmbeddingBackend} `{Unicode}
  `{Clock}.

(** Fetching returns a page for the URL, after requests for that URL
    only. *)
Lemma fetch_page_run (u : string) :
  ∃ page lg,
    FetchPage.fetch_page u None = (Return page, lg)
    ∧ FetchPage.url page = u
    ∧ Forall (page_event u) lg.
Proof.
  unfold FetchPage.fetch_page.
  destruct (FetchPage._is_http_url u); simpl.
  - destruct (FetchPageProps.fetch_loop_returns u
                (REQUEST_TIMEOUT_SECONDS SETTINGS)
                (MAX_RETRIES SETTINGS + 1)
                (Z.to_nat (MAX_RETRIES SETTINGS + 1)) 0 1 [])
      as (page & lg & Hrun & Hurl & _); [lia|].
    destruct (FetchPageMore.fetch_loop_log u
                (REQUEST_TIMEOUT_SECONDS SETTINGS)
                (MAX_RETRIES SETTINGS + 1)
                (Z.to_nat (MAX_RETRIES SETTINGS + 1)) 0 1 [])
      as (k & Hlog & _); [lia|].
    rewrite Hrun in Hlog |- *. simpl in Hlog. subst lg.
    exists page, (FetchPageLogSpec.backoff_log u
                    (REQUEST_TIMEOUT_SECONDS SETTINGS) k 1).
    split; [reflexivity|]. split; [exact Hurl|]. apply backoff_log_events.
  - eexists _, _. split; [reflexivity|]. split; [reflexivity|constructor].
Qed.

(** Step 2 returns: every hit is fetched once and ends up as a document
    that passes the quality gate, or as a skipped page. *)
Lemma fetch_docs_run (hits : list SearchWeb.SearchHit) :
  ∀ (docs : list Doc) (skipped : Z) (log : list event),
    ∃ docs' skipped' lg,
      fetch_docs hits docs skipped log
      = (Return (docs ++ docs', skipped'), log ++ lg)
      ∧ Forall (λ d, _quality_filter d = true) docs'
      ∧ Z.of_nat (length docs') + (skipped' - skipped)
        = Z.of_nat (length hits)
      ∧ skipped ≤ skipped'
      ∧ Forall (λ ev, ∃ h, h ∈ hits ∧ page_event (SearchWeb.url h) ev) lg.
Proof.
  induction hits as [|item rest IH]; intros docs skipped log; simpl.
  - exists [], skipped, []. rewrite !app_nil_r. cbn [length].
    split; [reflexivity|]. split; [constructor|]. split; [lia|].
    split; [lia|constructor].
  - destruct (fetch_page_run (SearchWeb.url item))
      as (page & lg & Hrun & _ & Hlg).
    rewrite Hrun.
    assert (Hhere : Forall (λ ev, ∃ h, h ∈ item :: rest
                                       ∧ page_event (SearchWeb.url h) ev) lg).
    { eapply Forall_impl; [exact Hlg|].
      intros ev Hev. exists item. split; [left|exact Hev]. }
    assert (Hlater : ∀ l,
      Forall (λ ev, ∃ h, h ∈ rest ∧ page_event (SearchWeb.url h) ev) l →
      Forall (λ ev, ∃ h, h ∈ item :: rest
                         ∧ page_event (SearchWeb.url h) ev) (lg ++ l)).
    { intros l Hl. apply Forall_app. split; [exact Hhere|].
      eapply Forall_impl; [exact Hl|].
      intros ev (h & Hh & Hev). exists h. split; [right; exact Hh|exact Hev]. }
    assert (Hskip : ∃ docs' skipped' lg',
      fetch_docs rest docs (skipped + 1) (log ++ lg)
      = (Return (docs ++ docs', skipped'), log ++ lg')
      ∧ Forall (λ d, _quality_filter d = true) docs'
      ∧ Z.of_nat (length docs') + (skipped' - skipped)
        = Z.of_nat (S (length rest))
      ∧ skipped ≤ skipped'
      ∧ Forall (λ ev, ∃ h, h ∈ item :: rest
                           ∧ page_event (SearchWeb.url h) ev) lg').
    { destruct (IH docs (skipped + 1) (log ++ lg))
        as (docs' & skipped' & lg' & Heq & Hq & Hcount & Hle & Hev).
      exists docs', skipped', (lg ++ lg'). rewrite Heq, app_assoc.
      split; [reflexivity|]. split; [exact Hq|].
      split; [rewrite Nat2Z.inj_succ; lia|].
      split; [lia|apply Hlater, Hev]. }
    destruct (negb (FetchPage.status page =? 200)
              || negb (truthy (FetchPage.html page))); [exact Hskip|].
    destruct (_quality_filter
                (extract_readable_text (FetchPage.html page)
                   (FetchPage.url page))) eqn:Hq; simpl; [|exact Hskip].
    destruct (IH (docs ++ [extract_readable_text (FetchPage.html page)
                             (FetchPage.url page)]) skipped (log ++ lg))
      as (docs' & skipped' & lg' & Heq & Hq' & Hcount & Hle & Hev).
    exists (extract_readable_text (FetchPage.html page) (FetchPage.url page)
            :: docs'), skipped', (lg ++ lg').
    rewrite Heq, <- !app_assoc. split; [reflexivity|].
    split; [constructor; assumption|].
    split; [cbn [length]; rewrite !Nat2Z.inj_succ; lia|].
    split; [lia|apply Hlater, Hev].
Qed.

(** Every run of the pipeline: its effects are page requests for search
    hits followed by embedding requests; its store is the one it started
    with or the result of one upsert into the namespace; and a summary it
    returns is sound. *)
Lemma ingest_topic_run (store : Store) (query : string)
    (namespace : option string) :
  let ns := effective_namespace query namespace in
  let raw := SearchWeb.search_web query (MAX_PAGES_TO_SCRAPE * 2) in
  ∃ flog elog records,
    snd (ingest_topic store query namespace) = flog ++ elog
    ∧ Forall (λ ev, ∃ h, h ∈ raw ∧ page_event (SearchWeb.url h) ev) flog
    ∧ Forall embed_event elog
    ∧ (snd (fst (ingest_topic store query namespace)) = store
       ∨ records ≠ []
         ∧ snd (fst (ingest_topic store query namespace))
           = snd (UpsertVectors.upsert_vectors store ns records))
    ∧ ∀ s, fst (fst (ingest_topic store query namespace)) = Return s →
           Ingest.namespace s = ns
           ∧ summary_ok (length raw) s
           ∧ (0 < indexed_chunks s →
              records ≠ []
              ∧ snd (fst (ingest_topic store query namespace))
                = snd (UpsertVectors.upsert_vectors store ns records)).
Proof.
  intros ns raw. unfold ingest_topic.
  fold (effective_namespace query namespace). fold ns. fold raw.
  assert (Hzero : ∀ skipped pages found,
    0 ≤ skipped → 0 ≤ pages → pages + skipped ≤ Z.of_nat found →
    (0 ≤ MAX_PAGES_TO_SCRAPE → pages + skipped ≤ MAX_PAGES_TO_SCRAPE) →
    summary_ok found {| namespace := ns; indexed_pages := pages;
                        indexed_chunks := 0; skipped_pages := skipped;
                        sources := [] |}).
  { intros skipped pages found Hs Hp Hf Hw.
    split; simpl; try assumption; try lia; [constructor|left; reflexivity]. }
  destruct raw as [|hit raw0] eqn:Hraw.
  { exists [], [], []. simpl. split; [reflexivity|].
    split; [constructor|]. split; [constructor|]. split; [left; reflexivity|].
    intros s [= <-]. split; [reflexivity|].
    split; [apply Hzero; simpl; lia|simpl; lia]. }
  rewrite <- Hraw. clear hit raw0 Hraw.
  destruct (fetch_docs_run (slice_to MAX_PAGES_TO_SCRAPE raw) [] 0 [])
    as (docs & skipped & flog & Hfetch & Hquality & Hcount & Hskipped & Hflog).
  rewrite Hfetch. simpl app.
  destruct (slice_to_length MAX_PAGES_TO_SCRAPE raw) as [Hlen Hwant].
  assert (Hfrom : Forall (λ ev, ∃ h, h ∈ raw
                                     ∧ page_event (SearchWeb.url h) ev) flog).
  { eapply Forall_impl; [exact Hflog|].
    intros ev (h & Hh & Hev). exists h.
    split; [eapply slice_to_elem_of, Hh|exact Hev]. }
  assert (Hnoembed : ∀ out : outcome Summary,
    (∀ s, out = Return s →
          Ingest.namespace s = ns ∧ summary_ok (length raw) s
          ∧ ¬ 0 < indexed_chunks s) →
    ∃ flog0 elog (records : list UpsertVectors.InputRecord),
      snd (out, store, flog) = flog0 ++ elog
      ∧ Forall (λ ev, ∃ h, h ∈ raw ∧ page_event (SearchWeb.url h) ev) flog0
      ∧ Forall embed_event elog
      ∧ (snd (fst (out, store, flog)) = store
         ∨ records ≠ []
           ∧ snd (fst (out, store, flog))
             = snd (UpsertVectors.upsert_vectors store ns records))
      ∧ ∀ s, fst (fst (out, store, flog)) = Return s →
             Ingest.namespace s = ns
             ∧ summary_ok (length raw) s
             ∧ (0 < indexed_chunks s →
                records ≠ []
                ∧ snd (fst (out, store, flog))
                  = snd (UpsertVectors.upsert_vectors store ns records))).
  { intros out Hout. exists flog, [], []. simpl. rewrite app_nil_r.
    split; [reflexivity|]. split; [exact Hfrom|]. split; [constructor|].
    split; [left; reflexivity|].
    intros s Hs. destruct (Hout s Hs) as (Hns & Hok & Hnone).
    split; [exact Hns|]. split; [exact Hok|]. intros Hpos. contradiction. }
  destruct docs as [|d0 docs0] eqn:Hdocs.
  { apply Hnoembed. intros s [= <-]. split; [reflexivity|].
    split; [apply Hzero; simpl in *; lia|simpl; lia]. }
  assert (Hdocs_ne : docs ≠ []) by (rewrite Hdocs; discriminate).
  rewrite <- Hdocs in *. clear d0 docs0 Hdocs.
  destruct (chunk_docs docs []) as [chunks|e|];
    [|apply Hnoembed; discriminate|apply Hnoembed; discriminate].
  destruct chunks as [|c0 chunks0] eqn:Hchunks.
  { apply Hnoembed. intros s [= <-]. split; [reflexivity|].
    split; [apply Hzero; simpl in *; lia|simpl; lia]. }
  rewrite <- Hchunks. clear c0 chunks0 Hchunks.
  set (capped := if MAX_TOTAL_CHUNKS <? Z.of_nat (length chunks)
                 then slice_to MAX_TOTAL_CHUNKS chunks else chunks).
  assert (Hcap : 0 ≤ MAX_TOTAL_CHUNKS →
                 Z.of_nat (length capped) ≤ MAX_TOTAL_CHUNKS).
  { intros Hmax. unfold capped.
    destruct (MAX_TOTAL_CHUNKS <? Z.of_nat (length chunks)) eqn:Hlt.
    - apply slice_to_length, Hmax.
    - apply Z.ltb_ge in Hlt. exact Hlt. }
  pose proof (EmbedChunksMore.embed_chunks_events capped
                (Some (EMBEDDING_MODEL SETTINGS)) 64) as Helog.
  destruct (EmbedChunks.embed_chunks capped (Some (EMBEDDING_MODEL SETTINGS))
              64) as [[vecs|e|] elog]; simpl in Helog.
  2, 3: exists flog, elog, []; simpl;
    (split; [reflexivity|]); (split; [exact Hfrom|]);
    (split; [exact Helog|]); (split; [left; reflexivity|]); discriminate.
  set (records := records_of capped (by_id_of vecs) Common.now_iso).
  pose proof (UpsertVectorsMore.upsert_vectors_count_rows store ns records)
    as Hrows.
  pose proof (records_of_length capped (by_id_of vecs) Common.now_iso)
    as Hrecs. fold records in Hrecs.
  destruct (UpsertVectors.upsert_vectors store ns records)
    as [[count|e|] store'] eqn:Hup; simpl in Hrows.
  2, 3: exists flog, elog, records; simpl;
    (split; [reflexivity|]); (split; [exact Hfrom|]);
    (split; [exact Helog|]);
    (split;
       [destruct (decide (ns = "")) as [Hns|Hns];
        [left; unfold UpsertVectors.upsert_vectors in Hup;
         rewrite Hns in Hup; injection Hup as _ <-; reflexivity
        |rewrite (UpsertVectorsMore.upsert_vectors_store _ _ _ Hns) in Hup;
         discriminate]
       |discriminate]).
  destruct (Hrows count eq_refl) as [Hcount_range Hcount_pos].
  exists flog, elog, records. simpl.
  split; [reflexivity|]. split; [exact Hfrom|]. split; [exact Helog|].
  assert (Hstore : records ≠ [] →
            records ≠ []
            ∧ store' = snd (UpsertVectors.upsert_vectors store ns records))
    by (intros Hne; split; [exact Hne|rewrite Hup; reflexivity]).
  split.
  { destruct records as [|r0 rs] eqn:Hr; [|right; apply Hstore; discriminate].
    left. unfold UpsertVectors.upsert_vectors in Hup.
    destruct (negb (truthy ns)); injection Hup as _ <-; reflexivity. }
  intros s [= <-]. split; [reflexivity|]. split.
  - split; simpl.
    + lia.
    + lia.
    + lia.
    + intros Hw. specialize (Hwant Hw). lia.
    + lia.
    + intros Hmax. specialize (Hcap Hmax). lia.
    + intros _. destruct docs; [contradiction|cbn [length]; lia].
    + apply Forall_fmap. eapply Forall_impl; [exact Hquality|].
      intros d Hd. unfold _quality_filter, _MIN_TEXT_LEN in Hd.
      apply Z.leb_le in Hd. exact Hd.
    + right. rewrite length_fmap. reflexivity.
  - simpl. intros Hpos. apply Hstore, Hcount_pos, Hpos.
Qed.

Lemma effective_namespace_not_empty (text : string)
    (namespace : option string) :
  effective_namespace text namespace ≠ "".
Proof.
  unfold effective_namespace, opt_truthy.
  destruct namespace as [n|]; [|apply CommonProps.slugify_not_empty].
  destruct (truthy n) eqn:Hn;
    [apply PyProps.truthy_true, Hn|apply CommonProps.slugify_not_empty].
Qed.

Lemma effective_namespace_given (text ns : string) :
  ns ≠ "" → effective_namespace text (Some ns) = ns.
Proof.
  intros Hns. unfold effective_namespace, opt_truthy.
  apply PyProps.truthy_true in Hns. rewrite Hns. reflexivity.
Qed.

(** X26. A summary returned by [ingest_topic] is sound: its namespace is
    the given one, or the slug of the query, and is not empty; every
    search hit counted is either indexed or skipped, so that pages and
    skipped pages together are at most the number of hits, and at most
    [MAX_PAGES_TO_SCRAPE]; the number of indexed chunks is at most
    [MAX_TOTAL_CHUNKS], and positive only if a page was indexed; every
    source listed has at least 1200 characters of text; and the sources
    are none or as many as the indexed pages. *)
Theorem ingest_topic_summary (store store' : Store) (query : string)
    (namespace : option string) (s : Summary) (log : list event) :
  ingest_topic store query namespace = (Return s, store', log) →
  Ingest.namespace s = effective_namespace query namespace
  ∧ Ingest.namespace s ≠ ""
  ∧ 0 ≤ indexed_pages s ∧ 0 ≤ skipped_pages s ∧ 0 ≤ indexed_chunks s
  ∧ indexed_pages s + skipped_pages s
    ≤ Z.of_nat (length (SearchWeb.search_web query
                          (MAX_PAGES_TO_SCRAPE * 2)))
  ∧ (0 ≤ MAX_PAGES_TO_SCRAPE →
     indexed_pages s + skipped_pages s ≤ MAX_PAGES_TO_SCRAPE)
  ∧ (0 ≤ MAX_TOTAL_CHUNKS → indexed_chunks s ≤ MAX_TOTAL_CHUNKS)
  ∧ (0 < indexed_chunks s → 0 < indexed_pages s)
  ∧ Forall (λ src, 1200 ≤ text_len src) (sources s)
  ∧ (sources s = [] ∨ Z.of_nat (length (sources s)) = indexed_pages s).
Proof.
  intros Hrun.
  destruct (ingest_topic_run store query namespace)
    as (flog & elog & records & _ & _ & _ & _ & Hsum).
  rewrite Hrun in Hsum. destruct (Hsum s eq_refl) as (Hns & Hok & _).
  destruct Hok.
  split; [exact Hns|].
  split; [rewrite Hns; apply effective_namespace_not_empty|].
  auto 12.
Qed.

(** X27. Whatever happens in [ingest_topic], it touches one collection
    only and removes none: a collection whose name is not that of the
    namespace is afterwards what it was before, and a collection that
    existed still exists. *)
Theorem ingest_topic_store_isolated (store : Store) (query : string)
    (namespace : option string) (name : string) :
  (name ≠ UpsertVectors._collection_name
            (effective_namespace query namespace) →
   snd (fst (ingest_topic store query namespace)) !! name = store !! name)
  ∧ (is_Some (store !! name) →
     is_Some (snd (fst (ingest_topic store query namespace)) !! name)).
Proof.
  destruct (ingest_topic_run store query namespace)
    as (flog & elog & records & _ & _ & _ & [->|[_ ->]] & _).
  - split; trivial.
  - split.
    + apply UpsertVectorsMore.upsert_vectors_other.
    + apply UpsertVectorsProps.upsert_vectors_keeps_collections.
Qed.

(** X28. What [ingest_topic] does after the search, whatever its
    outcome: first it requests pages, each of them the URL of a search
    hit, then it makes embedding requests, with sleeps between retries;
    it makes no chat request. *)
Theorem ingest_topic_requests (store : Store) (query : string)
    (namespace : option string) :
  ∃ page_log embed_log,
    snd (ingest_topic store query namespace) = page_log ++ embed_log
    ∧ Forall (λ ev, ∃ h,
                h ∈ SearchWeb.search_web query (MAX_PAGES_TO_SCRAPE * 2)
                ∧ page_event (SearchWeb.url h) ev) page_log
    ∧ Forall embed_event embed_log.
Proof.
  destruct (ingest_topic_run store query namespace)
    as (flog & elog & records & Hlog & Hflog & Helog & _).
  exists flog, elog. auto.
Qed.

End Props.

Section Demo.
Local Existing Instance Urllib.model.
Local Existing Instance Fixtures.config.
Local Existing Instance Fixtures2.more_settings.
Local Existing Instance Fixtures.serp_one.
Local Existing Instance Fixtures2.net_page.
Local Existing Instance Fixtures2.parser_long.
Local Existing Instance Fixtures.line_splitter.
Local Existing Instance Fixtures.toy_digest.
Local Existing Instance Fixtures.embedder_const.
Local Existing Instance Fixtures2.ascii_filter.
Local Existing Instance Fixtures2.clock_fixed.

(** One hit, one page of 1500 characters, one chunk, one record. *)
Example ingest_topic_demo :
  fst (fst (ingest_topic ∅ "rocq prover" (Some "demo")))
  = Return Fixtures2.demo_summary.
Proof. vm_compute. reflexivity. Qed.

Lemma ingest_topic_summary_witness :
  Ingest.namespace Fixtures2.demo_summary ≠ "".
Proof.
  refine (proj1 (proj2 (ingest_topic_summary ∅ _ "rocq prover" (Some "demo")
                          Fixtures2.demo_summary _ _))).
  vm_compute. reflexivity.
Defined.

Lemma ingest_topic_store_isolated_witness :
  snd (fst (ingest_topic Fixtures.store_demo "rocq prover" (Some "other")))
    !! "research_demo"
  = Some Fixtures.fresh_collection.
Proof.
  apply (proj1 (ingest_topic_store_isolated Fixtures.store_demo
                  "rocq prover" (Some "other") "research_demo")).
  vm_compute. discriminate.
Defined.

End Demo.
End IngestProps.

(** ** The agent: when does it stop ingesting? *)

Module AgentProps.
Import Ingest IngestSpec Agent.

Section Props.
Context `{UrlLib} `{Config} `{MoreSettings} `{SerpApi} `{Requests}
  `{HtmlParser} `{TextSplitter} `{Hashlib} `{EmbeddingBackend} `{Unicode}
  `{Clock}.

(** X29. Research settles: when the name of the collection needs no
    trimming, a call of [research] that indexed at least one chunk leaves
    a store in which the namespace exists, so that the next call for the
    same topic, without [force], does not ingest, makes no request and
    leaves the store as it is. *)
Theorem research_settles (store store' : Store) (topic : string)
    (namespace : option string) (force : bool) (r : ResearchResult)
    (s : Summary) (log : list event) :
  strip (CHROMA_COLLECTION_PREFIX SETTINGS
         +:+ effective_namespace topic namespace)
  = CHROMA_COLLECTION_PREFIX SETTINGS
    +:+ effective_namespace topic namespace →
  research store topic namespace force = (Return r, store', log) →
  ingest_summary r = Some s →
  0 < indexed_chunks s →
  _namespace_exists store' (effective_namespace topic namespace) = true
  ∧ ∃ r', research store' topic namespace false = (Return r', store', [])
          ∧ did_ingest r' = false
          ∧ res_namespace r' = res_namespace r.
Proof.
  set (ns := effective_namespace topic namespace).
  intros Htrim Hrun Hsum Hpos.
  assert (Hns : ns ≠ "") by apply IngestProps.effective_namespace_not_empty.
  assert (Hexists : _namespace_exists store' ns = true).
  { unfold research in Hrun. fold (effective_namespace topic namespace) in Hrun.
    fold ns in Hrun.
    destruct (force || negb (_namespace_exists store ns));
      [|injection Hrun as <- _ _; discriminate].
    destruct (IngestProps.ingest_topic_run store topic (Some ns))
      as (_ & _ & records & _ & _ & _ & _ & Hok).
    rewrite (IngestProps.effective_namespace_given _ _ Hns) in Hok.
    destruct (ingest_topic store topic (Some ns)) as [[[obs|e|] st] lg];
      try discriminate.
    injection Hrun as <- <- _. simpl in Hsum. injection Hsum as ->.
    destruct (Hok s eq_refl) as (_ & _ & Hstore).
    destruct (Hstore Hpos) as [Hrecs Hst]. simpl in Hst. subst st.
    pose proof (UpsertVectorsMore.upsert_vectors_creates store ns records
                  Hns Hrecs) as Hcol.
    unfold UpsertVectors._collection_name in Hcol. rewrite Htrim in Hcol.
    unfold _namespace_exists. apply bool_decide_eq_true. exact Hcol. }
  split; [exact Hexists|].
  unfold research. fold (effective_namespace topic namespace). fold ns.
  rewrite Hexists. simpl. eexists. split; [reflexivity|].
  split; [reflexivity|]. simpl.
  unfold research in Hrun. fold (effective_namespace topic namespace) in Hrun.
  fold ns in Hrun.
  destruct (force || negb (_namespace_exists store ns)).
  - destruct (ingest_topic store topic (Some ns)) as [[[obs|e|] st] lg];
      try discriminate.
    injection Hrun as <- _ _. reflexivity.
  - injection Hrun as <- _ _. reflexivity.
Qed.

(** X30. Research does not settle when the name of the collection needs
    trimming: the records go into the collection with the trimmed name,
    while the agent looks for the untrimmed one. If no collection has
    that name, then after [research], whatever its outcome, there is
    still none, and the call has ingested: so will every later one. *)
Theorem research_never_settles (store : Store) (topic : string)
    (namespace : option string) (force : bool) :
  strip (CHROMA_COLLECTION_PREFIX SETTINGS
         +:+ effective_namespace topic namespace)
  ≠ CHROMA_COLLECTION_PREFIX SETTINGS
    +:+ effective_namespace topic namespace →
  _namespace_exists store (effective_namespace topic namespace) = false →
  _namespace_exists (snd (fst (research store topic namespace force)))
    (effective_namespace topic namespace)
  = false
  ∧ ∀ r, fst (fst (research store topic namespace force)) = Return r →
         did_ingest r = true.
Proof.
  set (ns := effective_namespace topic namespace).
  intros Htrim Hnone.
  assert (Hns : ns ≠ "") by apply IngestProps.effective_namespace_not_empty.
  unfold research. fold (effective_namespace topic namespace). fold ns.
  rewrite Hnone, orb_true_r.
  destruct (IngestProps.ingest_topic_run store topic (Some ns))
    as (_ & _ & records & _ & _ & _ & Hstore & _).
  rewrite (IngestProps.effective_namespace_given _ _ Hns) in Hstore.
  assert (Hafter : _namespace_exists
                     (snd (fst (ingest_topic store topic (Some ns)))) ns
                   = false).
  { destruct Hstore as [->|[_ ->]]; [exact Hnone|].
    unfold _namespace_exists in *.
    apply bool_decide_eq_false. apply bool_decide_eq_false in Hnone.
    rewrite UpsertVectorsMore.upsert_vectors_other; [exact Hnone|].
    unfold UpsertVectors._collection_name. congruence. }
  destruct (ingest_topic store topic (Some ns)) as [[[obs|e|] st] lg];
    simpl in *; (split; [exact Hafter|]); intros r [= <-]; reflexivity.
Qed.

End Props.

Section Demo.
Local Existing Instance Urllib.model.
Local Existing Instance Fixtures.config.
Local Existing Instance Fixtures2.more_settings.
Local Existing Instance Fixtures.serp_one.
Local Existing Instance Fixtures2.net_page.
Local Existing Instance Fixtures2.parser_long.
Local Existing Instance Fixtures.line_splitter.
Local Existing Instance Fixtures.toy_digest.
Local Existing Instance Fixtures.embedder_const.
Local Existing Instance Fixtures2.ascii_filter.
Local Existing Instance Fixtures2.clock_fixed.

Lemma research_settles_witness :
  _namespace_exists
    (snd (fst (research ∅ "rocq prover" (Some "demo") false))) "demo"
  = true.
Proof.
  refine (proj1 (research_settles ∅ _ "rocq prover" (Some "demo") false
                   _ Fixtures2.demo_summary _ _ _ _ _)).
  - vm_compute. reflexivity.
  - vm_compute. reflexivity.
  - reflexivity.
  - reflexivity.
Defined.

Lemma research_never_settles_witness :
  _namespace_exists
    (snd (fst (research ∅ "rocq prover" (Some "demo ") false))) "demo "
  = false.
Proof.
  refine (proj1 (research_never_settles ∅ "rocq prover" (Some "demo ") false
                   _ _)).
  - vm_compute. discriminate.
  - reflexivity.
Defined.

End Demo.
End AgentProps.
